(** * A shallow embedding of the MQTT 3.1/3.1.1 message codec

    The Go package [mqtt] encodes and decodes MQTT control packets.  This file
    embeds the codec as Rocq functions and proves properties of it.

    Conventions of the embedding:
    - a Go [byte] is a [Byte.byte]; [b2z] and [z2b] are the conversions to and
      from integers, [z2b] truncating to 8 bits the way Go's [byte(x)] does;
    - [uint16], [int32], [int] and [MessageType] values are integers of [Z];
      where the source converts between widths the wrap-around is written out;
    - a [*bytes.Buffer] is the list of its unread bytes: [Write] appends at the
      end, [ReadByte] and [Next] consume from the front, [Reset] empties it.  A
      nil buffer pointer and an empty buffer are both the empty list: every
      path of the source calls [resetBuf] before it touches the buffer;
    - an [io.Reader] source is the finite list of the bytes it delivers before
      it reports [io.EOF] (a [bytes.Buffer] over a byte slice, as in the
      package's tests);
    - a Go result [(n, err)] is a pair of the count and an [option error]; the
      mutated receiver (and the rest of the source) is returned next to it. *)

From Stdlib Require Import ZArith List Lia Bool.
From Stdlib Require Import Strings.Byte.
Import ListNotations.
Open Scope Z_scope.

(** ** Bytes *)

Abbreviation byte := Byte.byte.

Definition b2z (b : byte) : Z := Z.of_N (Byte.to_N b).

Definition z2b (z : Z) : byte :=
  match Byte.of_N (Z.to_N (z mod 256)) with
  | Some b => b
  | None => x00
  end.

(** Bit operations of Go on [byte] operands; the result is a [byte] again. *)
Definition band (a b : byte) : byte := z2b (Z.land (b2z a) (b2z b)).
Definition bor (a b : byte) : byte := z2b (Z.lor (b2z a) (b2z b)).
Definition bshr (a : byte) (n : Z) : byte := z2b (Z.shiftr (b2z a) n).
Definition bshl (a : byte) (n : Z) : byte := z2b (Z.shiftl (b2z a) n).

Definition byte_eqb (a b : byte) : bool := Byte.eqb a b.

(** [len(s)] as a Go [int]. *)
Definition len {A} (l : list A) : Z := Z.of_nat (length l).

(** Conversions between integer widths. *)
Definition to_uint16 (z : Z) : Z := z mod 65536.
Definition to_int32 (z : Z) : Z := (z + 2147483648) mod 4294967296 - 2147483648.

(** ** Errors

    One constructor for each error value the package can return.  *)
Inductive error : Type :=
| EOF                                   (* io.EOF *)
| ErrInsufficientBuffer                 (* "Insufficient buffer size. Expecting %d, got %d." *)
| ErrLengthGreater                      (* "Length greater than %d bytes." *)
| ErrMalformedRemlen                    (* "Malformed remaining length. 4th byte has continuation bit set." *)
| ErrExceededMaximum                    (* "Exceeded maximum of %d" *)
| ErrHeaderEncodeRemlen                 (* "header/Encode: remaining length (%d) too big" *)
| ErrHeaderEncodeType                   (* "header/Encode: Invalid message type %d" *)
| ErrHeaderDecodeSize                   (* "header/Decode: Insufficient buffer size. ..." *)
| ErrHeaderSetType                      (* "header/SetType: Invalid control packet type %d" *)
| ErrHeaderSetLength                    (* "header/SetLength: Value (%d) out of bound ..." *)
| ErrInvalidMessageType                 (* "Invalid message type %d." *)
| ErrUnexpectedMessageType              (* "Invalid message type %d. Expecting %d." *)
| ErrInvalidFlags                       (* "Invalid message (%d) flags. Expecting %d, got %d" *)
| ErrInvalidPublishQos                  (* "Invalid QoS (%d) for PUBLISH message." *)
| ErrConnackUnacceptableProtocolVersion
| ErrConnackIdentifierRejected
| ErrConnectEncodeType                  (* "connect/Encode: Invalid message type. ..." *)
| ErrConnectSetVersion                  (* "connect/SetVersion: Invalid version number %d" *)
| ErrConnectSetWillQos                  (* "connect/SetWillQos: Invalid QoS level %d" *)
| ErrConnectEncodeVersion               (* "connect/Encode: Unsupported protocol version %d" *)
| ErrConnectEncodeMessageVersion        (* "connect/encodeVariableHeader: Unsupported protocol version %d" *)
| ErrConnectReservedBit                 (* "connect/decodeMessage: Connect Flags reserved bit 0 is not 0" *)
| ErrConnectWillQos                     (* "connect/decodeMessage: Invalid QoS level (%d) for %s message" *)
| ErrConnectWillFlag                    (* "connect/decodeMessage: Protocol violation: If the Will Flag ..." *)
| ErrConnectUsernameNoPassword          (* "connect/decodeMessage: Username flag is set but Password flag is not set" *)
| ErrConnectTrailing                    (* "connect/decodeMessage: Invalid buffer size. Still has %d bytes at the end." *)
| ErrConnackDecodeFlags                 (* "connack/Decode: Bits 7-1 in Connack Acknowledge Flags byte (1) are not 0" *)
| ErrConnackDecodeCode                  (* "connack/Decode: Invalid CONNACK return code (%d)" *)
| ErrConnackEncodeCode                  (* "connack/Encode: Invalid CONNACK return code (%d)" *)
| ErrPublishSetQoS                      (* "publish/SetQoS: Invalid QoS %d." *)
| ErrPublishSetTopic                    (* "publish/SetTopic: Invalid topic name (%s). ..." *)
| ErrPublishDecodeTopic                 (* "publish/Decode: Invalid topic name (%s). ..." *)
| ErrPublishEncodeTopic                 (* "publish/Encode: Topic name is empty." *)
| ErrPublishEncodePayload               (* "publish/Encode: Payload is empty." *)
| ErrSubscribeQos                       (* "Invalid QoS %d" *)
| ErrSubscribeEmpty                     (* "subscribe/Decode: Empty topic list" *)
| ErrSubackAddCode                      (* "suback/AddReturnCode: Invalid return code %d. ..." *)
| ErrSubackDecodeCode                   (* "suback/Decode: Invalid return code %d for topic %d" *)
| ErrSubackEncodeCode                   (* "suback/Encode: Invalid return code %d for topic %d" *)
| ErrUnsubscribeEmpty                   (* "unsubscribe/Decode: Empty topic list" *)
| PanicIndexOutOfRange.                 (* run-time panic: index out of range *)

(** ** Constants of the package *)

Definition maxLPString : Z := 65535.
Definition maxFixedHeaderLength : Z := 5.
Definition maxRemainingLength : Z := 268435455.

Definition QosAtMostOnce : byte := x00.
Definition QosAtLeastOnce : byte := x01.
Definition QosExactlyOnce : byte := x02.
Definition QosFailure : byte := x80.

(** The strings "MQIsdp" and "MQTT". *)
Definition str_MQIsdp : list byte := [x4d; x51; x49; x73; x64; x70].
Definition str_MQTT : list byte := [x4d; x51; x54; x54].

(** [SupportedVersions]: the map 0x3 -> "MQIsdp", 0x4 -> "MQTT". *)
Definition SupportedVersions (v : byte) : option (list byte) :=
  match v with
  | x03 => Some str_MQIsdp
  | x04 => Some str_MQTT
  | _ => None
  end.

(** ** Predicates on field values *)

Definition IndexByte (s : list byte) (c : byte) : bool := existsb (byte_eqb c) s.

(** [len(topic) > 0 && bytes.IndexByte(topic, '#') == -1 && bytes.IndexByte(topic, '*') == -1] *)
Definition ValidTopic (topic : list byte) : bool :=
  (0 <? len topic) && negb (IndexByte topic x23) && negb (IndexByte topic x2a).

Definition ValidQos (qos : byte) : bool :=
  byte_eqb qos QosAtMostOnce || byte_eqb qos QosAtLeastOnce || byte_eqb qos QosExactlyOnce.

(** A byte of the class [[0-9a-zA-Z]]. *)
Definition alnum (b : byte) : bool :=
  let z := b2z b in
  ((48 <=? z) && (z <=? 57)) || ((97 <=? z) && (z <=? 122)) || ((65 <=? z) && (z <=? 90)).

(** [clientIdRegexp.Match(cid)] for the regular expression [^[0-9a-zA-Z]*$]:
    every byte of [cid] belongs to the class. *)
Definition ValidClientId (cid : list byte) : bool := forallb alnum cid.

Definition ValidVersion (v : byte) : bool :=
  match SupportedVersions v with Some _ => true | None => false end.

(** ** Primitive codec on a [bytes.Buffer] *)

(** [buf.ReadByte()] *)
Definition ReadByte (buf : list byte) : option byte * list byte :=
  match buf with
  | [] => (None, [])
  | b :: r => (Some b, r)
  end.

(** [buf.Next(n)]: the next [n] unread bytes (fewer when the buffer is shorter).
    The list returned is the content of the slice that [Next] returns, at the
    time it returns it.  In the code this slice is a view of the storage of the
    buffer, valid until the buffer is reset or written again: a message that
    keeps it in a field and whose buffer is used again, by a second [Decode]
    into the message or by an [Encode] of it, may then read other bytes
    there.  A list does not change, so a field filled from [Next] stands for
    the field of the code only up to the next use of the buffer of its message.
    The theorems that state the content of such a field state it for a
    message given by its field values, or for the fields that the one [Decode]
    at hand fills; where the result of a [Decode] keeps byte strings of the
    receiver, the receiver is a new message; and none states the bytes that
    [Encode] writes for a message whose byte strings a [Decode] has filled. *)
Definition Next (n : Z) (buf : list byte) : list byte * list byte :=
  (firstn (Z.to_nat n) buf, skipn (Z.to_nat n) buf).

(** [readUint16]: fails when fewer than two bytes are unread, else consumes two
    bytes and reads them big endian. *)
Definition readUint16 (buf : list byte) : Z * option error * list byte :=
  match buf with
  | b0 :: b1 :: r => (b2z b0 * 256 + b2z b1, None, r)
  | _ => (0, Some ErrInsufficientBuffer, buf)
  end.

(** [writeUint16]: [binary.BigEndian.PutUint16] then [buf.Write]. *)
Definition writeUint16 (buf : list byte) (n : Z) : list byte :=
  buf ++ [z2b (Z.shiftr n 8); z2b n].

(** [readLPBytes]: result bytes, count, error and the buffer left.  The bytes
    are those of [buf.Next(n)], a view of the buffer in the code and its
    content here (see [Next]). *)
Definition readLPBytes (buf : list byte) : list byte * Z * option error * list byte :=
  let '(n, err, buf1) := readUint16 buf in
  match err with
  | Some e => ([], 2, Some e, buf1)
  | None =>
      if len buf1 <? n then ([], 2, Some ErrInsufficientBuffer, buf1)
      else let '(s, buf2) := Next n buf1 in (s, 2 + n, None, buf2)
  end.

(** [writeLPBytes]: count, error and the buffer after the call. *)
Definition writeLPBytes (buf : list byte) (b : list byte) : Z * option error * list byte :=
  if maxLPString <? len b then (0, Some ErrLengthGreater, buf)
  else
    let buf1 := writeUint16 buf (to_uint16 (len b)) in
    (2 + len b, None, buf1 ++ b).

(** ** The remaining-length varint *)

(** Outcome of the read loop of [readVarint32]. *)
Inductive varint_loop : Type :=
| LoopErr (i : Z) (e : error) (src : list byte)
    (* [src.Read] failed in iteration [i] *)
| LoopEnd (x : Z) (i : Z) (got : list byte) (src : list byte).
    (* the loop was left with value [x] and index [i]; [got] are the bytes read *)

(** The loop [for i = 0; i < 4; i++]; [k] counts the iterations that are left. *)
Fixpoint readVarint32_loop (k : nat) (i s x : Z) (got src : list byte) : varint_loop :=
  match k with
  | O => LoopEnd x i got src
  | S k' =>
      match src with
      | [] => LoopErr i EOF src
      | b :: src' =>
          if b2z b <? 128
          then LoopEnd (Z.lor x (Z.shiftl (b2z b) s)) i (got ++ [b]) src'
          else readVarint32_loop k' (i + 1) (s + 7)
                 (Z.lor x (Z.shiftl (b2z (band b x7f)) s)) (got ++ [b]) src'
      end
  end.

(** Result of [readVarint32]: value, count, error, the destination writer
    ([None] for a nil writer) and the source left. *)
Record varint_result : Type := mkVarintResult {
  vr_value : Z;
  vr_count : Z;
  vr_err : option error;
  vr_dst : option (list byte);
  vr_src : list byte
}.

Definition readVarint32 (dst : option (list byte)) (src : list byte) : varint_result :=
  match readVarint32_loop 4 0 0 0 [] src with
  | LoopErr i e src' => mkVarintResult 0 (i + 1) (Some e) dst src'
  | LoopEnd x i got src' =>
      if (3 <? i) || ((i =? 3) && (0 <? b2z (band (nth 3 got x00) x80)))
      then mkVarintResult x (i + 1) (Some ErrMalformedRemlen) dst src'
      else
        mkVarintResult x (i + 1) None
          (match dst with Some d => Some (d ++ firstn (Z.to_nat (i + 1)) got) | None => None end)
          src'
  end.

(** Outcome of the write loop of [writeVarint32]: the 4-byte array can be
    indexed out of range only if the loop ran more than three times. *)
Fixpoint writeVarint32_loop (k : nat) (x : Z) (out : list byte) : option (list byte) :=
  if 128 <=? x then
    match k with
    | O => None
    | S k' => writeVarint32_loop k' (Z.shiftr x 7) (out ++ [bor (z2b x) x80])
    end
  else
    match k with
    | O => None
    | S _ => Some (out ++ [z2b x])
    end.

(** [writeVarint32]: count, error and the destination after the call. *)
Definition writeVarint32 (dst : list byte) (x : Z) : Z * option error * list byte :=
  if maxRemainingLength <? x then (0, Some ErrExceededMaximum, dst)
  else
    match writeVarint32_loop 4 x [] with
    | Some bs => (len bs, None, dst ++ bs)
    | None => (0, Some PanicIndexOutOfRange, dst)
    end.


(** ** Message types *)

Definition MessageType := Z.

Definition RESERVED : MessageType := 0.
Definition CONNECT : MessageType := 1.
Definition CONNACK : MessageType := 2.
Definition PUBLISH : MessageType := 3.
Definition PUBACK : MessageType := 4.
Definition PUBREC : MessageType := 5.
Definition PUBREL : MessageType := 6.
Definition PUBCOMP : MessageType := 7.
Definition SUBSCRIBE : MessageType := 8.
Definition SUBACK : MessageType := 9.
Definition UNSUBSCRIBE : MessageType := 10.
Definition UNSUBACK : MessageType := 11.
Definition PINGREQ : MessageType := 12.
Definition PINGRESP : MessageType := 13.
Definition DISCONNECT : MessageType := 14.
Definition RESERVED2 : MessageType := 15.

(** [MessageType.DefaultFlags] *)
Definition DefaultFlags (t : MessageType) : byte :=
  match t with
  | 6 => x02   (* PUBREL *)
  | 8 => x02   (* SUBSCRIBE *)
  | 10 => x02  (* UNSUBSCRIBE *)
  | _ => x00
  end.

(** [MessageType.Valid]: [this > RESERVED && this < RESERVED2] *)
Definition Valid (t : MessageType) : bool := (RESERVED <? t) && (t <? RESERVED2).

(** ** The fixed header *)

Record fixedHeader : Type := mkFixedHeader {
  buf : list byte;
  remlen : Z;
  mtype : MessageType;
  flags : byte
}.

Definition set_buf (h : fixedHeader) (b : list byte) : fixedHeader :=
  mkFixedHeader b (remlen h) (mtype h) (flags h).
Definition set_remlen (h : fixedHeader) (r : Z) : fixedHeader :=
  mkFixedHeader (buf h) r (mtype h) (flags h).
Definition set_mtype (h : fixedHeader) (t : MessageType) : fixedHeader :=
  mkFixedHeader (buf h) (remlen h) t (flags h).
Definition set_flags (h : fixedHeader) (f : byte) : fixedHeader :=
  mkFixedHeader (buf h) (remlen h) (mtype h) f.

(** The zero value [fixedHeader{}]. *)
Definition zeroHeader : fixedHeader := mkFixedHeader [] 0 0 x00.

(** [fixedHeader.SetType] *)
Definition SetType (h : fixedHeader) (t : MessageType) : option error * fixedHeader :=
  if (t =? RESERVED) || (t =? RESERVED2) then (Some ErrHeaderSetType, h)
  else
    let h1 := set_mtype h t in
    (None, if negb (t =? PUBLISH) then set_flags h1 (DefaultFlags t) else h1).

(** [fixedHeader.SetRemainingLength] *)
Definition SetRemainingLength (h : fixedHeader) (r : Z) : option error * fixedHeader :=
  if (maxRemainingLength <? r) || (r <? 0) then (Some ErrHeaderSetLength, h)
  else (None, set_remlen h r).

(** [fixedHeader.resetBuf] *)
Definition resetBuf (h : fixedHeader) : fixedHeader := set_buf h [].

(** Result of an [Encode] method: whether a reader is returned (the reader is
    the receiver's buffer, so its content is given), the count, the error and
    the receiver after the call. *)
Record encoded (M : Type) : Type := mkEncoded {
  e_reader : option (list byte);
  e_n : Z;
  e_err : option error;
  e_msg : M
}.
Arguments mkEncoded {M} _ _ _ _.
Arguments e_reader {M} _.
Arguments e_n {M} _.
Arguments e_err {M} _.
Arguments e_msg {M} _.

(** Result of a [Decode] method: the count, the error, the receiver after the
    call and what is left of the source. *)
Record decoded (M : Type) : Type := mkDecoded {
  d_n : Z;
  d_err : option error;
  d_msg : M;
  d_src : list byte
}.
Arguments mkDecoded {M} _ _ _ _.
Arguments d_n {M} _.
Arguments d_err {M} _.
Arguments d_msg {M} _.
Arguments d_src {M} _.

(** [fixedHeader.Encode] *)
Definition fixedHeader_Encode (h : fixedHeader) : encoded fixedHeader :=
  if maxRemainingLength <? remlen h then mkEncoded None 0 (Some ErrHeaderEncodeRemlen) h
  else if negb (Valid (mtype h)) then mkEncoded None 0 (Some ErrHeaderEncodeType) h
  else
    let h1 := resetBuf h in
    let buf1 := buf h1 ++ [bor (bshl (z2b (mtype h1)) 4) (flags h1)] in
    let '(n, err, buf2) := writeVarint32 buf1 (remlen h1) in
    let h2 := set_buf h1 buf2 in
    match err with
    | Some e => mkEncoded None (1 + n) (Some e) h2
    | None => mkEncoded (Some buf2) (1 + n) None h2
    end.

(** [io.CopyN(dst, src, n)]: count, error, destination and source after it. *)
Definition CopyN (dst src : list byte) (n : Z) : Z * option error * list byte * list byte :=
  let got := firstn (Z.to_nat n) src in
  (len got, if len got <? n then Some EOF else None, dst ++ got, skipn (Z.to_nat n) src).

(** [fixedHeader.copy] *)
Definition fixedHeader_copy (h : fixedHeader) (src : list byte) : decoded fixedHeader :=
  let '(total, err, buf1, src1) := CopyN (buf h) src 1 in
  let h := set_buf h buf1 in
  match err with
  | Some e => mkDecoded 0 (Some e) h src1
  | None =>
      match ReadByte (buf h) with
      | (None, buf2) => mkDecoded 0 (Some EOF) (set_buf h buf2) src1
      | (Some b, buf2) =>
          let h := set_buf h buf2 in
          let mt := b2z (bshr b 4) in
          if negb (Valid mt) then mkDecoded total (Some ErrInvalidMessageType) h src1
          else if negb (mt =? mtype h) then mkDecoded total (Some ErrUnexpectedMessageType) h src1
          else
            let h := set_flags h (band b x0f) in
            if negb (mtype h =? PUBLISH) && negb (byte_eqb (flags h) (DefaultFlags (mtype h)))
            then mkDecoded total (Some ErrInvalidFlags) h src1
            else if (mtype h =? PUBLISH) && negb (ValidQos (band (bshr (flags h) 1) x03))
            then mkDecoded total (Some ErrInvalidPublishQos) h src1
            else
              let r := readVarint32 (Some (buf h)) src1 in
              let h := set_remlen h (vr_value r) in
              let h := match vr_dst r with Some d => set_buf h d | None => h end in
              let m := vr_count r in
              match vr_err r with
              | Some e => mkDecoded (total + m) (Some e) h (vr_src r)
              | None =>
                  let total := total + m in
                  let h := set_buf h (snd (Next m (buf h))) in
                  let '(n, err, buf3, src2) := CopyN (buf h) (vr_src r) (remlen h) in
                  let h := set_buf h buf3 in
                  match err with
                  | Some e => mkDecoded (total + n) (Some e) h src2
                  | None => mkDecoded total None h src2
                  end
              end
      end
  end.

(** [fixedHeader.Decode] *)
Definition fixedHeader_Decode (h : fixedHeader) (src : list byte) : decoded fixedHeader :=
  let h := resetBuf h in
  let r := fixedHeader_copy h src in
  match d_err r with
  | Some e => r
  | None =>
      if negb (remlen (d_msg r) =? len (buf (d_msg r)))
      then mkDecoded (d_n r) (Some ErrHeaderDecodeSize) (d_msg r) (d_src r)
      else mkDecoded (d_n r) None (d_msg r) (d_src r)
  end.

(** ** PUBACK *)

Record PubackMessage : Type := mkPuback {
  puback_header : fixedHeader;
  puback_packetId : Z
}.

Definition NewPubackMessage : PubackMessage :=
  mkPuback (snd (SetType zeroHeader PUBACK)) 0.

(** [PubackMessage.Decode] *)
Definition PubackMessage_Decode (this : PubackMessage) (src : list byte) : decoded PubackMessage :=
  let r := fixedHeader_Decode (puback_header this) src in
  let this := mkPuback (d_msg r) (puback_packetId this) in
  match d_err r with
  | Some e => mkDecoded (0 + d_n r) (Some e) this (d_src r)
  | None =>
      let total := 0 + d_n r in
      let '(id, err, buf1) := readUint16 (buf (puback_header this)) in
      let this := mkPuback (set_buf (puback_header this) buf1) id in
      match err with
      | Some e => mkDecoded 0 (Some e) this (d_src r)
      | None => mkDecoded (total + 2) None this (d_src r)
      end
  end.

(** [PubackMessage.Encode]; [writeUint16] never returns an error. *)
Definition PubackMessage_Encode (this : PubackMessage) : encoded PubackMessage :=
  let h := snd (SetRemainingLength (puback_header this) 2) in
  let r := fixedHeader_Encode h in
  let this := mkPuback (e_msg r) (puback_packetId this) in
  match e_err r with
  | Some e => mkEncoded None 0 (Some e) this
  | None =>
      let buf1 := writeUint16 (buf (puback_header this)) (puback_packetId this) in
      let this := mkPuback (set_buf (puback_header this) buf1) (puback_packetId this) in
      mkEncoded (Some buf1) (e_n r + 2) None this
  end.

(** ** CONNACK *)

Definition ConnackCode := byte.

Record ConnackMessage : Type := mkConnack {
  connack_header : fixedHeader;
  sessionPresent : bool;
  returnCode : ConnackCode
}.

Definition NewConnackMessage : ConnackMessage :=
  mkConnack (snd (SetType zeroHeader CONNACK)) false x00.

Definition ConnackMessage_SetReturnCode (this : ConnackMessage) (ret : ConnackCode) : ConnackMessage :=
  mkConnack (connack_header this) (sessionPresent this) ret.

Definition ConnackMessage_SetSessionPresent (this : ConnackMessage) (v : bool) : ConnackMessage :=
  mkConnack (connack_header this) (if v then true else false) (returnCode this).

(** [ConnackMessage.Decode] *)
Definition ConnackMessage_Decode (this : ConnackMessage) (src : list byte) : decoded ConnackMessage :=
  let r := fixedHeader_Decode (connack_header this) src in
  let this := mkConnack (d_msg r) (sessionPresent this) (returnCode this) in
  let with_buf (m : ConnackMessage) (b : list byte) :=
    mkConnack (set_buf (connack_header m) b) (sessionPresent m) (returnCode m) in
  match d_err r with
  | Some e => mkDecoded (0 + d_n r) (Some e) this (d_src r)
  | None =>
      let total := 0 + d_n r in
      match ReadByte (buf (connack_header this)) with
      | (None, buf1) => mkDecoded total (Some EOF) (with_buf this buf1) (d_src r)
      | (Some b, buf1) =>
          let this := with_buf this buf1 in
          let total := total + 1 in
          if negb (byte_eqb (band b xfe) x00)
          then mkDecoded 0 (Some ErrConnackDecodeFlags) this (d_src r)
          else
            let this := mkConnack (connack_header this) (byte_eqb (band b x01) x01) (returnCode this) in
            match ReadByte (buf (connack_header this)) with
            | (None, buf2) => mkDecoded total (Some EOF) (with_buf this buf2) (d_src r)
            | (Some b, buf2) =>
                let this := with_buf this buf2 in
                let total := total + 1 in
                if 5 <? b2z b
                then mkDecoded 0 (Some ErrConnackDecodeCode) this (d_src r)
                else mkDecoded total None (mkConnack (connack_header this) (sessionPresent this) b) (d_src r)
            end
      end
  end.

(** [ConnackMessage.Encode] *)
Definition ConnackMessage_Encode (this : ConnackMessage) : encoded ConnackMessage :=
  let h := snd (SetRemainingLength (connack_header this) 2) in
  let r := fixedHeader_Encode h in
  let this := mkConnack (e_msg r) (sessionPresent this) (returnCode this) in
  match e_err r with
  | Some e => mkEncoded None 0 (Some e) this
  | None =>
      let b0 := if sessionPresent this then x01 else x00 in
      if 5 <? b2z (returnCode this)
      then mkEncoded None 0 (Some ErrConnackEncodeCode) this
      else
        let b1 := returnCode this in
        let buf1 := buf (connack_header this) ++ [b0; b1] in
        let this := mkConnack (set_buf (connack_header this) buf1) (sessionPresent this) (returnCode this) in
        mkEncoded (Some buf1) (e_n r + 2) None this
  end.

(** ** PUBLISH *)

Record PublishMessage : Type := mkPublish {
  publish_header : fixedHeader;
  publish_packetId : Z;
  topic : list byte;
  payload : list byte
}.

Definition NewPublishMessage : PublishMessage :=
  mkPublish (snd (SetType zeroHeader PUBLISH)) 0 [] [].

Definition publish_set_header (m : PublishMessage) (h : fixedHeader) : PublishMessage :=
  mkPublish h (publish_packetId m) (topic m) (payload m).
Definition publish_set_buf (m : PublishMessage) (b : list byte) : PublishMessage :=
  publish_set_header m (set_buf (publish_header m) b).

(** [PublishMessage.QoS]: [(this.flags >> 1) & 0x3] *)
Definition PublishMessage_QoS (m : PublishMessage) : byte :=
  band (bshr (flags (publish_header m)) 1) x03.

(** [PublishMessage.Dup] and [PublishMessage.Retain] *)
Definition PublishMessage_Dup (m : PublishMessage) : bool :=
  byte_eqb (band (bshr (flags (publish_header m)) 3) x01) x01.
Definition PublishMessage_Retain (m : PublishMessage) : bool :=
  byte_eqb (band (flags (publish_header m)) x01) x01.

(** [PublishMessage.SetQoS] *)
Definition PublishMessage_SetQoS (m : PublishMessage) (v : byte) : option error * PublishMessage :=
  if negb (byte_eqb v x00) && negb (byte_eqb v x01) && negb (byte_eqb v x02)
  then (Some ErrPublishSetQoS, m)
  else
    let f := bor (band (flags (publish_header m)) xf9) (bshl v 1) in
    (None, publish_set_header m (set_flags (publish_header m) f)).

Definition PublishMessage_SetDup (m : PublishMessage) (v : bool) : PublishMessage :=
  let f := flags (publish_header m) in
  publish_set_header m (set_flags (publish_header m) (if v then bor f x08 else band f xf7)).

Definition PublishMessage_SetRetain (m : PublishMessage) (v : bool) : PublishMessage :=
  let f := flags (publish_header m) in
  publish_set_header m (set_flags (publish_header m) (if v then bor f x01 else band f xfe)).

(** [PublishMessage.SetTopic] *)
Definition PublishMessage_SetTopic (m : PublishMessage) (v : list byte) : option error * PublishMessage :=
  if negb (ValidTopic v) then (Some ErrPublishSetTopic, m)
  else (None, mkPublish (publish_header m) (publish_packetId m) v (payload m)).

Definition PublishMessage_SetPacketId (m : PublishMessage) (v : Z) : PublishMessage :=
  mkPublish (publish_header m) v (topic m) (payload m).

Definition PublishMessage_SetPayload (m : PublishMessage) (v : list byte) : PublishMessage :=
  mkPublish (publish_header m) (publish_packetId m) (topic m) v.

(** [PublishMessage.Decode] *)
Definition PublishMessage_Decode (this : PublishMessage) (src : list byte) : decoded PublishMessage :=
  let r := fixedHeader_Decode (publish_header this) src in
  let this := publish_set_header this (d_msg r) in
  match d_err r with
  | Some e => mkDecoded (0 + d_n r) (Some e) this (d_src r)
  | None =>
      let total := 0 + d_n r in
      let '(t, n, err, buf1) := readLPBytes (buf (publish_header this)) in
      let this := mkPublish (set_buf (publish_header this) buf1) (publish_packetId this) t (payload this) in
      match err with
      | Some e => mkDecoded (total + n) (Some e) this (d_src r)
      | None =>
          let total := total + n in
          if negb (ValidTopic (topic this))
          then mkDecoded total (Some ErrPublishDecodeTopic) this (d_src r)
          else
            let finish (total : Z) (this : PublishMessage) :=
              let '(p, buf3) := Next (len (buf (publish_header this))) (buf (publish_header this)) in
              let this := mkPublish (set_buf (publish_header this) buf3) (publish_packetId this) (topic this) p in
              mkDecoded (total + len (payload this)) None this (d_src r) in
            if negb (byte_eqb (PublishMessage_QoS this) x00)
            then
              let '(id, err, buf2) := readUint16 (buf (publish_header this)) in
              let this := mkPublish (set_buf (publish_header this) buf2) id (topic this) (payload this) in
              match err with
              | Some e => mkDecoded 0 (Some e) this (d_src r)
              | None => finish (total + 2) this
              end
            else finish total this
      end
  end.

(** [PublishMessage.Encode]; the result of [SetRemainingLength] is dropped. *)
Definition PublishMessage_Encode (this : PublishMessage) : encoded PublishMessage :=
  if len (topic this) =? 0 then mkEncoded None 0 (Some ErrPublishEncodeTopic) this
  else if len (payload this) =? 0 then mkEncoded None 0 (Some ErrPublishEncodePayload) this
  else
    let total := 2 + len (topic this) + len (payload this) in
    let total := if negb (byte_eqb (PublishMessage_QoS this) x00) then total + 2 else total in
    let this := publish_set_header this (snd (SetRemainingLength (publish_header this) (to_int32 total))) in
    let total := 0 in
    let r := fixedHeader_Encode (publish_header this) in
    let this := publish_set_header this (e_msg r) in
    match e_err r with
    | Some e => mkEncoded None total (Some e) this
    | None =>
        let total := total + e_n r in
        let '(n, err, buf1) := writeLPBytes (buf (publish_header this)) (topic this) in
        let this := publish_set_buf this buf1 in
        match err with
        | Some e => mkEncoded None total (Some e) this
        | None =>
            let total := total + n in
            let '(total, this) :=
              if negb (byte_eqb (PublishMessage_QoS this) x00)
              then (total + 2,
                    publish_set_buf this (writeUint16 (buf (publish_header this)) (publish_packetId this)))
              else (total, this) in
            let buf3 := buf (publish_header this) ++ payload this in
            let this := publish_set_buf this buf3 in
            mkEncoded (Some buf3) (total + len (payload this)) None this
        end
    end.

(** ** SUBACK *)

Record SubackMessage : Type := mkSuback {
  suback_header : fixedHeader;
  suback_packetId : Z;
  returnCodes : list byte
}.

Definition NewSubackMessage : SubackMessage :=
  mkSuback (snd (SetType zeroHeader SUBACK)) 0 [].

(** The test [code != 0x00 && code != 0x01 && code != 0x02 && code != 0x80]. *)
Definition bad_return_code (c : byte) : bool :=
  negb (byte_eqb c x00) && negb (byte_eqb c x01) && negb (byte_eqb c x02) && negb (byte_eqb c x80).

(** [SubackMessage.AddReturnCodes]: codes are appended one at a time until an
    invalid one is met. *)
Fixpoint SubackMessage_AddReturnCodes (this : SubackMessage) (ret : list byte)
  : option error * SubackMessage :=
  match ret with
  | [] => (None, this)
  | c :: ret' =>
      if bad_return_code c then (Some ErrSubackAddCode, this)
      else SubackMessage_AddReturnCodes
             (mkSuback (suback_header this) (suback_packetId this) (returnCodes this ++ [c])) ret'
  end.

Definition SubackMessage_AddReturnCode (this : SubackMessage) (ret : byte) :=
  SubackMessage_AddReturnCodes this [ret].

(** [SubackMessage.Decode] *)
Definition SubackMessage_Decode (this : SubackMessage) (src : list byte) : decoded SubackMessage :=
  let r := fixedHeader_Decode (suback_header this) src in
  let this := mkSuback (d_msg r) (suback_packetId this) (returnCodes this) in
  match d_err r with
  | Some e => mkDecoded (0 + d_n r) (Some e) this (d_src r)
  | None =>
      let total := 0 + d_n r in
      let '(id, err, buf1) := readUint16 (buf (suback_header this)) in
      let this := mkSuback (set_buf (suback_header this) buf1) id (returnCodes this) in
      match err with
      | Some e => mkDecoded 0 (Some e) this (d_src r)
      | None =>
          let total := total + 2 in
          let '(codes, buf2) := Next (len (buf (suback_header this))) (buf (suback_header this)) in
          let this := mkSuback (set_buf (suback_header this) buf2) (suback_packetId this) codes in
          let total := total + len (returnCodes this) in
          if existsb bad_return_code (returnCodes this)
          then mkDecoded total (Some ErrSubackDecodeCode) this (d_src r)
          else mkDecoded total None this (d_src r)
      end
  end.

(** [SubackMessage.Encode] *)
Definition SubackMessage_Encode (this : SubackMessage) : encoded SubackMessage :=
  if existsb bad_return_code (returnCodes this)
  then mkEncoded None 0 (Some ErrSubackEncodeCode) this
  else
    let h := snd (SetRemainingLength (suback_header this)
                    (to_int32 (2 + to_int32 (len (returnCodes this))))) in
    let r := fixedHeader_Encode h in
    let this := mkSuback (e_msg r) (suback_packetId this) (returnCodes this) in
    match e_err r with
    | Some e => mkEncoded None 0 (Some e) this
    | None =>
        let buf1 := writeUint16 (buf (suback_header this)) (suback_packetId this) in
        let buf2 := buf1 ++ returnCodes this in
        let this := mkSuback (set_buf (suback_header this) buf2) (suback_packetId this) (returnCodes this) in
        mkEncoded (Some buf2) (e_n r + 2 + len (returnCodes this)) None this
    end.

(** ** SUBSCRIBE *)

Record SubscribeMessage : Type := mkSubscribe {
  subscribe_header : fixedHeader;
  subscribe_packetId : Z;
  subscribe_topics : list (list byte);
  qos : list byte
}.

Definition NewSubscribeMessage : SubscribeMessage :=
  mkSubscribe (snd (SetType zeroHeader SUBSCRIBE)) 0 [] [].

Definition subscribe_set_buf (m : SubscribeMessage) (b : list byte) : SubscribeMessage :=
  mkSubscribe (set_buf (subscribe_header m) b) (subscribe_packetId m) (subscribe_topics m) (qos m).

Definition bytes_eqb (a b : list byte) : bool :=
  if list_eq_dec Byte.byte_eq_dec a b then true else false.

(** The search loop of [AddTopic], [RemoveTopic] and [TopicExists]: the index
    of the first topic equal to [topic]. *)
Fixpoint find_topic (topics : list (list byte)) (topic : list byte) (i : nat) : option nat :=
  match topics with
  | [] => None
  | t :: ts => if bytes_eqb t topic then Some i else find_topic ts topic (S i)
  end.

(** [s[i] = v] on a slice: [None] when the index is out of range. *)
Fixpoint set_nth {A} (l : list A) (i : nat) (v : A) : option (list A) :=
  match l, i with
  | [], _ => None
  | _ :: r, O => Some (v :: r)
  | x :: r, S i' => option_map (cons x) (set_nth r i' v)
  end.

(** [SubscribeMessage.AddTopic] *)
Definition SubscribeMessage_AddTopic (this : SubscribeMessage) (topic : list byte) (q : byte)
  : option error * SubscribeMessage :=
  if negb (ValidQos q) then (Some ErrSubscribeQos, this)
  else
    match find_topic (subscribe_topics this) topic 0 with
    | Some i =>
        match set_nth (qos this) i q with
        | Some qos' =>
            (None, mkSubscribe (subscribe_header this) (subscribe_packetId this)
                     (subscribe_topics this) qos')
        | None => (Some PanicIndexOutOfRange, this)
        end
    | None =>
        (None, mkSubscribe (subscribe_header this) (subscribe_packetId this)
                 (subscribe_topics this ++ [topic]) (qos this ++ [q]))
    end.

(** The loop [for this.buf.Len() > 0] of [SubscribeMessage.Decode]; [k] bounds
    the number of iterations, [None] is returned when the bound is reached. *)
Fixpoint SubscribeMessage_Decode_loop (k : nat) (total : Z) (this : SubscribeMessage)
  : option (Z * option error * SubscribeMessage) :=
  if 0 <? len (buf (subscribe_header this)) then
    match k with
    | O => None
    | S k' =>
        let '(t, n, err, buf1) := readLPBytes (buf (subscribe_header this)) in
        let this := subscribe_set_buf this buf1 in
        match err with
        | Some e => Some (total + n, Some e, this)
        | None =>
            let total := total + n in
            let this := mkSubscribe (subscribe_header this) (subscribe_packetId this)
                          (subscribe_topics this ++ [t]) (qos this) in
            match ReadByte (buf (subscribe_header this)) with
            | (None, buf2) => Some (total, Some EOF, subscribe_set_buf this buf2)
            | (Some b, buf2) =>
                let this := subscribe_set_buf this buf2 in
                let total := total + 1 in
                SubscribeMessage_Decode_loop k' total
                  (mkSubscribe (subscribe_header this) (subscribe_packetId this)
                     (subscribe_topics this) (qos this ++ [b]))
            end
        end
    end
  else Some (total, None, this).

(** [SubscribeMessage.Decode]; every iteration of the loop consumes at least
    one byte, so the length of the buffer bounds the number of iterations
    (lemma [SubscribeMessage_Decode_loop_fuel]). *)
Definition SubscribeMessage_Decode (this : SubscribeMessage) (src : list byte)
  : decoded SubscribeMessage :=
  let r := fixedHeader_Decode (subscribe_header this) src in
  let this := mkSubscribe (d_msg r) (subscribe_packetId this) (subscribe_topics this) (qos this) in
  match d_err r with
  | Some e => mkDecoded (0 + d_n r) (Some e) this (d_src r)
  | None =>
      let total := 0 + d_n r in
      let '(id, err, buf1) := readUint16 (buf (subscribe_header this)) in
      let this := mkSubscribe (set_buf (subscribe_header this) buf1) id
                    (subscribe_topics this) (qos this) in
      match err with
      | Some e => mkDecoded 0 (Some e) this (d_src r)
      | None =>
          let total := total + 2 in
          match SubscribeMessage_Decode_loop (length (buf (subscribe_header this))) total this with
          | None => mkDecoded total (Some PanicIndexOutOfRange) this (d_src r)
          | Some (total, Some e, this) => mkDecoded total (Some e) this (d_src r)
          | Some (total, None, this) =>
              if len (subscribe_topics this) =? 0
              then mkDecoded 0 (Some ErrSubscribeEmpty) this (d_src r)
              else mkDecoded total None this (d_src r)
          end
      end
  end.

(** The first loop of [SubscribeMessage.Encode]: [total += 2 + len(t) + 1]. *)
Definition SubscribeMessage_size (this : SubscribeMessage) : Z :=
  fold_left (fun total t => total + (2 + len t + 1)) (subscribe_topics this) 2.

(** The second loop of [SubscribeMessage.Encode], from index [i] on. *)
Fixpoint SubscribeMessage_Encode_loop (ts : list (list byte)) (i : nat) (qs : list byte)
  (total : Z) (b : list byte) : Z * option error * list byte :=
  match ts with
  | [] => (total, None, b)
  | t :: ts' =>
      let '(n, err, b1) := writeLPBytes b t in
      match err with
      | Some e => (total, Some e, b1)
      | None =>
          match nth_error qs i with
          | None => (total + n, Some PanicIndexOutOfRange, b1)
          | Some q => SubscribeMessage_Encode_loop ts' (S i) qs (total + n + 1) (b1 ++ [q])
          end
      end
  end.

(** [SubscribeMessage.Encode]; the result of [SetRemainingLength] is dropped. *)
Definition SubscribeMessage_Encode (this : SubscribeMessage) : encoded SubscribeMessage :=
  let total := SubscribeMessage_size this in
  let h := snd (SetRemainingLength (subscribe_header this) (to_int32 total)) in
  let r := fixedHeader_Encode h in
  let this := mkSubscribe (e_msg r) (subscribe_packetId this) (subscribe_topics this) (qos this) in
  match e_err r with
  | Some e => mkEncoded None (e_n r) (Some e) this
  | None =>
      let total := e_n r in
      let buf1 := writeUint16 (buf (subscribe_header this)) (subscribe_packetId this) in
      let total := total + 2 in
      let '(total, err, buf2) :=
        SubscribeMessage_Encode_loop (subscribe_topics this) 0 (qos this) total buf1 in
      let this := subscribe_set_buf this buf2 in
      match err with
      | Some e => mkEncoded None total (Some e) this
      | None => mkEncoded (Some buf2) total None this
      end
  end.

(** ** UNSUBSCRIBE *)

Record UnsubscribeMessage : Type := mkUnsubscribe {
  unsubscribe_header : fixedHeader;
  unsubscribe_packetId : Z;
  unsubscribe_topics : list (list byte)
}.

Definition NewUnsubscribeMessage : UnsubscribeMessage :=
  mkUnsubscribe (snd (SetType zeroHeader UNSUBSCRIBE)) 0 [].

Definition unsubscribe_set_buf (m : UnsubscribeMessage) (b : list byte) : UnsubscribeMessage :=
  mkUnsubscribe (set_buf (unsubscribe_header m) b) (unsubscribe_packetId m) (unsubscribe_topics m).

(** [UnsubscribeMessage.TopicExists] and [UnsubscribeMessage.AddTopic] *)
Definition UnsubscribeMessage_TopicExists (this : UnsubscribeMessage) (topic : list byte) : bool :=
  existsb (fun t => bytes_eqb t topic) (unsubscribe_topics this).

Definition UnsubscribeMessage_AddTopic (this : UnsubscribeMessage) (topic : list byte)
  : UnsubscribeMessage :=
  if UnsubscribeMessage_TopicExists this topic then this
  else mkUnsubscribe (unsubscribe_header this) (unsubscribe_packetId this)
         (unsubscribe_topics this ++ [topic]).

(** The loop [for this.buf.Len() > 0] of [UnsubscribeMessage.Decode]. *)
Fixpoint UnsubscribeMessage_Decode_loop (k : nat) (total : Z) (this : UnsubscribeMessage)
  : option (Z * option error * UnsubscribeMessage) :=
  if 0 <? len (buf (unsubscribe_header this)) then
    match k with
    | O => None
    | S k' =>
        let '(t, n, err, buf1) := readLPBytes (buf (unsubscribe_header this)) in
        let this := unsubscribe_set_buf this buf1 in
        match err with
        | Some e => Some (total + n, Some e, this)
        | None =>
            UnsubscribeMessage_Decode_loop k' (total + n)
              (mkUnsubscribe (unsubscribe_header this) (unsubscribe_packetId this)
                 (unsubscribe_topics this ++ [t]))
        end
    end
  else Some (total, None, this).

(** [UnsubscribeMessage.Decode] *)
Definition UnsubscribeMessage_Decode (this : UnsubscribeMessage) (src : list byte)
  : decoded UnsubscribeMessage :=
  let r := fixedHeader_Decode (unsubscribe_header this) src in
  let this := mkUnsubscribe (d_msg r) (unsubscribe_packetId this) (unsubscribe_topics this) in
  match d_err r with
  | Some e => mkDecoded (0 + d_n r) (Some e) this (d_src r)
  | None =>
      let total := 0 + d_n r in
      let '(id, err, buf1) := readUint16 (buf (unsubscribe_header this)) in
      let this := mkUnsubscribe (set_buf (unsubscribe_header this) buf1) id (unsubscribe_topics this) in
      match err with
      | Some e => mkDecoded 0 (Some e) this (d_src r)
      | None =>
          let total := total + 2 in
          match UnsubscribeMessage_Decode_loop (length (buf (unsubscribe_header this))) total this with
          | None => mkDecoded total (Some PanicIndexOutOfRange) this (d_src r)
          | Some (total, Some e, this) => mkDecoded total (Some e) this (d_src r)
          | Some (total, None, this) =>
              if len (unsubscribe_topics this) =? 0
              then mkDecoded 0 (Some ErrUnsubscribeEmpty) this (d_src r)
              else mkDecoded total None this (d_src r)
          end
      end
  end.

Definition UnsubscribeMessage_size (this : UnsubscribeMessage) : Z :=
  fold_left (fun total t => total + (2 + len t)) (unsubscribe_topics this) 2.

Fixpoint UnsubscribeMessage_Encode_loop (ts : list (list byte)) (total : Z) (b : list byte)
  : Z * option error * list byte :=
  match ts with
  | [] => (total, None, b)
  | t :: ts' =>
      let '(n, err, b1) := writeLPBytes b t in
      match err with
      | Some e => (0, Some e, b1)
      | None => UnsubscribeMessage_Encode_loop ts' (total + n) b1
      end
  end.

(** [UnsubscribeMessage.Encode]; the result of [SetRemainingLength] is dropped. *)
Definition UnsubscribeMessage_Encode (this : UnsubscribeMessage) : encoded UnsubscribeMessage :=
  let total := UnsubscribeMessage_size this in
  let h := snd (SetRemainingLength (unsubscribe_header this) (to_int32 total)) in
  let r := fixedHeader_Encode h in
  let this := mkUnsubscribe (e_msg r) (unsubscribe_packetId this) (unsubscribe_topics this) in
  match e_err r with
  | Some e => mkEncoded None 0 (Some e) this
  | None =>
      let total := e_n r in
      let buf1 := writeUint16 (buf (unsubscribe_header this)) (unsubscribe_packetId this) in
      let total := total + 2 in
      let '(total, err, buf2) :=
        UnsubscribeMessage_Encode_loop (unsubscribe_topics this) total buf1 in
      let this := unsubscribe_set_buf this buf2 in
      match err with
      | Some e => mkEncoded None total (Some e) this
      | None => mkEncoded (Some buf2) total None this
      end
  end.

(** ** CONNECT *)

Record ConnectMessage : Type := mkConnect {
  connect_header : fixedHeader;
  connectFlags : byte;
  version : byte;
  keepAlive : Z;
  protoName : list byte;
  clientId : list byte;
  willTopic : list byte;
  willMessage : list byte;
  username : list byte;
  password : list byte
}.

Definition NewConnectMessage : ConnectMessage :=
  mkConnect (snd (SetType zeroHeader CONNECT)) x00 x00 0 [] [] [] [] [] [].

Definition connect_set_header (m : ConnectMessage) (h : fixedHeader) : ConnectMessage :=
  mkConnect h (connectFlags m) (version m) (keepAlive m) (protoName m) (clientId m)
    (willTopic m) (willMessage m) (username m) (password m).
Definition connect_set_buf (m : ConnectMessage) (b : list byte) : ConnectMessage :=
  connect_set_header m (set_buf (connect_header m) b).
Definition connect_set_flags (m : ConnectMessage) (f : byte) : ConnectMessage :=
  mkConnect (connect_header m) f (version m) (keepAlive m) (protoName m) (clientId m)
    (willTopic m) (willMessage m) (username m) (password m).
Definition connect_set_version (m : ConnectMessage) (v : byte) : ConnectMessage :=
  mkConnect (connect_header m) (connectFlags m) v (keepAlive m) (protoName m) (clientId m)
    (willTopic m) (willMessage m) (username m) (password m).
Definition connect_set_keepAlive (m : ConnectMessage) (v : Z) : ConnectMessage :=
  mkConnect (connect_header m) (connectFlags m) (version m) v (protoName m) (clientId m)
    (willTopic m) (willMessage m) (username m) (password m).
Definition connect_set_protoName (m : ConnectMessage) (v : list byte) : ConnectMessage :=
  mkConnect (connect_header m) (connectFlags m) (version m) (keepAlive m) v (clientId m)
    (willTopic m) (willMessage m) (username m) (password m).
Definition connect_set_clientId (m : ConnectMessage) (v : list byte) : ConnectMessage :=
  mkConnect (connect_header m) (connectFlags m) (version m) (keepAlive m) (protoName m) v
    (willTopic m) (willMessage m) (username m) (password m).
Definition connect_set_willTopic (m : ConnectMessage) (v : list byte) : ConnectMessage :=
  mkConnect (connect_header m) (connectFlags m) (version m) (keepAlive m) (protoName m) (clientId m)
    v (willMessage m) (username m) (password m).
Definition connect_set_willMessage (m : ConnectMessage) (v : list byte) : ConnectMessage :=
  mkConnect (connect_header m) (connectFlags m) (version m) (keepAlive m) (protoName m) (clientId m)
    (willTopic m) v (username m) (password m).
Definition connect_set_username (m : ConnectMessage) (v : list byte) : ConnectMessage :=
  mkConnect (connect_header m) (connectFlags m) (version m) (keepAlive m) (protoName m) (clientId m)
    (willTopic m) (willMessage m) v (password m).
Definition connect_set_password (m : ConnectMessage) (v : list byte) : ConnectMessage :=
  mkConnect (connect_header m) (connectFlags m) (version m) (keepAlive m) (protoName m) (clientId m)
    (willTopic m) (willMessage m) (username m) v.

(** The accessors of the connect flags. *)
Definition CleanSession (m : ConnectMessage) : bool :=
  byte_eqb (band (bshr (connectFlags m) 1) x01) x01.
Definition WillFlag (m : ConnectMessage) : bool :=
  byte_eqb (band (bshr (connectFlags m) 2) x01) x01.
Definition WillQos (m : ConnectMessage) : byte :=
  band (bshr (connectFlags m) 3) x03.
Definition WillRetain (m : ConnectMessage) : bool :=
  byte_eqb (band (bshr (connectFlags m) 5) x01) x01.
Definition PasswordFlag (m : ConnectMessage) : bool :=
  byte_eqb (band (bshr (connectFlags m) 6) x01) x01.
Definition UsernameFlag (m : ConnectMessage) : bool :=
  byte_eqb (band (bshr (connectFlags m) 7) x01) x01.

(** The mutators of the connect message. *)
Definition SetVersion (m : ConnectMessage) (v : byte) : option error * ConnectMessage :=
  match SupportedVersions v with
  | None => (Some ErrConnectSetVersion, m)
  | Some _ => (None, connect_set_version m v)
  end.
Definition SetCleanSession (m : ConnectMessage) (v : bool) : ConnectMessage :=
  connect_set_flags m (if v then bor (connectFlags m) x02 else band (connectFlags m) xfd).
Definition SetWillFlag (m : ConnectMessage) (v : bool) : ConnectMessage :=
  connect_set_flags m (if v then bor (connectFlags m) x04 else band (connectFlags m) xfb).
Definition SetWillQos (m : ConnectMessage) (q : byte) : option error * ConnectMessage :=
  if negb (byte_eqb q QosAtMostOnce) && negb (byte_eqb q QosAtLeastOnce)
     && negb (byte_eqb q QosExactlyOnce)
  then (Some ErrConnectSetWillQos, m)
  else (None, connect_set_flags m (bor (band (connectFlags m) xe7) (bshl q 3))).
Definition SetWillRetain (m : ConnectMessage) (v : bool) : ConnectMessage :=
  connect_set_flags m (if v then bor (connectFlags m) x20 else band (connectFlags m) xdf).
Definition SetPasswordFlag (m : ConnectMessage) (v : bool) : ConnectMessage :=
  connect_set_flags m (if v then bor (connectFlags m) x40 else band (connectFlags m) xbf).
Definition SetUsernameFlag (m : ConnectMessage) (v : bool) : ConnectMessage :=
  connect_set_flags m (if v then bor (connectFlags m) x80 else band (connectFlags m) x7f).
Definition SetKeepAlive (m : ConnectMessage) (v : Z) : ConnectMessage :=
  connect_set_keepAlive m v.
Definition SetClientId (m : ConnectMessage) (v : list byte) : option error * ConnectMessage :=
  if (0 <? len v) && negb (ValidClientId v) then (Some ErrConnackIdentifierRejected, m)
  else (None, connect_set_clientId m v).
Definition SetWillTopic (m : ConnectMessage) (v : list byte) : ConnectMessage :=
  let m := connect_set_willTopic m v in
  if 0 <? len v then SetWillFlag m true
  else if len (willMessage m) =? 0 then SetWillFlag m false
  else m.
Definition SetWillMessage (m : ConnectMessage) (v : list byte) : ConnectMessage :=
  let m := connect_set_willMessage m v in
  if 0 <? len v then SetWillFlag m true
  else if len (willTopic m) =? 0 then SetWillFlag m false
  else m.
Definition SetUsername (m : ConnectMessage) (v : list byte) : ConnectMessage :=
  let m := connect_set_username m v in
  if 0 <? len v then SetUsernameFlag m true else SetUsernameFlag m false.
Definition SetPassword (m : ConnectMessage) (v : list byte) : ConnectMessage :=
  let m := connect_set_password m v in
  if 0 <? len v then SetPasswordFlag m true else SetPasswordFlag m false.

(** The last part of [ConnectMessage.decodeMessage], after the checks of the
    client identifier: the will topic and message, the user name, the password
    and the test that nothing is left in the buffer. *)
Definition ConnectMessage_decodeMessage_optional (total : Z) (this : ConnectMessage)
  : Z * option error * ConnectMessage :=
  let after_will (total : Z) (this : ConnectMessage) :=
    let after_username (total : Z) (this : ConnectMessage) :=
      let finish (total : Z) (this : ConnectMessage) :=
        if 0 <? len (buf (connect_header this))
        then (total, Some ErrConnectTrailing, this)
        else (total, None, this) in
      if PasswordFlag this && (0 <? len (buf (connect_header this))) then
        let '(s, n, err, b) := readLPBytes (buf (connect_header this)) in
        let this := connect_set_password (connect_set_buf this b) s in
        match err with
        | Some e => (total + n, Some e, this)
        | None => finish (total + n) this
        end
      else finish total this in
    if UsernameFlag this && (0 <? len (buf (connect_header this))) then
      let '(s, n, err, b) := readLPBytes (buf (connect_header this)) in
      let this := connect_set_username (connect_set_buf this b) s in
      match err with
      | Some e => (total + n, Some e, this)
      | None => after_username (total + n) this
      end
    else after_username total this in
  if WillFlag this then
    let '(s, n, err, b) := readLPBytes (buf (connect_header this)) in
    let this := connect_set_willTopic (connect_set_buf this b) s in
    match err with Some e => (total + n, Some e, this) | None =>
    let total := total + n in
    let '(s, n, err, b) := readLPBytes (buf (connect_header this)) in
    let this := connect_set_willMessage (connect_set_buf this b) s in
    match err with Some e => (total + n, Some e, this) | None =>
    after_will (total + n) this
    end end
  else after_will total this.

(** [ConnectMessage.decodeMessage]: count, error and the receiver after it. *)
Definition ConnectMessage_decodeMessage (this : ConnectMessage) : Z * option error * ConnectMessage :=
  let total := 0 in
  let '(s, n, err, b) := readLPBytes (buf (connect_header this)) in
  let this := connect_set_protoName (connect_set_buf this b) s in
  match err with Some e => (total + n, Some e, this) | None =>
  let total := total + n in
  match ReadByte (buf (connect_header this)) with
  | (None, b) => (total, Some EOF, connect_set_version (connect_set_buf this b) x00)
  | (Some v, b) =>
  let this := connect_set_version (connect_set_buf this b) v in
  let total := total + 1 in
  match SupportedVersions (version this) with
  | None => (total, Some ErrConnackUnacceptableProtocolVersion, this)
  | Some verstr =>
  if negb (bytes_eqb verstr (protoName this))
  then (total, Some ErrConnackUnacceptableProtocolVersion, this) else
  match ReadByte (buf (connect_header this)) with
  | (None, b) => (total, Some EOF, connect_set_flags (connect_set_buf this b) x00)
  | (Some f, b) =>
  let this := connect_set_flags (connect_set_buf this b) f in
  let total := total + 1 in
  if negb (byte_eqb (band (connectFlags this) x01) x00)
  then (total, Some ErrConnectReservedBit, this) else
  if b2z QosExactlyOnce <? b2z (WillQos this)
  then (total, Some ErrConnectWillQos, this) else
  if negb (WillFlag this) && (WillRetain this || negb (byte_eqb (WillQos this) QosAtMostOnce))
  then (total, Some ErrConnectWillFlag, this) else
  if UsernameFlag this && negb (PasswordFlag this)
  then (total, Some ErrConnectUsernameNoPassword, this) else
  let '(ka, err, b) := readUint16 (buf (connect_header this)) in
  let this := connect_set_keepAlive (connect_set_buf this b) ka in
  match err with Some e => (total, Some e, this) | None =>
  let total := total + 2 in
  let '(s, n, err, b) := readLPBytes (buf (connect_header this)) in
  let this := connect_set_clientId (connect_set_buf this b) s in
  match err with Some e => (total + n, Some e, this) | None =>
  let total := total + n in
  if (len (clientId this) =? 0) && negb (CleanSession this)
  then (total, Some ErrConnackIdentifierRejected, this) else
  if (0 <? len (clientId this)) && negb (ValidClientId (clientId this))
  then (total, Some ErrConnackIdentifierRejected, this) else
  ConnectMessage_decodeMessage_optional total this
  end end end end end end.

(** [ConnectMessage.Decode] *)
Definition ConnectMessage_Decode (this : ConnectMessage) (src : list byte) : decoded ConnectMessage :=
  let r := fixedHeader_Decode (connect_header this) src in
  let this := connect_set_header this (d_msg r) in
  match d_err r with
  | Some e => mkDecoded (0 + d_n r) (Some e) this (d_src r)
  | None =>
      let total := 0 + d_n r in
      let '(n, err, this) := ConnectMessage_decodeMessage this in
      match err with
      | Some e => mkDecoded (total + n) (Some e) this (d_src r)
      | None => mkDecoded (total + n) None this (d_src r)
      end
  end.

(** The last part of [ConnectMessage.encodeMessage], after the client
    identifier: the will topic and message, the user name and the password. *)
Definition ConnectMessage_encodeMessage_optional (total : Z) (this : ConnectMessage)
  : Z * option error * ConnectMessage :=
  let after_will (total : Z) (this : ConnectMessage) :=
    let after_username (total : Z) (this : ConnectMessage) :=
      if PasswordFlag this && (0 <? len (password this)) then
        let '(n, err, b) := writeLPBytes (buf (connect_header this)) (password this) in
        let this := connect_set_buf this b in
        match err with
        | Some e => (total + n, Some e, this)
        | None => (total + n, None, this)
        end
      else (total, None, this) in
    if UsernameFlag this && (0 <? len (username this)) then
      let '(n, err, b) := writeLPBytes (buf (connect_header this)) (username this) in
      let this := connect_set_buf this b in
      match err with
      | Some e => (total + n, Some e, this)
      | None => after_username (total + n) this
      end
    else after_username total this in
  if WillFlag this then
    let '(n, err, b) := writeLPBytes (buf (connect_header this)) (willTopic this) in
    let this := connect_set_buf this b in
    match err with Some e => (total + n, Some e, this) | None =>
    let total := total + n in
    let '(n, err, b) := writeLPBytes (buf (connect_header this)) (willMessage this) in
    let this := connect_set_buf this b in
    match err with Some e => (total + n, Some e, this) | None =>
    after_will (total + n) this
    end end
  else after_will total this.

(** [ConnectMessage.encodeMessage]: count, error and the receiver after it. *)
Definition ConnectMessage_encodeMessage (this : ConnectMessage) : Z * option error * ConnectMessage :=
  let total := 0 in
  match SupportedVersions (version this) with
  | None => (0, Some ErrConnectEncodeMessageVersion, this)
  | Some verstr =>
  let '(n, err, b) := writeLPBytes (buf (connect_header this)) verstr in
  let this := connect_set_buf this b in
  match err with Some e => (0, Some e, this) | None =>
  let total := total + n in
  let this := connect_set_buf this (buf (connect_header this) ++ [version this]) in
  let total := total + 1 in
  let this := connect_set_buf this (buf (connect_header this) ++ [connectFlags this]) in
  let total := total + 1 in
  let this := connect_set_buf this (writeUint16 (buf (connect_header this)) (keepAlive this)) in
  let total := total + 2 in
  let '(n, err, b) := writeLPBytes (buf (connect_header this)) (clientId this) in
  let this := connect_set_buf this b in
  match err with Some e => (total + n, Some e, this) | None =>
  let total := total + n in
  ConnectMessage_encodeMessage_optional total this
  end end end.

(** The remaining length computed by [ConnectMessage.Encode]. *)
Definition ConnectMessage_size (this : ConnectMessage) (verstr : list byte) : Z :=
  let total := 0 in
  let total := total + (2 + len verstr + 1 + 1 + 2) in
  let total := total + (2 + len (clientId this)) in
  let total := if WillFlag this
               then total + (2 + len (willTopic this) + 2 + len (willMessage this))
               else total in
  let total := if UsernameFlag this && (0 <? len (username this))
               then total + (2 + len (username this)) else total in
  let total := if PasswordFlag this && (0 <? len (password this))
               then total + (2 + len (password this)) else total in
  total.

(** [ConnectMessage.Encode] *)
Definition ConnectMessage_Encode (this : ConnectMessage) : encoded ConnectMessage :=
  if negb (mtype (connect_header this) =? CONNECT)
  then mkEncoded None 0 (Some ErrConnectEncodeType) this
  else
    match SupportedVersions (version this) with
    | None => mkEncoded None 0 (Some ErrConnectEncodeVersion) this
    | Some verstr =>
        let total := ConnectMessage_size this verstr in
        match SetRemainingLength (connect_header this) (to_int32 total) with
        | (Some e, _) => mkEncoded None 0 (Some e) this
        | (None, h) =>
            let this := connect_set_header this h in
            let total := 0 in
            let r := fixedHeader_Encode (connect_header this) in
            let this := connect_set_header this (e_msg r) in
            match e_err r with
            | Some e => mkEncoded None (total + e_n r) (Some e) this
            | None =>
                let total := total + e_n r in
                let '(n, err, this) := ConnectMessage_encodeMessage this in
                match err with
                | Some e => mkEncoded None (total + n) (Some e) this
                | None => mkEncoded (Some (buf (connect_header this))) (total + n) None this
                end
            end
        end
    end.


(** * Vocabulary of the statements *)

(** The continuation bit of a byte is its bit 7. *)
Definition continuation (b : byte) : bool := Z.testbit (b2z b) 7.

(** The boundary values of the varint and the sizes of their encodings. *)
Definition varint_boundaries : list (Z * Z) :=
  [(0, 1); (127, 1); (128, 2); (16383, 2); (16384, 3); (2097151, 3);
   (2097152, 4); (268435455, 4)].

(** [writeVarint32] encodes [v] in exactly [n] bytes, and [readVarint32]
    decodes this encoding, whatever follows it, back to [v]. *)
Definition varint_roundtrips_in (v n : Z) : Prop :=
  exists bs,
    writeVarint32 [] v = (n, None, bs) /\ len bs = n /\
    forall dst rest,
      readVarint32 dst (bs ++ rest)
      = mkVarintResult v n None
          (match dst with Some d => Some (d ++ bs) | None => None end) rest.

(** The encoding of the remaining length [x] by [writeVarint32]. *)
Definition varint_bytes (x : Z) : list byte := snd (writeVarint32 [] x).

(** A packet on the wire: the byte of type and flags as [fixedHeader.Encode]
    writes it, the remaining length of the body, and the body. *)
Definition first_byte (t : MessageType) (f : byte) : byte := bor (bshl (z2b t) 4) f.

Definition frame (t : MessageType) (f : byte) (body : list byte) : list byte :=
  first_byte t f :: varint_bytes (len body) ++ body.

(** The two nibbles of the first byte of a packet. *)
Definition type_nibble (b : byte) : MessageType := b2z (bshr b 4).
Definition flags_nibble (b : byte) : byte := band b x0f.

(** The QoS that [fixedHeader.copy] and [PublishMessage.QoS] read in the flags. *)
Definition flags_qos (f : byte) : byte := band (bshr f 1) x03.

(** What [fixedHeader.copy] checks on the first byte. *)
Definition first_byte_accepted (t : MessageType) (b : byte) : Prop :=
  Valid (type_nibble b) = true /\
  type_nibble b = t /\
  (t <> PUBLISH -> flags_nibble b = DefaultFlags t) /\
  (t = PUBLISH -> ValidQos (flags_qos (flags_nibble b)) = true).


(** The bytes [writeUint16] appends, and a length-prefixed string as
    [writeLPBytes] appends it. *)
Definition uint16_bytes (n : Z) : list byte := [z2b (Z.shiftr n 8); z2b n].

Definition lp (s : list byte) : list byte := uint16_bytes (to_uint16 (len s)) ++ s.

(** The fixed header that [fixedHeader.Encode] writes. *)
Definition header_bytes (h : fixedHeader) : list byte :=
  first_byte (mtype h) (flags h) :: varint_bytes (remlen h).

(** The remaining length that [PublishMessage.Encode] computes, the header it
    goes on with (the result of [SetRemainingLength] is dropped, so the header
    is unchanged when the length is out of range), and the body it writes. *)
Definition PublishMessage_size (m : PublishMessage) : Z :=
  let total := 2 + len (topic m) + len (payload m) in
  if negb (byte_eqb (PublishMessage_QoS m) x00) then total + 2 else total.

Definition publish_encode_header (m : PublishMessage) : fixedHeader :=
  snd (SetRemainingLength (publish_header m) (to_int32 (PublishMessage_size m))).

Definition publish_body (m : PublishMessage) : list byte :=
  lp (topic m)
  ++ (if byte_eqb (PublishMessage_QoS m) x00 then [] else uint16_bytes (publish_packetId m))
  ++ payload m.

(** The payload of a SUBSCRIBE packet: each topic, length-prefixed, followed
    by the byte of its requested QoS; and of an UNSUBSCRIBE packet. *)
Definition subscribe_pairs_bytes (ts : list (list byte)) (qs : list byte) : list byte :=
  concat (map (fun tq => lp (fst tq) ++ [snd tq]) (combine ts qs)).

Definition unsubscribe_topics_bytes (ts : list (list byte)) : list byte :=
  concat (map lp ts).

(** The header [SubscribeMessage.Encode] and [UnsubscribeMessage.Encode] go on
    with after the dropped [SetRemainingLength]. *)
Definition subscribe_encode_header (m : SubscribeMessage) : fixedHeader :=
  snd (SetRemainingLength (subscribe_header m) (to_int32 (SubscribeMessage_size m))).

Definition unsubscribe_encode_header (m : UnsubscribeMessage) : fixedHeader :=
  snd (SetRemainingLength (unsubscribe_header m) (to_int32 (UnsubscribeMessage_size m))).

(** Every topic can be written as a length-prefixed string. *)
Definition topics_fit (ts : list (list byte)) : bool :=
  forallb (fun t => len t <=? maxLPString) ts.





(** Bit [n] of the connect-flags byte, and the will QoS held in its bits 4-3,
    as the accessors of [ConnectMessage] read them. *)
Definition flag_bit (cf : byte) (n : Z) : bool := byte_eqb (band (bshr cf n) x01) x01.

Definition flags_will_qos (cf : byte) : byte := band (bshr cf 3) x03.

(** The checks of [ConnectMessage.decodeMessage] on the connect-flags byte that
    come before the check of the user name and password flags. *)
Definition connect_flags_wellformed (cf : byte) : bool :=
  byte_eqb (band cf x01) x00
  && negb (b2z QosExactlyOnce <? b2z (flags_will_qos cf))
  && negb (negb (flag_bit cf 2)
           && (flag_bit cf 5 || negb (byte_eqb (flags_will_qos cf) QosAtMostOnce))).

(** The protocol name is the one registered for the version. *)
Definition protocol_accepted (ver : byte) (name : list byte) : bool :=
  match SupportedVersions ver with
  | Some verstr => bytes_eqb verstr name
  | None => false
  end.

(** * Further operations of the package *)

(** [CopyMessage]: count, error, the writer and the reader after the call.  The
    first byte is copied without being looked at, [readVarint32] copies the
    bytes of the remaining length as it reads them. *)
Definition CopyMessage (dst src : list byte) : Z * option error * list byte * list byte :=
  let '(total, err, dst1, src1) := CopyN dst src 1 in
  match err with
  | Some e => (0, Some e, dst1, src1)
  | None =>
      let r := readVarint32 (Some dst1) src1 in
      let dst2 := match vr_dst r with Some d => d | None => dst1 end in
      match vr_err r with
      | Some e => (total, Some e, dst2, vr_src r)
      | None =>
          let total := total + vr_count r in
          let '(n, err, dst3, src2) := CopyN dst2 (vr_src r) (vr_value r) in
          match err with
          | Some e => (total, Some e, dst3, src2)
          | None => (total + n, None, dst3, src2)
          end
      end
  end.

(** The number of bytes of the remaining length [x] on the wire. *)
Definition varint_size (x : Z) : Z :=
  if x <? 128 then 1 else if x <? 16384 then 2 else if x <? 2097152 then 3 else 4.

(** The value that the bytes of a remaining length stand for: seven bits a
    byte, the low ones first. *)
Fixpoint varint_value (bs : list byte) : Z :=
  match bs with
  | [] => 0
  | b :: bs' => b2z (band b x7f) + 128 * varint_value bs'
  end.

(** ** The topic lists of SUBSCRIBE and UNSUBSCRIBE *)

(** [SubscribeMessage.TopicExists] *)
Definition SubscribeMessage_TopicExists (this : SubscribeMessage) (topic : list byte) : bool :=
  existsb (fun t => bytes_eqb t topic) (subscribe_topics this).

(** [SubscribeMessage.TopicQos]: the QoS at the index of the first topic equal
    to [topic], [QosFailure] when there is none; [None] stands for the
    run-time panic of [this.qos[i]] with [i] out of range. *)
Definition SubscribeMessage_TopicQos (this : SubscribeMessage) (topic : list byte) : option byte :=
  match find_topic (subscribe_topics this) topic 0 with
  | Some i => nth_error (qos this) i
  | None => Some QosFailure
  end.

(** [append(s[:i], s[i+1:]...)] *)
Definition remove_nth {A} (l : list A) (i : nat) : list A := firstn i l ++ skipn (S i) l.

(** [SubscribeMessage.RemoveTopic]; [None] stands for the run-time panic of
    [this.qos[i+1:]] when the list of QoS is shorter than [i+1]. *)
Definition SubscribeMessage_RemoveTopic (this : SubscribeMessage) (topic : list byte)
  : option SubscribeMessage :=
  match find_topic (subscribe_topics this) topic 0 with
  | Some i =>
      if (S i <=? length (qos this))%nat
      then Some (mkSubscribe (subscribe_header this) (subscribe_packetId this)
                   (remove_nth (subscribe_topics this) i) (remove_nth (qos this) i))
      else None
  | None => Some this
  end.

(** [UnsubscribeMessage.RemoveTopic] *)
Definition UnsubscribeMessage_RemoveTopic (this : UnsubscribeMessage) (topic : list byte)
  : UnsubscribeMessage :=
  match find_topic (unsubscribe_topics this) topic 0 with
  | Some i =>
      mkUnsubscribe (unsubscribe_header this) (unsubscribe_packetId this)
        (remove_nth (unsubscribe_topics this) i)
  | None => this
  end.

(** ** The wire format of CONNECT *)

(** The body that [ConnectMessage.encodeMessage] writes for a message whose
    version is registered with the protocol name [verstr]: the will topic and
    message are written when the will flag is set, the user name and the
    password when their flag is set and they are not empty. *)
Definition connect_body (m : ConnectMessage) (verstr : list byte) : list byte :=
  lp verstr ++ [version m; connectFlags m] ++ uint16_bytes (keepAlive m) ++ lp (clientId m)
  ++ (if WillFlag m then lp (willTopic m) ++ lp (willMessage m) else [])
  ++ (if UsernameFlag m && (0 <? len (username m)) then lp (username m) else [])
  ++ (if PasswordFlag m && (0 <? len (password m)) then lp (password m) else []).

(** Every byte string of the message can be written with a two-byte length. *)
Definition connect_strings_fit (m : ConnectMessage) : Prop :=
  len (clientId m) <= maxLPString /\
  len (willTopic m) <= maxLPString /\ len (willMessage m) <= maxLPString /\
  len (username m) <= maxLPString /\ len (password m) <= maxLPString.

(** What the accessors of the connect flags return, and the reserved bit. *)
Definition connect_flags_view (m : ConnectMessage) : bool * bool * byte * bool * bool * bool * byte :=
  (CleanSession m, WillFlag m, WillQos m, WillRetain m, PasswordFlag m, UsernameFlag m,
   band (connectFlags m) x01).
(** * Properties *)

(** ** Bytes and integers *)

Lemma b2z_range (b : byte) : 0 <= b2z b < 256.
Proof.
  unfold b2z. pose proof (Byte.to_N_bounded b). lia.
Qed.

Lemma b2z_z2b (z : Z) : b2z (z2b z) = z mod 256.
Proof.
  unfold b2z, z2b.
  assert (Hr : 0 <= z mod 256 < 256) by (apply Z.mod_pos_bound; lia).
  destruct (Byte.of_N (Z.to_N (z mod 256))) as [b|] eqn:E.
  - apply Byte.to_of_N in E. rewrite E. lia.
  - apply Byte.of_N_None_iff in E. lia.
Qed.

Lemma z2b_b2z (b : byte) : z2b (b2z b) = b.
Proof.
  unfold z2b, b2z.
  pose proof (Byte.to_N_bounded b) as Hb.
  rewrite Z.mod_small by lia.
  rewrite N2Z.id, Byte.of_to_N. reflexivity.
Qed.

Lemma b2z_inj (a b : byte) : b2z a = b2z b -> a = b.
Proof.
  intros H. rewrite <- (z2b_b2z a), <- (z2b_b2z b), H. reflexivity.
Qed.

Lemma z2b_small (z : Z) : 0 <= z < 256 -> b2z (z2b z) = z.
Proof.
  intros H. rewrite b2z_z2b. apply Z.mod_small. exact H.
Qed.

Lemma byte_eqb_eq (a b : byte) : byte_eqb a b = true <-> a = b.
Proof.
  unfold byte_eqb. split; [apply Byte.byte_dec_bl | apply Byte.byte_dec_lb].
Qed.

Lemma byte_eqb_refl (a : byte) : byte_eqb a a = true.
Proof. apply byte_eqb_eq. reflexivity. Qed.

Lemma bytes_eqb_eq (a b : list byte) : bytes_eqb a b = true <-> a = b.
Proof.
  unfold bytes_eqb. destruct (list_eq_dec Byte.byte_eq_dec a b); split; congruence.
Qed.

Lemma bytes_eqb_refl (a : list byte) : bytes_eqb a a = true.
Proof. apply bytes_eqb_eq. reflexivity. Qed.

Lemma len_nonneg {A} (l : list A) : 0 <= len l.
Proof. unfold len. lia. Qed.

Lemma len_app {A} (l1 l2 : list A) : len (l1 ++ l2) = len l1 + len l2.
Proof. unfold len. rewrite length_app. lia. Qed.

Lemma len_cons {A} (x : A) (l : list A) : len (x :: l) = 1 + len l.
Proof. unfold len. simpl length. lia. Qed.

Lemma len_nil {A} : len (@nil A) = 0.
Proof. reflexivity. Qed.

Lemma len_zero_nil {A} (l : list A) : len l = 0 -> l = [].
Proof. destruct l; [reflexivity | rewrite len_cons; pose proof (len_nonneg l); lia]. Qed.

Lemma firstn_len_app {A} (l1 l2 : list A) : firstn (Z.to_nat (len l1)) (l1 ++ l2) = l1.
Proof.
  unfold len. rewrite Nat2Z.id.
  rewrite firstn_app, Nat.sub_diag, firstn_all. simpl. apply app_nil_r.
Qed.

Lemma skipn_len_app {A} (l1 l2 : list A) : skipn (Z.to_nat (len l1)) (l1 ++ l2) = l2.
Proof.
  unfold len. rewrite Nat2Z.id.
  rewrite skipn_app, Nat.sub_diag, skipn_all. reflexivity.
Qed.

Lemma firstn_len {A} (l : list A) : firstn (Z.to_nat (len l)) l = l.
Proof. unfold len. rewrite Nat2Z.id. apply firstn_all. Qed.

Lemma skipn_len {A} (l : list A) : skipn (Z.to_nat (len l)) l = [].
Proof. unfold len. rewrite Nat2Z.id. apply skipn_all. Qed.

(** ** The remaining-length varint *)

Lemma lor_shiftl_add (a c s : Z) :
  0 <= s -> 0 <= a < 2 ^ s -> Z.lor a (Z.shiftl c s) = a + c * 2 ^ s.
Proof.
  intros Hs Ha.
  assert (Hland : Z.land a (Z.shiftl c s) = 0).
  { apply Z.bits_inj'. intros n Hn.
    rewrite Z.land_spec, Z.bits_0.
    destruct (Z.lt_ge_cases n s) as [Hlt | Hge].
    - rewrite Z.shiftl_spec_low by assumption. apply andb_false_r.
    - assert (Z.testbit a n = false) as ->; [| reflexivity].
      destruct (Z.eq_dec a 0) as [-> | Hne]; [apply Z.bits_0 |].
      apply Z.bits_above_log2; [lia |].
      apply Z.log2_lt_pow2; [lia |].
      apply Z.lt_le_trans with (2 ^ s); [lia |].
      apply Z.pow_le_mono_r; lia. }
  pose proof (Z.add_lor_land a (Z.shiftl c s)) as H.
  rewrite Hland, Z.shiftl_mul_pow2 in H by assumption.
  rewrite Z.shiftl_mul_pow2 by assumption. lia.
Qed.

Lemma continuation_leb (b : byte) : continuation b = (128 <=? b2z b).
Proof. destruct b; reflexivity. Qed.

Lemma continuation_ge (b : byte) : continuation b = true <-> 128 <= b2z b.
Proof. rewrite continuation_leb. apply Z.leb_le. Qed.

Lemma continuation_lt (b : byte) : continuation b = false <-> b2z b < 128.
Proof. rewrite continuation_leb. apply Z.leb_gt. Qed.

Lemma band_x80_zero (b : byte) : b2z b < 128 -> b2z (band b x80) = 0.
Proof.
  intros H. apply Z.ltb_lt in H. revert H. destruct b; vm_compute; intros H;
    try reflexivity; discriminate H.
Qed.

Lemma band_x80_pos (b : byte) : 128 <= b2z b -> b2z (band b x80) = 128.
Proof.
  intros H. apply Z.leb_le in H. revert H. destruct b; vm_compute; intros H;
    try reflexivity; discriminate H.
Qed.

Lemma bor_x80_ge (c : byte) : 128 <= b2z (bor c x80).
Proof. apply Z.leb_le. destruct c; reflexivity. Qed.

Lemma band_x7f_mod (c : byte) : b2z (band c x7f) = b2z c mod 128.
Proof. destruct c; reflexivity. Qed.

Lemma band_bor_x80_x7f (c : byte) : b2z (band (bor c x80) x7f) = b2z c mod 128.
Proof. destruct c; reflexivity. Qed.

Lemma pow128_succ (k : nat) : 128 ^ Z.of_nat (S k) = 128 * 128 ^ Z.of_nat k.
Proof. rewrite Nat2Z.inj_succ, Z.pow_succ_r by lia. reflexivity. Qed.

(** The write loop emits, for a value below [128 ^ k], at most [k] bytes whose
    last one has no continuation bit, and the read loop started on them ends
    by its [break] with the value written. *)
Lemma varint_loops (k : nat) :
  forall x out, 0 <= x < 128 ^ Z.of_nat (S k) ->
  exists bs b,
    writeVarint32_loop (S k) x out = Some (out ++ bs ++ [b]) /\
    len (bs ++ [b]) <= Z.of_nat (S k) /\
    b2z b < 128 /\
    forall i s acc got rest,
      0 <= s -> 0 <= acc < 2 ^ s ->
      readVarint32_loop (S k) i s acc got ((bs ++ [b]) ++ rest)
      = LoopEnd (acc + x * 2 ^ s) (i + len bs) (got ++ bs ++ [b]) rest.
Proof.
  assert (Hsmall : forall k x out, 0 <= x < 128 ->
    exists bs b,
      writeVarint32_loop (S k) x out = Some (out ++ bs ++ [b]) /\
      len (bs ++ [b]) <= Z.of_nat (S k) /\
      b2z b < 128 /\
      forall i s acc got rest,
        0 <= s -> 0 <= acc < 2 ^ s ->
        readVarint32_loop (S k) i s acc got ((bs ++ [b]) ++ rest)
        = LoopEnd (acc + x * 2 ^ s) (i + len bs) (got ++ bs ++ [b]) rest).
  { intros k0 x out Hlt. exists [], (z2b x). simpl app.
    assert (Hb : b2z (z2b x) = x) by (apply z2b_small; lia).
    repeat split.
    - simpl. destruct (Z.leb_spec 128 x); [lia | reflexivity].
    - rewrite len_cons, len_nil. lia.
    - lia.
    - intros i s acc got rest Hs Hacc. simpl.
      rewrite Hb. destruct (Z.ltb_spec x 128); [| lia].
      rewrite lor_shiftl_add by assumption.
      rewrite len_nil. f_equal. lia. }
  induction k as [| k IH]; intros x out Hx.
  - apply Hsmall. change (128 ^ Z.of_nat 1) with 128 in Hx. exact Hx.
  - rewrite pow128_succ in Hx.
    destruct (Z.lt_ge_cases x 128) as [Hlt | Hge]; [apply Hsmall; lia |].
    destruct (IH (Z.shiftr x 7) (out ++ [bor (z2b x) x80])) as (bs & b & Hw & Hlen & Hb & Hr).
    { rewrite Z.shiftr_div_pow2 by lia. change (2 ^ 7) with 128.
      split; [apply Z.div_pos; lia |].
      apply Z.div_lt_upper_bound; lia. }
    exists (bor (z2b x) x80 :: bs), b.
    repeat split.
    + cbn [writeVarint32_loop]. destruct (Z.leb_spec 128 x); [| lia].
      cbn [writeVarint32_loop] in Hw. rewrite Hw. rewrite <- app_assoc. reflexivity.
    + change ((bor (z2b x) x80 :: bs) ++ [b]) with (bor (z2b x) x80 :: (bs ++ [b])).
      rewrite len_cons. lia.
    + exact Hb.
    + intros i s acc got rest Hs Hacc.
      change (((bor (z2b x) x80 :: bs) ++ [b]) ++ rest)
        with (bor (z2b x) x80 :: ((bs ++ [b]) ++ rest)).
      cbn [readVarint32_loop].
      pose proof (bor_x80_ge (z2b x)) as Hge'.
      destruct (Z.ltb_spec (b2z (bor (z2b x) x80)) 128); [lia |].
      rewrite band_bor_x80_x7f, b2z_z2b.
      rewrite lor_shiftl_add by assumption.
      assert (Hpow : 2 ^ (s + 7) = 2 ^ s * 128)
        by (rewrite Z.pow_add_r by lia; reflexivity).
      cbn [readVarint32_loop] in Hr. rewrite Hr.
      2: lia.
      2: { rewrite Hpow.
           assert (0 <= (x mod 256) mod 128 < 128) by (apply Z.mod_pos_bound; lia).
           nia. }
      rewrite Hpow, Z.shiftr_div_pow2 by lia. change (2 ^ 7) with 128.
      rewrite len_cons.
      rewrite (Z.mod_mod_divide x 256 128) by (exists 2; reflexivity).
      pose proof (Z.div_mod x 128 ltac:(lia)) as Hdm.
      f_equal; [nia | lia |].
      rewrite <- app_assoc. reflexivity.
Qed.

(** [writeVarint32] followed by [readVarint32], for every legal remaining length. *)
Lemma varint_roundtrip (x : Z) :
  0 <= x <= maxRemainingLength ->
  exists bs,
    1 <= len bs <= 4 /\
    (forall dst, writeVarint32 dst x = (len bs, None, dst ++ bs)) /\
    (forall dst rest,
        readVarint32 dst (bs ++ rest)
        = mkVarintResult x (len bs) None
            (match dst with Some d => Some (d ++ bs) | None => None end) rest).
Proof.
  intros Hx. unfold maxRemainingLength in Hx.
  destruct (varint_loops 3 x []) as (bs & b & Hw & Hlen & Hb & Hr).
  { change (128 ^ Z.of_nat 4) with 268435456. lia. }
  exists (bs ++ [b]).
  assert (Hl : 1 <= len (bs ++ [b]) <= 4).
  { rewrite len_app, len_cons, len_nil in *. pose proof (len_nonneg bs). lia. }
  split; [exact Hl |]. split.
  - intros dst. unfold writeVarint32, maxRemainingLength.
    destruct (Z.ltb_spec 268435455 x); [lia |].
    rewrite Hw. reflexivity.
  - intros dst rest. unfold readVarint32.
    rewrite (Hr 0 0 0 [] rest) by (simpl; lia).
    simpl app. rewrite len_app, len_cons, len_nil in Hl.
    assert (Hchk : (3 <? 0 + len bs) || ((0 + len bs =? 3) && (0 <? b2z (band (nth 3 (bs ++ [b]) x00) x80))) = false).
    { rewrite Z.add_0_l.
      destruct (Z.ltb_spec 3 (len bs)); [lia |]. cbn [orb].
      destruct (Z.eqb_spec (len bs) 3) as [E | E]; [| reflexivity]. cbn [andb].
      assert (length bs = 3%nat) by (unfold len in E; lia).
      rewrite app_nth2 by lia.
      replace (3 - length bs)%nat with 0%nat by lia. cbn [nth].
      rewrite band_x80_zero by assumption. reflexivity. }
    rewrite Hchk.
    replace (0 + len bs + 1) with (len (bs ++ [b])) by (rewrite len_app, len_cons, len_nil; lia).
    replace (0 + x * 2 ^ 0) with x by (simpl; lia).
    pose proof (firstn_len_app (bs ++ [b]) []) as Hf. rewrite app_nil_r in Hf.
    rewrite len_app, len_cons, len_nil in Hf.
    replace (len bs + (1 + 0)) with (len bs + 1) in Hf by lia.
    rewrite Hf. reflexivity.
Qed.

(** [readVarint32] never yields a value outside the legal range. *)
Lemma readVarint32_loop_bound (k : nat) :
  forall i s x got src x' i' got' src',
    0 <= s -> 0 <= x < 2 ^ s ->
    readVarint32_loop k i s x got src = LoopEnd x' i' got' src' ->
    0 <= x' < 2 ^ (s + 7 * Z.of_nat k).
Proof.
  induction k as [| k IH]; intros i s x got src x' i' got' src' Hs Hx H.
  - simpl in H. inversion H; subst. replace (s + 7 * Z.of_nat 0) with s by lia. exact Hx.
  - cbn [readVarint32_loop] in H. destruct src as [| b src0]; [discriminate |].
    assert (Hp : 2 ^ (s + 7) = 2 ^ s * 128) by (rewrite Z.pow_add_r by lia; reflexivity).
    assert (Hs0 : 0 < 2 ^ s) by (apply Z.pow_pos_nonneg; lia).
    assert (Hmono : 2 ^ (s + 7) <= 2 ^ (s + 7 * Z.of_nat (S k)))
      by (apply Z.pow_le_mono_r; lia).
    pose proof (b2z_range b) as Hb.
    destruct (Z.ltb_spec (b2z b) 128).
    + inversion H; subst. rewrite lor_shiftl_add by assumption. nia.
    + apply IH in H.
      * replace (s + 7 + 7 * Z.of_nat k) with (s + 7 * Z.of_nat (S k)) in H by lia. exact H.
      * lia.
      * rewrite lor_shiftl_add by assumption. rewrite band_x7f_mod.
        assert (0 <= b2z b mod 128 < 128) by (apply Z.mod_pos_bound; lia). nia.
Qed.

(** ** Claim C4: boundary values of the varint *)

Lemma varint_boundary_roundtrip (v n : Z) :
  In (v, n) varint_boundaries -> varint_roundtrips_in v n.
Proof.
  intros Hin.
  assert (Hv : 0 <= v <= maxRemainingLength).
  { unfold maxRemainingLength. simpl in Hin.
    repeat (destruct Hin as [Hin | Hin]; [inversion Hin; subst; lia |]). contradiction. }
  destruct (varint_roundtrip v Hv) as (bs & Hlen & Hw & Hr).
  assert (Hn : len bs = n).
  { pose proof (Hw []) as Hw0. simpl in Hin.
    repeat (destruct Hin as [Hin | Hin];
            [inversion Hin; subst; vm_compute in Hw0; inversion Hw0; reflexivity |]).
    contradiction. }
  exists bs. split; [| split].
  - rewrite Hw, Hn. reflexivity.
  - exact Hn.
  - intros dst rest. rewrite Hr, Hn. reflexivity.
Qed.

Lemma readVarint32_four_continuations (b0 b1 b2 b3 : byte) (rest : list byte)
  (dst : option (list byte)) :
  continuation b0 = true -> continuation b1 = true ->
  continuation b2 = true -> continuation b3 = true ->
  vr_err (readVarint32 dst (b0 :: b1 :: b2 :: b3 :: rest)) = Some ErrMalformedRemlen /\
  vr_count (readVarint32 dst (b0 :: b1 :: b2 :: b3 :: rest)) = 5 /\
  vr_dst (readVarint32 dst (b0 :: b1 :: b2 :: b3 :: rest)) = dst.
Proof.
  intros H0 H1 H2 H3.
  apply continuation_ge in H0, H1, H2, H3.
  unfold readVarint32. cbn [readVarint32_loop].
  destruct (Z.ltb_spec (b2z b0) 128); [lia |].
  destruct (Z.ltb_spec (b2z b1) 128); [lia |].
  destruct (Z.ltb_spec (b2z b2) 128); [lia |].
  destruct (Z.ltb_spec (b2z b3) 128); [lia |].
  cbn. repeat split.
Qed.

(** C4: [writeVarint32] maps the values 0, 127, 128, 16383, 16384, 2097151,
    2097152 and 268435455 to encodings of exactly 1, 1, 2, 2, 3, 3, 4 and 4
    bytes, each of which [readVarint32] decodes back to the same value;
    [writeVarint32] fails on 268435456; and [readVarint32] fails, with the
    malformed-remaining-length error and without writing to its destination,
    on every byte sequence in which the 4th byte of the encoding has its
    continuation bit set.  The encoding runs to the first byte without this
    bit, so its 4th byte is the 4th byte of the sequence exactly when the
    three bytes before it have the bit too. *)
Theorem varint_boundary :
  Forall (fun vn => varint_roundtrips_in (fst vn) (snd vn)) varint_boundaries /\
  (forall dst, writeVarint32 dst 268435456 = (0, Some ErrExceededMaximum, dst)) /\
  (forall (b0 b1 b2 b3 : byte) (rest : list byte) (dst : option (list byte)),
      continuation b0 = true -> continuation b1 = true -> continuation b2 = true ->
      continuation b3 = true ->
      vr_err (readVarint32 dst (b0 :: b1 :: b2 :: b3 :: rest)) = Some ErrMalformedRemlen /\
      vr_dst (readVarint32 dst (b0 :: b1 :: b2 :: b3 :: rest)) = dst).
Proof.
  split; [| split].
  - apply Forall_forall. intros [v n] Hin. apply varint_boundary_roundtrip. exact Hin.
  - intros dst. reflexivity.
  - intros b0 b1 b2 b3 rest dst H0 H1 H2 H3.
    destruct (readVarint32_four_continuations b0 b1 b2 b3 rest dst H0 H1 H2 H3) as (He & _ & Hd).
    split; assumption.
Qed.

Lemma varint_boundary_witness :
  vr_err (readVarint32 (Some [x62]) [xff; xff; xff; xff; x01]) = Some ErrMalformedRemlen /\
  vr_dst (readVarint32 (Some [x62]) [xff; xff; xff; xff; x01]) = Some [x62].
Proof.
  exact (proj2 (proj2 varint_boundary) xff xff xff xff [x01] (Some [x62])
           eq_refl eq_refl eq_refl eq_refl).
Defined.

(** ** The fixed header *)

Ltac hdr_simpl :=
  unfold set_buf, set_flags, set_remlen, set_mtype; cbn [buf remlen mtype flags].

Lemma varint_bytes_spec (x : Z) :
  0 <= x <= maxRemainingLength ->
  1 <= len (varint_bytes x) <= 4 /\
  (forall dst, writeVarint32 dst x = (len (varint_bytes x), None, dst ++ varint_bytes x)) /\
  (forall dst rest,
      readVarint32 dst (varint_bytes x ++ rest)
      = mkVarintResult x (len (varint_bytes x)) None
          (match dst with Some d => Some (d ++ varint_bytes x) | None => None end) rest).
Proof.
  intros Hx. destruct (varint_roundtrip x Hx) as (bs & Hlen & Hw & Hr).
  assert (E : varint_bytes x = bs) by (unfold varint_bytes; rewrite Hw; reflexivity).
  rewrite E. auto.
Qed.

Lemma CopyN_all (dst body rest : list byte) :
  CopyN dst (body ++ rest) (len body) = (len body, None, dst ++ body, rest).
Proof.
  unfold CopyN. rewrite firstn_len_app, skipn_len_app.
  rewrite Z.ltb_irrefl. reflexivity.
Qed.

Lemma nibbles_of_first_byte (t : Z) (f : byte) :
  0 <= t < 16 -> b2z f < 16 ->
  type_nibble (first_byte t f) = t /\ flags_nibble (first_byte t f) = f.
Proof.
  intros Ht Hf. pose proof (b2z_range f) as Hf0.
  unfold type_nibble, flags_nibble, first_byte, bor, bshl, bshr, band.
  assert (E1 : b2z (z2b (Z.shiftl (b2z (z2b t)) 4)) = Z.shiftl t 4).
  { rewrite (z2b_small t) by lia. rewrite z2b_small; [reflexivity |].
    rewrite Z.shiftl_mul_pow2 by lia. change (2 ^ 4) with 16. lia. }
  rewrite E1, Z.lor_comm, lor_shiftl_add by (change (2 ^ 4) with 16; lia).
  change (2 ^ 4) with 16.
  assert (E2 : b2z (z2b (b2z f + t * 16)) = b2z f + t * 16) by (apply z2b_small; lia).
  rewrite E2. split.
  - rewrite Z.shiftr_div_pow2 by lia. change (2 ^ 4) with 16.
    rewrite Z.div_add by lia. rewrite Z.div_small by lia.
    apply z2b_small. lia.
  - change (b2z x0f) with (Z.ones 4). rewrite Z.land_ones by lia.
    change (2 ^ 4) with 16. rewrite Z.mod_add by lia.
    rewrite Z.mod_small by lia. apply z2b_b2z.
Qed.

(** [fixedHeader.Decode] on a source that is not empty: the checks of
    [fixedHeader.copy] on the first byte in the order of the source, then the
    remaining length and the body. *)
Lemma fixedHeader_Decode_cons (hb : list byte) (hr : Z) (hm : MessageType) (hf : byte)
  (b : byte) (src : list byte) :
  fixedHeader_Decode (mkFixedHeader hb hr hm hf) (b :: src)
  = if negb (Valid (type_nibble b))
    then mkDecoded 1 (Some ErrInvalidMessageType) (mkFixedHeader [] hr hm hf) src
    else if negb (type_nibble b =? hm)
    then mkDecoded 1 (Some ErrUnexpectedMessageType) (mkFixedHeader [] hr hm hf) src
    else if negb (hm =? PUBLISH) && negb (byte_eqb (flags_nibble b) (DefaultFlags hm))
    then mkDecoded 1 (Some ErrInvalidFlags) (mkFixedHeader [] hr hm (flags_nibble b)) src
    else if (hm =? PUBLISH) && negb (ValidQos (flags_qos (flags_nibble b)))
    then mkDecoded 1 (Some ErrInvalidPublishQos) (mkFixedHeader [] hr hm (flags_nibble b)) src
    else
      let r := readVarint32 (Some []) src in
      let d := match vr_dst r with Some d => d | None => [] end in
      match vr_err r with
      | Some e =>
          mkDecoded (1 + vr_count r) (Some e)
            (mkFixedHeader d (vr_value r) hm (flags_nibble b)) (vr_src r)
      | None =>
          let got := firstn (Z.to_nat (vr_value r)) (vr_src r) in
          let h3 := mkFixedHeader (skipn (Z.to_nat (vr_count r)) d ++ got) (vr_value r) hm
                      (flags_nibble b) in
          let src3 := skipn (Z.to_nat (vr_value r)) (vr_src r) in
          if len got <? vr_value r
          then mkDecoded (1 + vr_count r + len got) (Some EOF) h3 src3
          else if negb (vr_value r =? len (buf h3))
          then mkDecoded (1 + vr_count r) (Some ErrHeaderDecodeSize) h3 src3
          else mkDecoded (1 + vr_count r) None h3 src3
      end.
Proof.
  unfold fixedHeader_Decode, fixedHeader_copy, resetBuf.
  replace (CopyN (buf (set_buf (mkFixedHeader hb hr hm hf) [])) (b :: src) 1)
    with (1, @None error, [b], src) by reflexivity.
  cbv beta iota zeta delta [set_buf set_flags set_remlen set_mtype buf remlen mtype flags
                            ReadByte d_err d_n d_msg d_src].
  fold (type_nibble b). fold (flags_nibble b). fold (flags_qos (flags_nibble b)).
  destruct (negb (Valid (type_nibble b))); [reflexivity |].
  destruct (negb (type_nibble b =? hm)); [reflexivity |].
  destruct (negb (hm =? PUBLISH) && negb (byte_eqb (flags_nibble b) (DefaultFlags hm)));
    [reflexivity |].
  destruct ((hm =? PUBLISH) && negb (ValidQos (flags_qos (flags_nibble b))));
    [reflexivity |].
  destruct (readVarint32 (Some []) src) as [v c [e |] [d |] s3];
    cbv beta iota zeta delta [vr_value vr_count vr_err vr_dst vr_src Next snd CopyN
                              set_buf set_flags set_remlen set_mtype buf remlen mtype flags
                              d_err d_n d_msg d_src];
    try reflexivity.
  - destruct (len (firstn (Z.to_nat v) s3) <? v); [reflexivity |].
    destruct (negb (v =? len (skipn (Z.to_nat c) d ++ firstn (Z.to_nat v) s3))); reflexivity.
  - change (skipn (Z.to_nat c) []) with (skipn (Z.to_nat c) (@nil byte)).
    rewrite skipn_nil.
    destruct (len (firstn (Z.to_nat v) s3) <? v); [reflexivity |].
    destruct (negb (v =? len ([] ++ firstn (Z.to_nat v) s3))); reflexivity.
Qed.

Lemma fixedHeader_destruct (h : fixedHeader) :
  h = mkFixedHeader (buf h) (remlen h) (mtype h) (flags h).
Proof. destruct h. reflexivity. Qed.

(** Decoding the fixed header of a complete packet: the body is left in the
    buffer and the bytes after the packet are left in the source. *)
Lemma fixedHeader_Decode_packet (h : fixedHeader) (b : byte) (body rest : list byte) :
  first_byte_accepted (mtype h) b ->
  len body <= maxRemainingLength ->
  fixedHeader_Decode h (b :: varint_bytes (len body) ++ body ++ rest)
  = mkDecoded (1 + len (varint_bytes (len body))) None
      (mkFixedHeader body (len body) (mtype h) (flags_nibble b)) rest.
Proof.
  intros (Hv & Ht & Hf & Hq) Hlen.
  destruct (varint_bytes_spec (len body)) as (Hvl & _ & Hr);
    [pose proof (len_nonneg body); lia |].
  rewrite (fixedHeader_destruct h) at 1. rewrite fixedHeader_Decode_cons.
  rewrite Hv, Ht, Z.eqb_refl. cbn [negb].
  assert (Hchk1 : negb (mtype h =? PUBLISH)
                  && negb (byte_eqb (flags_nibble b) (DefaultFlags (mtype h))) = false).
  { destruct (Z.eqb_spec (mtype h) PUBLISH) as [E | E]; [reflexivity |].
    rewrite (Hf E), byte_eqb_refl. reflexivity. }
  assert (Hchk2 : (mtype h =? PUBLISH) && negb (ValidQos (flags_qos (flags_nibble b))) = false).
  { destruct (Z.eqb_spec (mtype h) PUBLISH) as [E | E]; [| reflexivity].
    rewrite (Hq E). reflexivity. }
  rewrite Hchk1, Hchk2, Hr.
  cbv beta iota zeta delta [vr_value vr_count vr_err vr_dst vr_src buf].
  cbn [app]. rewrite skipn_len, firstn_len_app, skipn_len_app, Z.ltb_irrefl.
  cbn [app]. rewrite Z.eqb_refl. reflexivity.
Qed.

Lemma fixedHeader_Decode_frame (h : fixedHeader) (t : MessageType) (f : byte)
  (body rest : list byte) :
  mtype h = t ->
  Valid t = true ->
  b2z f < 16 ->
  (t <> PUBLISH -> f = DefaultFlags t) ->
  (t = PUBLISH -> ValidQos (flags_qos f) = true) ->
  len body <= maxRemainingLength ->
  fixedHeader_Decode h (frame t f body ++ rest)
  = mkDecoded (1 + len (varint_bytes (len body))) None
      (mkFixedHeader body (len body) t f) rest.
Proof.
  intros <- Hv Hf Hd Hq Hlen.
  assert (Ht : 0 <= mtype h < 16).
  { unfold Valid, RESERVED, RESERVED2 in Hv. apply andb_prop in Hv. destruct Hv as [H1 H2].
    apply Z.ltb_lt in H1, H2. lia. }
  destruct (nibbles_of_first_byte (mtype h) f Ht Hf) as [Hn1 Hn2].
  unfold frame. cbn [app]. rewrite <- app_assoc.
  rewrite fixedHeader_Decode_packet; [rewrite Hn2; reflexivity | | exact Hlen].
  unfold first_byte_accepted. rewrite Hn1, Hn2. auto.
Qed.

Lemma DefaultFlags_spec (t : MessageType) :
  DefaultFlags t = if (t =? PUBREL) || (t =? SUBSCRIBE) || (t =? UNSUBSCRIBE) then x02 else x00.
Proof.
  unfold DefaultFlags, PUBREL, SUBSCRIBE, UNSUBSCRIBE.
  destruct (Z.eqb_spec t 6) as [-> | H6]; [reflexivity |].
  destruct (Z.eqb_spec t 8) as [-> | H8]; [reflexivity |].
  destruct (Z.eqb_spec t 10) as [-> | H10]; [reflexivity |].
  cbn [orb].
  destruct t as [| p | p]; try reflexivity.
  do 4 (destruct p as [p | p |]; try reflexivity; try congruence).
Qed.

Lemma DefaultFlags_small (t : MessageType) : b2z (DefaultFlags t) < 16.
Proof.
  rewrite DefaultFlags_spec.
  destruct ((t =? PUBREL) || (t =? SUBSCRIBE) || (t =? UNSUBSCRIBE)); reflexivity.
Qed.

(** The checks of [fixedHeader.copy] on the first byte, one lemma for each way
    of failing. *)
Lemma fixedHeader_Decode_invalid_type (h : fixedHeader) (b : byte) (src : list byte) :
  Valid (type_nibble b) = false ->
  d_err (fixedHeader_Decode h (b :: src)) = Some ErrInvalidMessageType.
Proof.
  intros Hv. rewrite (fixedHeader_destruct h), fixedHeader_Decode_cons, Hv. reflexivity.
Qed.

Lemma fixedHeader_Decode_unexpected_type (h : fixedHeader) (b : byte) (src : list byte) :
  Valid (type_nibble b) = true -> type_nibble b <> mtype h ->
  d_err (fixedHeader_Decode h (b :: src)) = Some ErrUnexpectedMessageType.
Proof.
  intros Hv Ht. rewrite (fixedHeader_destruct h), fixedHeader_Decode_cons, Hv. cbn [negb].
  destruct (Z.eqb_spec (type_nibble b) (mtype h)); [contradiction | reflexivity].
Qed.

Lemma fixedHeader_Decode_invalid_flags (h : fixedHeader) (b : byte) (src : list byte) :
  Valid (type_nibble b) = true -> type_nibble b = mtype h ->
  mtype h <> PUBLISH -> flags_nibble b <> DefaultFlags (mtype h) ->
  d_err (fixedHeader_Decode h (b :: src)) = Some ErrInvalidFlags.
Proof.
  intros Hv Ht Hp Hf.
  rewrite (fixedHeader_destruct h), fixedHeader_Decode_cons, Hv, Ht, Z.eqb_refl. cbn [negb].
  destruct (Z.eqb_spec (mtype h) PUBLISH); [contradiction |]. cbn [negb andb].
  destruct (byte_eqb (flags_nibble b) (DefaultFlags (mtype h))) eqn:E;
    [apply byte_eqb_eq in E; contradiction | reflexivity].
Qed.

Lemma fixedHeader_Decode_invalid_qos (h : fixedHeader) (b : byte) (src : list byte) :
  Valid (type_nibble b) = true -> type_nibble b = mtype h ->
  mtype h = PUBLISH -> ValidQos (flags_qos (flags_nibble b)) = false ->
  d_err (fixedHeader_Decode h (b :: src)) = Some ErrInvalidPublishQos.
Proof.
  intros Hv Ht Hp Hq.
  rewrite (fixedHeader_destruct h), fixedHeader_Decode_cons, Hv, Ht, Z.eqb_refl. cbn [negb].
  rewrite Hp, Hq. reflexivity.
Qed.

Lemma readVarint32_loop_err (k : nat) :
  forall i s x got src j e src',
    readVarint32_loop k i s x got src = LoopErr j e src' -> e = EOF.
Proof.
  induction k as [| k IH]; intros i s x got src j e src' H; [discriminate |].
  cbn [readVarint32_loop] in H. destruct src as [| b src0].
  - inversion H. reflexivity.
  - destruct (b2z b <? 128); [discriminate | eapply IH; exact H].
Qed.

Lemma readVarint32_err (dst : option (list byte)) (src : list byte) :
  vr_err (readVarint32 dst src) = None \/
  vr_err (readVarint32 dst src) = Some EOF \/
  vr_err (readVarint32 dst src) = Some ErrMalformedRemlen.
Proof.
  unfold readVarint32.
  destruct (readVarint32_loop 4 0 0 0 [] src) as [j e s' | x j got s'] eqn:E.
  - apply readVarint32_loop_err in E. subst e. right. left. reflexivity.
  - destruct ((3 <? j) || ((j =? 3) && (0 <? b2z (band (nth 3 got x00) x80)))).
    + right. right. reflexivity.
    + left. reflexivity.
Qed.

(** Once the first byte is accepted the only errors left are those of the
    remaining length and of a short body. *)
Lemma fixedHeader_Decode_accepted (h : fixedHeader) (b : byte) (src : list byte) :
  first_byte_accepted (mtype h) b ->
  flags (d_msg (fixedHeader_Decode h (b :: src))) = flags_nibble b /\
  In (d_err (fixedHeader_Decode h (b :: src)))
     [None; Some EOF; Some ErrMalformedRemlen; Some ErrHeaderDecodeSize].
Proof.
  intros (Hv & Ht & Hf & Hq).
  rewrite (fixedHeader_destruct h), fixedHeader_Decode_cons, Hv, Ht, Z.eqb_refl. cbn [negb].
  assert (Hchk1 : negb (mtype h =? PUBLISH)
                  && negb (byte_eqb (flags_nibble b) (DefaultFlags (mtype h))) = false).
  { destruct (Z.eqb_spec (mtype h) PUBLISH) as [E | E]; [reflexivity |].
    rewrite (Hf E), byte_eqb_refl. reflexivity. }
  assert (Hchk2 : (mtype h =? PUBLISH) && negb (ValidQos (flags_qos (flags_nibble b))) = false).
  { destruct (Z.eqb_spec (mtype h) PUBLISH) as [E | E]; [| reflexivity].
    rewrite (Hq E). reflexivity. }
  rewrite Hchk1, Hchk2. cbv zeta.
  destruct (readVarint32_err (Some []) src) as [E | [E | E]]; rewrite E.
  - repeat match goal with
           | |- context [if ?c then _ else _] => destruct c
           end; cbn [d_err d_msg flags In]; (split; [reflexivity | tauto]).
  - cbn [d_err d_msg flags In]. split; [reflexivity | tauto].
  - cbn [d_err d_msg flags In]. split; [reflexivity | tauto].
Qed.

(** ** Claim C7: validation of the flags of the fixed header *)

Lemma flags_qos_invalid (f : byte) :
  ValidQos (flags_qos f) = false <-> flags_qos f = x03.
Proof.
  destruct f; vm_compute; split; intros H; try reflexivity; discriminate H.
Qed.

Lemma ValidQos_spec (q : byte) :
  ValidQos q = true <-> q = x00 \/ q = x01 \/ q = x02.
Proof.
  unfold ValidQos, QosAtMostOnce, QosAtLeastOnce, QosExactlyOnce.
  rewrite !orb_true_iff, !byte_eqb_eq. tauto.
Qed.

(** C7: the default flags are 0 for all types except 2 for PUBREL, SUBSCRIBE
    and UNSUBSCRIBE.  Whatever the receiver and the rest of the source are,
    decoding the fixed header of a byte sequence fails when its type nibble is
    not PUBLISH and its flags nibble differs from the default flags of that
    type, and fails when its type nibble is PUBLISH and bits 2-1 of the flags
    hold the QoS value 3.  With a PUBLISH type nibble, a receiver of type
    PUBLISH and a QoS of 0, 1 or 2, decoding gets past the checks of the first
    byte: the flags are stored, no type or flags error is returned, and when a
    remaining length and a body of that length follow, the header is decoded. *)
Theorem header_flags_validation (h : fixedHeader) (b : byte) (src : list byte) :
  (forall t, DefaultFlags t
             = if (t =? PUBREL) || (t =? SUBSCRIBE) || (t =? UNSUBSCRIBE) then x02 else x00) /\
  (type_nibble b <> PUBLISH ->
   flags_nibble b <> DefaultFlags (type_nibble b) ->
   exists e, d_err (fixedHeader_Decode h (b :: src)) = Some e) /\
  (type_nibble b = PUBLISH ->
   flags_qos (flags_nibble b) = x03 ->
   exists e, d_err (fixedHeader_Decode h (b :: src)) = Some e) /\
  (type_nibble b = PUBLISH -> mtype h = PUBLISH ->
   flags_qos (flags_nibble b) = x00 \/ flags_qos (flags_nibble b) = x01
   \/ flags_qos (flags_nibble b) = x02 ->
   flags (d_msg (fixedHeader_Decode h (b :: src))) = flags_nibble b /\
   In (d_err (fixedHeader_Decode h (b :: src)))
      [None; Some EOF; Some ErrMalformedRemlen; Some ErrHeaderDecodeSize] /\
   forall body rest,
     src = varint_bytes (len body) ++ body ++ rest ->
     len body <= maxRemainingLength ->
     fixedHeader_Decode h (b :: src)
     = mkDecoded (1 + len (varint_bytes (len body))) None
         (mkFixedHeader body (len body) PUBLISH (flags_nibble b)) rest).
Proof.
  split; [exact DefaultFlags_spec |].
  split; [| split].
  - intros Hp Hf.
    destruct (Valid (type_nibble b)) eqn:Hv.
    + destruct (Z.eq_dec (type_nibble b) (mtype h)) as [Ht | Ht].
      * exists ErrInvalidFlags. apply fixedHeader_Decode_invalid_flags; congruence.
      * exists ErrUnexpectedMessageType. apply fixedHeader_Decode_unexpected_type; assumption.
    + exists ErrInvalidMessageType. apply fixedHeader_Decode_invalid_type. exact Hv.
  - intros Hp Hq.
    assert (Hv : Valid (type_nibble b) = true) by (rewrite Hp; reflexivity).
    destruct (Z.eq_dec (type_nibble b) (mtype h)) as [Ht | Ht].
    + exists ErrInvalidPublishQos. apply fixedHeader_Decode_invalid_qos; try congruence.
      apply flags_qos_invalid. exact Hq.
    + exists ErrUnexpectedMessageType. apply fixedHeader_Decode_unexpected_type; assumption.
  - intros Hp Hh Hq.
    assert (Hacc : first_byte_accepted (mtype h) b).
    { unfold first_byte_accepted. rewrite Hp, Hh. repeat split.
      - intros Hne. contradiction Hne. reflexivity.
      - intros _. apply ValidQos_spec. exact Hq. }
    destruct (fixedHeader_Decode_accepted h b src Hacc) as [Hfl Herr].
    split; [exact Hfl |]. split; [exact Herr |].
    intros body rest -> Hlen.
    rewrite fixedHeader_Decode_packet by assumption. rewrite Hh. reflexivity.
Qed.

Lemma header_flags_validation_witness :
  (exists e, d_err (fixedHeader_Decode (puback_header NewPubackMessage)
                      [x42; x02; x00; x07]) = Some e) /\
  (exists e, d_err (fixedHeader_Decode (publish_header NewPublishMessage)
                      [x36; x03; x00; x01; x61]) = Some e) /\
  flags (d_msg (fixedHeader_Decode (publish_header NewPublishMessage)
                  [x34; x03; x00; x01; x61])) = x04.
Proof.
  split; [| split].
  - apply (proj1 (proj2 (header_flags_validation (puback_header NewPubackMessage) x42
                           [x02; x00; x07]))); vm_compute; discriminate.
  - apply (proj1 (proj2 (proj2 (header_flags_validation (publish_header NewPublishMessage) x36
                                  [x03; x00; x01; x61])))); reflexivity.
  - apply (proj2 (proj2 (proj2 (header_flags_validation (publish_header NewPublishMessage) x34
                                  [x03; x00; x01; x61])))); try reflexivity.
    right. right. reflexivity.
Defined.

(** ** Claim C3: a declared remaining length larger than the body *)

(** After the fixed header [PubackMessage.Decode] reads the two bytes of the
    packet identifier and returns: what else the declared remaining length
    covers stays in the buffer. *)
Lemma PubackMessage_Decode_frame (this : PubackMessage) (t : MessageType) (hi lo : byte)
  (extra rest : list byte) :
  mtype (puback_header this) = t ->
  Valid t = true -> t <> PUBLISH -> 2 + len extra <= maxRemainingLength ->
  PubackMessage_Decode this (frame t (DefaultFlags t) (hi :: lo :: extra) ++ rest)
  = mkDecoded (1 + len (varint_bytes (2 + len extra)) + 2) None
      (mkPuback (mkFixedHeader extra (2 + len extra) t (DefaultFlags t))
         (b2z hi * 256 + b2z lo)) rest.
Proof.
  intros Ht Hv Hp Hlen. unfold PubackMessage_Decode.
  assert (Hl : len (hi :: lo :: extra) = 2 + len extra) by (rewrite !len_cons; lia).
  rewrite (fixedHeader_Decode_frame (puback_header this) t); try assumption.
  - cbn [d_err d_msg d_n d_src puback_header buf readUint16]. hdr_simpl.
    rewrite Hl. reflexivity.
  - apply DefaultFlags_small.
  - intros _. reflexivity.
  - intros E. contradiction.
  - rewrite Hl. exact Hlen.
Qed.

(** C3, the code at the failing inputs: a PUBACK and a CONNACK packet that
    declare a remaining length of 3 and supply 3 body bytes are decoded without
    error, the third byte being left unread in the buffer; a CONNECT packet
    with a byte after its last field is rejected by the check of
    [ConnectMessage.decodeMessage]. *)
Theorem trailing_byte_accepted :
  PubackMessage_Decode NewPubackMessage [x40; x03; x00; x07; xff]
  = mkDecoded 4 None (mkPuback (mkFixedHeader [xff] 3 PUBACK x00) 7) [] /\
  ConnackMessage_Decode NewConnackMessage [x20; x03; x00; x00; xff]
  = mkDecoded 4 None (mkConnack (mkFixedHeader [xff] 3 CONNACK x00) false x00) [] /\
  d_err (ConnectMessage_Decode NewConnectMessage
           [x10; x0d; x00; x04; x4d; x51; x54; x54; x04; x02; x00; x0a; x00; x00; xff])
  = Some ErrConnectTrailing.
Proof. repeat split. Qed.

(** ** Claim C8: encoding a packet with an invalid field value *)

Lemma PublishMessage_Encode_empty_topic (this : PublishMessage) :
  topic this = [] ->
  PublishMessage_Encode this = mkEncoded None 0 (Some ErrPublishEncodeTopic) this.
Proof. intros H. unfold PublishMessage_Encode. rewrite H. reflexivity. Qed.

Lemma PublishMessage_Encode_empty_payload (this : PublishMessage) :
  topic this <> [] -> payload this = [] ->
  PublishMessage_Encode this = mkEncoded None 0 (Some ErrPublishEncodePayload) this.
Proof.
  intros Ht Hp. unfold PublishMessage_Encode. rewrite Hp.
  destruct (Z.eqb_spec (len (topic this)) 0) as [E | E]; [| reflexivity].
  apply len_zero_nil in E. contradiction.
Qed.

Lemma ConnectMessage_Encode_unsupported_version (this : ConnectMessage) :
  mtype (connect_header this) = CONNECT -> SupportedVersions (version this) = None ->
  ConnectMessage_Encode this = mkEncoded None 0 (Some ErrConnectEncodeVersion) this.
Proof.
  intros Ht Hv. unfold ConnectMessage_Encode. rewrite Ht, Hv. reflexivity.
Qed.

Lemma ConnackMessage_Encode_invalid_code (this : ConnackMessage) :
  mtype (connack_header this) = CONNACK -> 5 < b2z (returnCode this) ->
  ConnackMessage_Encode this
  = mkEncoded None 0 (Some ErrConnackEncodeCode)
      (mkConnack (mkFixedHeader [x20; x02] 2 CONNACK (flags (connack_header this)))
         (sessionPresent this) (returnCode this))
  \/ b2z (flags (connack_header this)) <> 0.
Proof.
  intros Ht Hc.
  destruct (Z.eq_dec (b2z (flags (connack_header this))) 0) as [Hf | Hf]; [left | right; exact Hf].
  assert (Hf' : flags (connack_header this) = x00) by (apply b2z_inj; exact Hf).
  unfold ConnackMessage_Encode, SetRemainingLength, fixedHeader_Encode.
  cbn [orb snd]. hdr_simpl. rewrite Ht, Hf'.
  cbn -[Z.ltb b2z]. apply Z.ltb_lt in Hc. rewrite Hc. reflexivity.
Qed.

(** C8, the code at the failing input: [ConnackMessage.Encode] of a packet
    with return code 6 returns the error, no reader and the count 0, but by
    then [fixedHeader.Encode] has reset the buffer and written the two bytes
    of the fixed header to it, and the remaining length has been set to 2.
    The buffer is left as it was when [PublishMessage.Encode] meets an empty
    topic or payload and when [ConnectMessage.Encode] meets a protocol version
    that is not registered. *)
Theorem connack_encode_invalid_code :
  let m := ConnackMessage_SetReturnCode NewConnackMessage x06 in
  let r := ConnackMessage_Encode m in
  e_err r = Some ErrConnackEncodeCode /\ e_reader r = None /\ e_n r = 0 /\
  buf (connack_header m) = [] /\ remlen (connack_header m) = 0 /\
  buf (connack_header (e_msg r)) = [x20; x02] /\ remlen (connack_header (e_msg r)) = 2 /\
  (let p := PublishMessage_SetPayload NewPublishMessage [x01] in
   PublishMessage_Encode p = mkEncoded None 0 (Some ErrPublishEncodeTopic) p) /\
  (let p := snd (PublishMessage_SetTopic NewPublishMessage [x61]) in
   PublishMessage_Encode p = mkEncoded None 0 (Some ErrPublishEncodePayload) p) /\
  (let c := connect_set_version NewConnectMessage x05 in
   ConnectMessage_Encode c = mkEncoded None 0 (Some ErrConnectEncodeVersion) c).
Proof. repeat split. Qed.

(** ** The primitive codec *)

Lemma readUint16_uint16_bytes (n : Z) (rest : list byte) :
  0 <= n < 65536 ->
  readUint16 (uint16_bytes n ++ rest) = (n, None, rest).
Proof.
  intros Hn. unfold uint16_bytes. cbn [app readUint16].
  rewrite !b2z_z2b, Z.shiftr_div_pow2 by lia. change (2 ^ 8) with 256.
  rewrite (Z.mod_small (n / 256)) by (split; [apply Z.div_pos | apply Z.div_lt_upper_bound]; lia).
  pose proof (Z.div_mod n 256 ltac:(lia)) as H.
  f_equal. f_equal. lia.
Qed.

Lemma readUint16_bytes (hi lo : byte) (rest : list byte) :
  readUint16 (hi :: lo :: rest) = (b2z hi * 256 + b2z lo, None, rest).
Proof. reflexivity. Qed.

Lemma uint16_bytes_of_bytes (hi lo : byte) :
  uint16_bytes (b2z hi * 256 + b2z lo) = [hi; lo].
Proof.
  pose proof (b2z_range hi). pose proof (b2z_range lo).
  unfold uint16_bytes. rewrite Z.shiftr_div_pow2 by lia. change (2 ^ 8) with 256.
  rewrite Z.div_add_l, (Z.div_small (b2z lo)), Z.add_0_r, z2b_b2z by lia.
  f_equal. f_equal. apply b2z_inj. rewrite b2z_z2b.
  rewrite Z.add_comm, Z.mod_add by lia. apply Z.mod_small. lia.
Qed.

Lemma uint16_range (hi lo : byte) : 0 <= b2z hi * 256 + b2z lo < 65536.
Proof. pose proof (b2z_range hi). pose proof (b2z_range lo). lia. Qed.

Lemma len_uint16_bytes (n : Z) : len (uint16_bytes n) = 2.
Proof. reflexivity. Qed.

Lemma len_lp (s : list byte) : len (lp s) = 2 + len s.
Proof. unfold lp. rewrite len_app, len_uint16_bytes. reflexivity. Qed.

Lemma writeUint16_bytes (b : list byte) (n : Z) : writeUint16 b n = b ++ uint16_bytes n.
Proof. reflexivity. Qed.

Lemma writeLPBytes_lp (b s : list byte) :
  len s <= maxLPString ->
  writeLPBytes b s = (2 + len s, None, b ++ lp s).
Proof.
  intros H. unfold writeLPBytes. destruct (Z.ltb_spec maxLPString (len s)); [lia |].
  rewrite writeUint16_bytes. unfold lp. rewrite <- app_assoc. reflexivity.
Qed.

Lemma writeLPBytes_too_long (b s : list byte) :
  maxLPString < len s ->
  writeLPBytes b s = (0, Some ErrLengthGreater, b).
Proof.
  intros H. unfold writeLPBytes. destruct (Z.ltb_spec maxLPString (len s)); [reflexivity | lia].
Qed.

Lemma readLPBytes_lp (s rest : list byte) :
  len s <= maxLPString ->
  readLPBytes (lp s ++ rest) = (s, 2 + len s, None, rest).
Proof.
  intros H. unfold maxLPString in H. pose proof (len_nonneg s) as H0.
  unfold readLPBytes, lp, to_uint16. rewrite Z.mod_small by lia.
  rewrite <- app_assoc, readUint16_uint16_bytes by lia.
  rewrite len_app. destruct (Z.ltb_spec (len s + len rest) (len s));
    [pose proof (len_nonneg rest); lia |].
  unfold Next. rewrite firstn_len_app, skipn_len_app. reflexivity.
Qed.

(** Every length-prefixed string that [readLPBytes] accepts is the one
    [writeLPBytes] writes. *)
Lemma readLPBytes_inv (b s rest : list byte) (n : Z) :
  readLPBytes b = (s, n, None, rest) ->
  b = lp s ++ rest /\ n = 2 + len s /\ len s <= maxLPString.
Proof.
  unfold readLPBytes. destruct b as [| hi [| lo r]]; cbn [readUint16]; try discriminate.
  pose proof (uint16_range hi lo) as Hr.
  destruct (Z.ltb_spec (len r) (b2z hi * 256 + b2z lo)) as [Hlt | Hge]; [discriminate |].
  unfold Next. intros H. inversion H; subst; clear H.
  assert (Hl : len (firstn (Z.to_nat (b2z hi * 256 + b2z lo)) r) = b2z hi * 256 + b2z lo).
  { unfold len in *. rewrite length_firstn. lia. }
  split; [| split].
  - unfold lp, to_uint16. rewrite Hl, Z.mod_small by lia.
    rewrite uint16_bytes_of_bytes. cbn [app]. rewrite firstn_skipn. reflexivity.
  - rewrite Hl. reflexivity.
  - rewrite Hl. unfold maxLPString. lia.
Qed.

(** ** Encoding the fixed header *)

Lemma writeVarint32_varint_bytes (dst : list byte) (x : Z) :
  x <= maxRemainingLength ->
  writeVarint32 dst x = (len (varint_bytes x), None, dst ++ varint_bytes x).
Proof.
  intros Hx. destruct (Z.lt_ge_cases x 0) as [Hneg | Hpos].
  - unfold varint_bytes, writeVarint32, maxRemainingLength in *.
    destruct (Z.ltb_spec 268435455 x); [lia |].
    cbn [writeVarint32_loop]. destruct (Z.leb_spec 128 x); [lia |]. reflexivity.
  - apply varint_bytes_spec. lia.
Qed.

Lemma fixedHeader_Encode_ok (h : fixedHeader) :
  remlen h <= maxRemainingLength -> Valid (mtype h) = true ->
  fixedHeader_Encode h
  = mkEncoded (Some (header_bytes h)) (1 + len (varint_bytes (remlen h))) None
      (set_buf h (header_bytes h)).
Proof.
  intros Hr Hv. unfold fixedHeader_Encode.
  destruct (Z.ltb_spec maxRemainingLength (remlen h)); [lia |].
  rewrite Hv. cbn [negb]. unfold resetBuf. hdr_simpl. cbn [app].
  rewrite writeVarint32_varint_bytes by assumption. reflexivity.
Qed.

Lemma len_header_bytes (h : fixedHeader) :
  len (header_bytes h) = 1 + len (varint_bytes (remlen h)).
Proof. unfold header_bytes. rewrite len_cons. reflexivity. Qed.

Lemma SetRemainingLength_ok (h : fixedHeader) (r : Z) :
  0 <= r <= maxRemainingLength -> SetRemainingLength h r = (None, set_remlen h r).
Proof.
  intros H. unfold SetRemainingLength.
  destruct (Z.ltb_spec maxRemainingLength r); [lia |].
  destruct (Z.ltb_spec r 0); [lia |]. reflexivity.
Qed.


Lemma to_int32_small (z : Z) : -2147483648 <= z < 2147483648 -> to_int32 z = z.
Proof. intros H. unfold to_int32. rewrite Z.mod_small by lia. lia. Qed.

(** ** PUBLISH *)

Ltac pub_simpl :=
  unfold publish_set_buf, publish_set_header;
  cbn [publish_header publish_packetId topic payload];
  hdr_simpl.

Lemma PublishMessage_QoS_header (h : fixedHeader) (i : Z) (t p : list byte) :
  PublishMessage_QoS (mkPublish h i t p) = flags_qos (flags h).
Proof. reflexivity. Qed.

Lemma publish_encode_header_fields (m : PublishMessage) :
  mtype (publish_encode_header m) = mtype (publish_header m) /\
  flags (publish_encode_header m) = flags (publish_header m) /\
  buf (publish_encode_header m) = buf (publish_header m).
Proof.
  unfold publish_encode_header, SetRemainingLength.
  destruct ((maxRemainingLength <? to_int32 (PublishMessage_size m))
            || (to_int32 (PublishMessage_size m) <? 0)); cbn [snd]; hdr_simpl; auto.
Qed.

(** What [PublishMessage.Encode] returns when it succeeds. *)
Lemma PublishMessage_Encode_ok (m : PublishMessage) :
  Valid (mtype (publish_header m)) = true ->
  remlen (publish_encode_header m) <= maxRemainingLength ->
  topic m <> [] -> len (topic m) <= maxLPString -> payload m <> [] ->
  let bytes := header_bytes (publish_encode_header m) ++ publish_body m in
  PublishMessage_Encode m
  = mkEncoded (Some bytes) (len bytes) None
      (publish_set_header m (set_buf (publish_encode_header m) bytes)).
Proof.
  intros Hv Hr Ht Htl Hp bytes.
  destruct (publish_encode_header_fields m) as (Hmt & Hfl & _).
  unfold PublishMessage_Encode.
  destruct (Z.eqb_spec (len (topic m)) 0) as [E | _]; [apply len_zero_nil in E; contradiction |].
  destruct (Z.eqb_spec (len (payload m)) 0) as [E | _]; [apply len_zero_nil in E; contradiction |].
  fold (PublishMessage_size m). fold (publish_encode_header m).
  pub_simpl.
  rewrite fixedHeader_Encode_ok by (rewrite ?Hmt; assumption).
  cbn [e_err e_msg e_n e_reader]. pub_simpl.
  rewrite writeLPBytes_lp by assumption. pub_simpl.
  rewrite !PublishMessage_QoS_header. hdr_simpl. rewrite Hfl.
  subst bytes. unfold publish_body. rewrite len_app, len_header_bytes.
  change (PublishMessage_QoS m) with (flags_qos (flags (publish_header m))).
  destruct (byte_eqb (flags_qos (flags (publish_header m))) x00); cbn [negb]; pub_simpl.
  - cbn [app]. rewrite !len_app, len_lp. rewrite <- ?app_assoc.
    f_equal; lia.
  - rewrite writeUint16_bytes, !len_app, len_lp, len_uint16_bytes. rewrite <- ?app_assoc.
    f_equal; lia.
Qed.

(** What [PublishMessage.Decode] returns on a packet whose body starts with a
    valid topic name. *)
Lemma PublishMessage_Decode_qos0 (this : PublishMessage) (f : byte) (t pl rest : list byte) :
  mtype (publish_header this) = PUBLISH ->
  b2z f < 16 -> flags_qos f = x00 ->
  ValidTopic t = true -> len t <= maxLPString ->
  len (lp t ++ pl) <= maxRemainingLength ->
  PublishMessage_Decode this (frame PUBLISH f (lp t ++ pl) ++ rest)
  = mkDecoded (1 + len (varint_bytes (len (lp t ++ pl))) + len (lp t ++ pl)) None
      (mkPublish (mkFixedHeader [] (len (lp t ++ pl)) PUBLISH f)
         (publish_packetId this) t pl) rest.
Proof.
  intros Hm Hf Hq Hvt Htl Hlen. unfold PublishMessage_Decode.
  rewrite (fixedHeader_Decode_frame (publish_header this) PUBLISH); try assumption.
  - cbn [d_err d_msg d_n d_src]. pub_simpl.
    rewrite readLPBytes_lp by assumption. pub_simpl. rewrite Hvt. cbn [negb].
    rewrite PublishMessage_QoS_header. hdr_simpl. rewrite Hq, byte_eqb_refl. cbn [negb].
    pub_simpl. unfold Next. rewrite firstn_len, skipn_len. pub_simpl.
    f_equal. rewrite len_app, len_lp. lia.
  - reflexivity.
  - intros E. contradiction E. reflexivity.
  - intros _. rewrite Hq. reflexivity.
Qed.

Lemma PublishMessage_Decode_qos12 (this : PublishMessage) (f hi lo : byte) (t pl rest : list byte) :
  mtype (publish_header this) = PUBLISH ->
  b2z f < 16 -> flags_qos f = x01 \/ flags_qos f = x02 ->
  ValidTopic t = true -> len t <= maxLPString ->
  len (lp t ++ hi :: lo :: pl) <= maxRemainingLength ->
  PublishMessage_Decode this (frame PUBLISH f (lp t ++ hi :: lo :: pl) ++ rest)
  = mkDecoded (1 + len (varint_bytes (len (lp t ++ hi :: lo :: pl)))
               + len (lp t ++ hi :: lo :: pl)) None
      (mkPublish (mkFixedHeader [] (len (lp t ++ hi :: lo :: pl)) PUBLISH f)
         (b2z hi * 256 + b2z lo) t pl) rest.
Proof.
  intros Hm Hf Hq Hvt Htl Hlen. unfold PublishMessage_Decode.
  assert (Hvq : ValidQos (flags_qos f) = true)
    by (destruct Hq as [-> | ->]; reflexivity).
  assert (Hnz : negb (byte_eqb (flags_qos f) x00) = true)
    by (destruct Hq as [-> | ->]; reflexivity).
  rewrite (fixedHeader_Decode_frame (publish_header this) PUBLISH); try assumption.
  - cbn [d_err d_msg d_n d_src]. pub_simpl.
    rewrite readLPBytes_lp by assumption. pub_simpl. rewrite Hvt. cbn [negb].
    rewrite PublishMessage_QoS_header. hdr_simpl. rewrite Hnz.
    cbn [readUint16]. pub_simpl. unfold Next. rewrite firstn_len, skipn_len. pub_simpl.
    f_equal. rewrite len_app, len_lp, !len_cons. lia.
  - reflexivity.
  - intros E. contradiction E. reflexivity.
  - intros _. exact Hvq.
Qed.

(** ** Claim C6: the packet identifier of PUBLISH and the QoS *)

Lemma len_publish_body (m : PublishMessage) :
  len (publish_body m) = PublishMessage_size m.
Proof.
  unfold publish_body, PublishMessage_size.
  destruct (byte_eqb (PublishMessage_QoS m) x00); cbn [negb];
    rewrite !len_app, len_lp, ?len_uint16_bytes, ?len_nil; lia.
Qed.

Lemma PublishMessage_size_nonneg (m : PublishMessage) : 0 <= PublishMessage_size m.
Proof.
  rewrite <- len_publish_body. apply len_nonneg.
Qed.

Lemma publish_encode_header_in_range (m : PublishMessage) :
  PublishMessage_size m <= maxRemainingLength ->
  publish_encode_header m = set_remlen (publish_header m) (PublishMessage_size m).
Proof.
  intros H. pose proof (PublishMessage_size_nonneg m). unfold maxRemainingLength in H.
  unfold publish_encode_header. rewrite to_int32_small by lia.
  rewrite SetRemainingLength_ok by (unfold maxRemainingLength; lia). reflexivity.
Qed.

(** A PUBLISH message whose size is in range is encoded as a packet: the
    header carries the length of the body written. *)
Lemma publish_encoded_frame (m : PublishMessage) :
  PublishMessage_size m <= maxRemainingLength ->
  header_bytes (publish_encode_header m) ++ publish_body m
  = frame (mtype (publish_header m)) (flags (publish_header m)) (publish_body m).
Proof.
  intros H. rewrite publish_encode_header_in_range by assumption.
  unfold header_bytes, frame. hdr_simpl. rewrite len_publish_body. reflexivity.
Qed.

(** C6: [PublishMessage.Encode] writes, after the topic name, the two bytes of
    the packet identifier when the QoS of the header flags is 1 or 2 and
    nothing when it is 0; [PublishMessage.Decode] with QoS 0 takes every byte
    after the topic name as payload and leaves the packet identifier of the
    receiver as it was, and with QoS 1 or 2 reads the two bytes after the topic
    name as the packet identifier; and with QoS 1 or 2 the identifier of an
    encoded message is read back from the encoding. *)
Theorem publish_packet_identifier :
  (forall m : PublishMessage,
      Valid (mtype (publish_header m)) = true ->
      remlen (publish_encode_header m) <= maxRemainingLength ->
      topic m <> [] -> len (topic m) <= maxLPString -> payload m <> [] ->
      (PublishMessage_QoS m = x00 ->
       e_err (PublishMessage_Encode m) = None /\
       e_reader (PublishMessage_Encode m)
       = Some (header_bytes (publish_encode_header m) ++ lp (topic m) ++ payload m)) /\
      (PublishMessage_QoS m = x01 \/ PublishMessage_QoS m = x02 ->
       e_err (PublishMessage_Encode m) = None /\
       e_reader (PublishMessage_Encode m)
       = Some (header_bytes (publish_encode_header m) ++ lp (topic m)
               ++ uint16_bytes (publish_packetId m) ++ payload m))) /\
  (forall (this : PublishMessage) (f : byte) (t pl rest : list byte),
      mtype (publish_header this) = PUBLISH ->
      b2z f < 16 -> flags_qos f = x00 ->
      ValidTopic t = true -> len t <= maxLPString ->
      len (lp t ++ pl) <= maxRemainingLength ->
      let r := PublishMessage_Decode this (frame PUBLISH f (lp t ++ pl) ++ rest) in
      d_err r = None /\ publish_packetId (d_msg r) = publish_packetId this /\
      topic (d_msg r) = t /\ payload (d_msg r) = pl /\ d_src r = rest) /\
  (forall (this : PublishMessage) (f hi lo : byte) (t pl rest : list byte),
      mtype (publish_header this) = PUBLISH ->
      b2z f < 16 -> flags_qos f = x01 \/ flags_qos f = x02 ->
      ValidTopic t = true -> len t <= maxLPString ->
      len (lp t ++ hi :: lo :: pl) <= maxRemainingLength ->
      let r := PublishMessage_Decode this (frame PUBLISH f (lp t ++ hi :: lo :: pl) ++ rest) in
      d_err r = None /\ publish_packetId (d_msg r) = b2z hi * 256 + b2z lo /\
      topic (d_msg r) = t /\ payload (d_msg r) = pl /\ d_src r = rest) /\
  (forall (m : PublishMessage) (bytes : list byte),
      mtype (publish_header m) = PUBLISH ->
      b2z (flags (publish_header m)) < 16 ->
      PublishMessage_QoS m = x01 \/ PublishMessage_QoS m = x02 ->
      ValidTopic (topic m) = true -> len (topic m) <= maxLPString -> payload m <> [] ->
      PublishMessage_size m <= maxRemainingLength ->
      0 <= publish_packetId m < 65536 ->
      e_reader (PublishMessage_Encode m) = Some bytes ->
      let r := PublishMessage_Decode NewPublishMessage bytes in
      d_err r = None /\ publish_packetId (d_msg r) = publish_packetId m).
Proof.
  split; [| split; [| split]].
  - intros m Hv Hr Ht Htl Hp.
    pose proof (PublishMessage_Encode_ok m Hv Hr Ht Htl Hp) as He. cbv zeta in He.
    rewrite He. cbn [e_err e_reader]. unfold publish_body. split.
    + intros Hq. rewrite Hq, byte_eqb_refl. cbn [app]. auto.
    + intros Hq. split; [reflexivity |].
      destruct Hq as [-> | ->]; reflexivity.
  - intros this f t pl rest Hm Hf Hq Hvt Htl Hlen r. subst r.
    rewrite PublishMessage_Decode_qos0 by assumption.
    cbn [d_err d_msg d_src publish_packetId topic payload]. auto.
  - intros this f hi lo t pl rest Hm Hf Hq Hvt Htl Hlen r. subst r.
    rewrite PublishMessage_Decode_qos12 by assumption.
    cbn [d_err d_msg d_src publish_packetId topic payload]. auto.
  - intros m bytes Hm Hf Hq Hvt Htl Hp Hsz Hid He r. subst r.
    assert (Ht : topic m <> []).
    { intros E. rewrite E in Hvt. discriminate Hvt. }
    assert (Hv : Valid (mtype (publish_header m)) = true) by (rewrite Hm; reflexivity).
    assert (Hr : remlen (publish_encode_header m) <= maxRemainingLength).
    { rewrite publish_encode_header_in_range by assumption. hdr_simpl. assumption. }
    pose proof (PublishMessage_Encode_ok m Hv Hr Ht Htl Hp) as Hok. cbv zeta in Hok.
    rewrite Hok in He. cbn [e_reader] in He.
    assert (Hb : bytes = header_bytes (publish_encode_header m) ++ publish_body m)
      by congruence.
    subst bytes. clear He.
    rewrite publish_encoded_frame by assumption. rewrite Hm.
    assert (Hbody : publish_body m
                    = lp (topic m) ++ z2b (Z.shiftr (publish_packetId m) 8)
                        :: z2b (publish_packetId m) :: payload m).
    { unfold publish_body. destruct Hq as [-> | ->]; reflexivity. }
    pose proof (len_publish_body m) as Hlb. rewrite Hbody in *.
    rewrite <- (app_nil_r (frame _ _ _)).
    rewrite PublishMessage_Decode_qos12; try assumption; try reflexivity; try lia.
    cbn [d_err d_msg publish_packetId]. split; [reflexivity |].
    pose proof (readUint16_uint16_bytes (publish_packetId m) [] Hid) as Hu.
    unfold uint16_bytes in Hu. cbn [app readUint16] in Hu.
    exact (f_equal (fun x => fst (fst x)) Hu).
Qed.

Lemma publish_packet_identifier_witness :
  let m := PublishMessage_SetPacketId
             (PublishMessage_SetPayload
                (snd (PublishMessage_SetTopic
                        (snd (PublishMessage_SetQoS NewPublishMessage x01)) [x61; x2f; x62]))
                [x01; x02; x03]) 7 in
  let r := PublishMessage_Decode NewPublishMessage
             [x32; x0a; x00; x03; x61; x2f; x62; x00; x07; x01; x02; x03] in
  d_err r = None /\ publish_packetId (d_msg r) = publish_packetId m.
Proof.
  intros m r.
  refine (proj2 (proj2 (proj2 publish_packet_identifier)) m
            [x32; x0a; x00; x03; x61; x2f; x62; x00; x07; x01; x02; x03]
            _ _ _ _ _ _ _ _ _).
  - reflexivity.
  - reflexivity.
  - left. reflexivity.
  - reflexivity.
  - vm_compute. discriminate.
  - discriminate.
  - vm_compute. discriminate.
  - vm_compute. split; [discriminate | reflexivity].
  - reflexivity.
Defined.

(** ** SUBSCRIBE *)

Ltac sub_simpl :=
  unfold subscribe_set_buf;
  cbn [subscribe_header subscribe_packetId subscribe_topics qos];
  hdr_simpl.

Lemma subscribe_pairs_bytes_cons (t : list byte) (q : byte) (ts : list (list byte))
  (qs : list byte) :
  subscribe_pairs_bytes (t :: ts) (q :: qs) = (lp t ++ [q]) ++ subscribe_pairs_bytes ts qs.
Proof. reflexivity. Qed.

Lemma topics_fit_cons (t : list byte) (ts : list (list byte)) :
  topics_fit (t :: ts) = true <-> len t <= maxLPString /\ topics_fit ts = true.
Proof.
  unfold topics_fit. cbn [forallb]. rewrite andb_true_iff, Z.leb_le. reflexivity.
Qed.

(** The decoding loop on a buffer made of pairs of a topic and a QoS byte:
    whatever the QoS bytes are, the pairs are appended to the lists of the
    receiver. *)
Lemma SubscribeMessage_Decode_loop_pairs (ts : list (list byte)) :
  forall (qs : list byte) (k : nat) (total : Z) (h : fixedHeader) (id : Z)
         (ts0 : list (list byte)) (qs0 : list byte),
    length ts = length qs -> topics_fit ts = true ->
    (length (subscribe_pairs_bytes ts qs) <= k)%nat ->
    SubscribeMessage_Decode_loop k total
      (mkSubscribe (set_buf h (subscribe_pairs_bytes ts qs)) id ts0 qs0)
    = Some (total + len (subscribe_pairs_bytes ts qs), None,
            mkSubscribe (set_buf h []) id (ts0 ++ ts) (qs0 ++ qs)).
Proof.
  induction ts as [| t ts IH]; intros qs k total h id ts0 qs0 Hl Hfit Hk.
  - destruct qs; [| discriminate].
    change (subscribe_pairs_bytes [] []) with (@nil byte).
    rewrite !app_nil_r. change (len (@nil byte)) with 0. rewrite Z.add_0_r.
    destruct k; reflexivity.
  - destruct qs as [| q qs]; [discriminate |].
    apply topics_fit_cons in Hfit. destruct Hfit as [Ht Hfit].
    rewrite subscribe_pairs_bytes_cons in *.
    destruct k as [| k].
    { rewrite !length_app in Hk. unfold lp in Hk. cbn in Hk. lia. }
    cbn [SubscribeMessage_Decode_loop]. sub_simpl.
    rewrite <- !app_assoc.
    assert (Hpos : (0 <? len (lp t ++ [q] ++ subscribe_pairs_bytes ts qs)) = true).
    { apply Z.ltb_lt. rewrite len_app, len_lp. pose proof (len_nonneg t).
      pose proof (len_nonneg ([q] ++ subscribe_pairs_bytes ts qs)). lia. }
    rewrite Hpos, readLPBytes_lp by assumption. sub_simpl.
    cbn [app ReadByte]. sub_simpl.
    specialize (IH qs k (total + (2 + len t) + 1) h id (ts0 ++ [t]) (qs0 ++ [q])).
    unfold set_buf in IH. cbn [buf remlen mtype flags] in IH.
    rewrite IH.
    + rewrite <- !app_assoc. cbn [app]. rewrite !len_app, len_lp, len_cons.
      f_equal. f_equal. f_equal. lia.
    + cbn [length] in Hl. lia.
    + exact Hfit.
    + rewrite !length_app in Hk. cbn [length] in Hk. lia.
Qed.

(** What [SubscribeMessage.Decode] returns on a packet whose payload is made
    of pairs of a topic and a QoS byte. *)
Lemma SubscribeMessage_Decode_pairs (this : SubscribeMessage) (hi lo : byte)
  (ts : list (list byte)) (qs rest : list byte) :
  mtype (subscribe_header this) = SUBSCRIBE ->
  length ts = length qs -> topics_fit ts = true ->
  subscribe_topics this ++ ts <> [] ->
  2 + len (subscribe_pairs_bytes ts qs) <= maxRemainingLength ->
  let body := hi :: lo :: subscribe_pairs_bytes ts qs in
  SubscribeMessage_Decode this (frame SUBSCRIBE x02 body ++ rest)
  = mkDecoded (1 + len (varint_bytes (len body)) + len body) None
      (mkSubscribe (mkFixedHeader [] (len body) SUBSCRIBE x02)
         (b2z hi * 256 + b2z lo) (subscribe_topics this ++ ts) (qos this ++ qs)) rest.
Proof.
  intros Hm Hl Hfit Hne Hlen body. unfold SubscribeMessage_Decode.
  assert (Hb : len body = 2 + len (subscribe_pairs_bytes ts qs))
    by (subst body; rewrite !len_cons; lia).
  rewrite (fixedHeader_Decode_frame (subscribe_header this) SUBSCRIBE); try assumption;
    try reflexivity; try (intros E; discriminate E); try lia.
  cbn [d_err d_msg d_n d_src]. sub_simpl. subst body. cbn [readUint16]. sub_simpl.
  pose proof (SubscribeMessage_Decode_loop_pairs ts qs
                (length (subscribe_pairs_bytes ts qs))
                (0 + (1 + len (varint_bytes (len (hi :: lo :: subscribe_pairs_bytes ts qs)))) + 2)
                (mkFixedHeader [] (len (hi :: lo :: subscribe_pairs_bytes ts qs)) SUBSCRIBE x02)
                (b2z hi * 256 + b2z lo) (subscribe_topics this) (qos this)
                Hl Hfit (Nat.le_refl _)) as Hloop.
  unfold set_buf in Hloop. cbn [buf remlen mtype flags] in Hloop.
  rewrite Hloop. sub_simpl.
  destruct (Z.eqb_spec (len (subscribe_topics this ++ ts)) 0) as [E | E];
    [apply len_zero_nil in E; contradiction |].
  f_equal. rewrite Hb. lia.
Qed.

(** ** Claim C9: the requested QoS bytes of SUBSCRIBE are not validated *)

Lemma SubscribeMessage_AddTopic_invalid (this : SubscribeMessage) (t : list byte) (q : byte) :
  q <> x00 -> q <> x01 -> q <> x02 ->
  SubscribeMessage_AddTopic this t q = (Some ErrSubscribeQos, this).
Proof.
  intros H0 H1 H2. unfold SubscribeMessage_AddTopic.
  destruct (ValidQos q) eqn:E; [| reflexivity].
  apply ValidQos_spec in E. destruct E as [E | [E | E]]; contradiction.
Qed.

(** C9: for every SUBSCRIBE packet that passes the checks of the fixed header
    and whose payload is a non-empty sequence of pairs of a length-prefixed
    topic and one byte, [SubscribeMessage.Decode] succeeds whatever the values
    of these bytes are and appends them unchanged, in their order, to the QoS
    list of the receiver; whereas [SubscribeMessage.AddTopic] returns an error
    and leaves the message unchanged for every QoS other than 0, 1 and 2. *)
Theorem subscribe_decode_qos_unchecked :
  (forall (this : SubscribeMessage) (hi lo : byte) (ts : list (list byte))
          (qs rest : list byte),
      mtype (subscribe_header this) = SUBSCRIBE ->
      length ts = length qs -> topics_fit ts = true -> ts <> [] ->
      2 + len (subscribe_pairs_bytes ts qs) <= maxRemainingLength ->
      let r := SubscribeMessage_Decode this
                 (frame SUBSCRIBE x02 (hi :: lo :: subscribe_pairs_bytes ts qs) ++ rest) in
      d_err r = None /\
      qos (d_msg r) = qos this ++ qs /\
      d_src r = rest) /\
  (forall (this : SubscribeMessage) (t : list byte) (q : byte),
      q <> x00 -> q <> x01 -> q <> x02 ->
      SubscribeMessage_AddTopic this t q = (Some ErrSubscribeQos, this)).
Proof.
  split.
  - intros this hi lo ts qs rest Hm Hl Hfit Hne Hlen r. subst r.
    pose proof (SubscribeMessage_Decode_pairs this hi lo ts qs rest Hm Hl Hfit) as H.
    cbv zeta in H. rewrite H; [| | exact Hlen].
    + cbn [d_err d_msg d_src subscribe_topics qos]. auto.
    + intros E. apply app_eq_nil in E. destruct E as [_ E]. contradiction.
  - exact SubscribeMessage_AddTopic_invalid.
Qed.

Lemma subscribe_decode_qos_unchecked_witness :
  let r := SubscribeMessage_Decode NewSubscribeMessage
             [x82; x0c; x00; x07; x00; x03; x61; x2f; x62; x03; x00; x01; x63; xff] in
  (d_err r = None /\
   qos (d_msg r) = [x03; xff] /\
   d_src r = []) /\
  SubscribeMessage_AddTopic NewSubscribeMessage [x63] xff
  = (Some ErrSubscribeQos, NewSubscribeMessage).
Proof.
  split.
  - refine (proj1 subscribe_decode_qos_unchecked NewSubscribeMessage x00 x07
              [[x61; x2f; x62]; [x63]] [x03; xff] [] _ _ _ _ _).
    + reflexivity.
    + reflexivity.
    + reflexivity.
    + discriminate.
    + vm_compute. discriminate.
  - apply (proj2 subscribe_decode_qos_unchecked); discriminate.
Defined.

(** ** Encoding SUBSCRIBE and UNSUBSCRIBE *)

Lemma subscribe_size_fold (ts : list (list byte)) :
  forall (qs : list byte) (acc : Z),
    (length ts <= length qs)%nat ->
    fold_left (fun total t => total + (2 + len t + 1)) ts acc
    = acc + len (subscribe_pairs_bytes ts qs).
Proof.
  induction ts as [| t ts IH]; intros qs acc Hl.
  - destruct qs; cbn; lia.
  - destruct qs as [| q qs]; [cbn in Hl; lia |].
    cbn [fold_left]. rewrite (IH qs) by (cbn in Hl; lia).
    rewrite subscribe_pairs_bytes_cons, !len_app, len_lp, len_cons, len_nil. lia.
Qed.

Lemma SubscribeMessage_size_spec (m : SubscribeMessage) :
  (length (subscribe_topics m) <= length (qos m))%nat ->
  SubscribeMessage_size m = 2 + len (subscribe_pairs_bytes (subscribe_topics m) (qos m)).
Proof.
  intros H. unfold SubscribeMessage_size. apply subscribe_size_fold. exact H.
Qed.

Lemma SubscribeMessage_Encode_loop_ok (ts : list (list byte)) :
  forall (qs pre : list byte) (total : Z) (b : list byte),
    (length ts <= length qs)%nat -> topics_fit ts = true ->
    SubscribeMessage_Encode_loop ts (length pre) (pre ++ qs) total b
    = (total + len (subscribe_pairs_bytes ts qs), None, b ++ subscribe_pairs_bytes ts qs).
Proof.
  induction ts as [| t ts IH]; intros qs pre total b Hl Hfit.
  - destruct qs; cbn [SubscribeMessage_Encode_loop]; 
      change (subscribe_pairs_bytes [] _) with (@nil byte);
      rewrite app_nil_r; change (len (@nil byte)) with 0; rewrite Z.add_0_r; reflexivity.
  - destruct qs as [| q qs]; [cbn in Hl; lia |].
    apply topics_fit_cons in Hfit. destruct Hfit as [Ht Hfit].
    cbn [SubscribeMessage_Encode_loop]. rewrite writeLPBytes_lp by assumption.
    rewrite nth_error_app2 by lia. rewrite Nat.sub_diag. cbn [nth_error].
    replace (S (length pre)) with (length (pre ++ [q])) by (rewrite length_app; cbn; lia).
    replace (pre ++ q :: qs) with ((pre ++ [q]) ++ qs) by (rewrite <- app_assoc; reflexivity).
    rewrite IH by (try assumption; cbn in Hl; lia).
    rewrite subscribe_pairs_bytes_cons, !len_app, len_lp, len_cons, len_nil.
    rewrite <- !app_assoc. f_equal. f_equal. lia.
Qed.

Lemma subscribe_encode_header_fields (m : SubscribeMessage) :
  mtype (subscribe_encode_header m) = mtype (subscribe_header m) /\
  flags (subscribe_encode_header m) = flags (subscribe_header m).
Proof.
  unfold subscribe_encode_header, SetRemainingLength.
  destruct ((maxRemainingLength <? to_int32 (SubscribeMessage_size m))
            || (to_int32 (SubscribeMessage_size m) <? 0)); cbn [snd]; hdr_simpl; auto.
Qed.

(** What [SubscribeMessage.Encode] returns when it succeeds. *)
Lemma SubscribeMessage_Encode_ok (m : SubscribeMessage) :
  Valid (mtype (subscribe_header m)) = true ->
  remlen (subscribe_encode_header m) <= maxRemainingLength ->
  (length (subscribe_topics m) <= length (qos m))%nat ->
  topics_fit (subscribe_topics m) = true ->
  let bytes := header_bytes (subscribe_encode_header m)
               ++ uint16_bytes (subscribe_packetId m)
               ++ subscribe_pairs_bytes (subscribe_topics m) (qos m) in
  SubscribeMessage_Encode m
  = mkEncoded (Some bytes) (len bytes) None
      (mkSubscribe (set_buf (subscribe_encode_header m) bytes) (subscribe_packetId m)
         (subscribe_topics m) (qos m)).
Proof.
  intros Hv Hr Hl Hfit bytes.
  destruct (subscribe_encode_header_fields m) as (Hmt & Hfl).
  unfold SubscribeMessage_Encode. fold (subscribe_encode_header m).
  rewrite fixedHeader_Encode_ok by (rewrite ?Hmt; assumption).
  cbn [e_err e_msg e_n e_reader]. sub_simpl.
  rewrite writeUint16_bytes.
  pose proof (SubscribeMessage_Encode_loop_ok (subscribe_topics m) (qos m) []
                (1 + len (varint_bytes (remlen (subscribe_encode_header m))) + 2)
                (header_bytes (subscribe_encode_header m) ++ uint16_bytes (subscribe_packetId m))
                Hl Hfit) as Hloop.
  cbn [length app] in Hloop. rewrite Hloop. sub_simpl.
  subst bytes. rewrite <- !app_assoc.
  f_equal. rewrite !len_app, len_header_bytes, len_uint16_bytes. lia.
Qed.

(** UNSUBSCRIBE *)

Ltac unsub_simpl :=
  unfold unsubscribe_set_buf;
  cbn [unsubscribe_header unsubscribe_packetId unsubscribe_topics];
  hdr_simpl.

Lemma unsubscribe_topics_bytes_cons (t : list byte) (ts : list (list byte)) :
  unsubscribe_topics_bytes (t :: ts) = lp t ++ unsubscribe_topics_bytes ts.
Proof. reflexivity. Qed.

Lemma unsubscribe_size_fold (ts : list (list byte)) :
  forall acc : Z,
    fold_left (fun total t => total + (2 + len t)) ts acc
    = acc + len (unsubscribe_topics_bytes ts).
Proof.
  induction ts as [| t ts IH]; intros acc.
  - cbn. lia.
  - cbn [fold_left]. rewrite IH, unsubscribe_topics_bytes_cons, len_app, len_lp. lia.
Qed.

Lemma UnsubscribeMessage_size_spec (m : UnsubscribeMessage) :
  UnsubscribeMessage_size m = 2 + len (unsubscribe_topics_bytes (unsubscribe_topics m)).
Proof. unfold UnsubscribeMessage_size. apply unsubscribe_size_fold. Qed.

Lemma UnsubscribeMessage_Encode_loop_ok (ts : list (list byte)) :
  forall (total : Z) (b : list byte),
    topics_fit ts = true ->
    UnsubscribeMessage_Encode_loop ts total b
    = (total + len (unsubscribe_topics_bytes ts), None, b ++ unsubscribe_topics_bytes ts).
Proof.
  induction ts as [| t ts IH]; intros total b Hfit.
  - cbn [UnsubscribeMessage_Encode_loop]. change (unsubscribe_topics_bytes []) with (@nil byte).
    rewrite app_nil_r. change (len (@nil byte)) with 0. rewrite Z.add_0_r. reflexivity.
  - apply topics_fit_cons in Hfit. destruct Hfit as [Ht Hfit].
    cbn [UnsubscribeMessage_Encode_loop]. rewrite writeLPBytes_lp by assumption.
    rewrite IH by assumption.
    rewrite unsubscribe_topics_bytes_cons, len_app, len_lp, <- app_assoc.
    f_equal. f_equal. lia.
Qed.

Lemma unsubscribe_encode_header_fields (m : UnsubscribeMessage) :
  mtype (unsubscribe_encode_header m) = mtype (unsubscribe_header m) /\
  flags (unsubscribe_encode_header m) = flags (unsubscribe_header m).
Proof.
  unfold unsubscribe_encode_header, SetRemainingLength.
  destruct ((maxRemainingLength <? to_int32 (UnsubscribeMessage_size m))
            || (to_int32 (UnsubscribeMessage_size m) <? 0)); cbn [snd]; hdr_simpl; auto.
Qed.

(** What [UnsubscribeMessage.Encode] returns when it succeeds. *)
Lemma UnsubscribeMessage_Encode_ok (m : UnsubscribeMessage) :
  Valid (mtype (unsubscribe_header m)) = true ->
  remlen (unsubscribe_encode_header m) <= maxRemainingLength ->
  topics_fit (unsubscribe_topics m) = true ->
  let bytes := header_bytes (unsubscribe_encode_header m)
               ++ uint16_bytes (unsubscribe_packetId m)
               ++ unsubscribe_topics_bytes (unsubscribe_topics m) in
  UnsubscribeMessage_Encode m
  = mkEncoded (Some bytes) (len bytes) None
      (mkUnsubscribe (set_buf (unsubscribe_encode_header m) bytes) (unsubscribe_packetId m)
         (unsubscribe_topics m)).
Proof.
  intros Hv Hr Hfit bytes.
  destruct (unsubscribe_encode_header_fields m) as (Hmt & Hfl).
  unfold UnsubscribeMessage_Encode. fold (unsubscribe_encode_header m).
  rewrite fixedHeader_Encode_ok by (rewrite ?Hmt; assumption).
  cbn [e_err e_msg e_n e_reader]. unsub_simpl.
  rewrite writeUint16_bytes.
  rewrite UnsubscribeMessage_Encode_loop_ok by assumption. unsub_simpl.
  subst bytes. rewrite <- !app_assoc.
  f_equal. rewrite !len_app, len_header_bytes, len_uint16_bytes. lia.
Qed.

(** ** Claim C10: a body larger than the maximum remaining length *)





















(** ** CONNECT *)

Ltac conn_simpl :=
  cbv beta iota zeta delta
    [connect_set_buf connect_set_header connect_set_flags connect_set_version
     connect_set_keepAlive connect_set_protoName connect_set_clientId
     connect_set_willTopic connect_set_willMessage connect_set_username
     connect_set_password
     connect_header connectFlags version keepAlive protoName clientId willTopic
     willMessage username password
     set_buf set_flags set_remlen set_mtype buf remlen mtype flags
     ReadByte readUint16
     CleanSession WillFlag WillQos WillRetain PasswordFlag UsernameFlag].

Ltac fold_flags cf :=
  fold (flags_will_qos cf); fold (flag_bit cf 1); fold (flag_bit cf 2);
  fold (flag_bit cf 5); fold (flag_bit cf 6); fold (flag_bit cf 7).

Lemma connect_flag_accessors (m : ConnectMessage) :
  CleanSession m = flag_bit (connectFlags m) 1 /\
  WillFlag m = flag_bit (connectFlags m) 2 /\
  WillQos m = flags_will_qos (connectFlags m) /\
  WillRetain m = flag_bit (connectFlags m) 5 /\
  PasswordFlag m = flag_bit (connectFlags m) 6 /\
  UsernameFlag m = flag_bit (connectFlags m) 7.
Proof. repeat split. Qed.

(** [ConnectMessage.decodeMessage] on a buffer that holds the fields up to
    the client identifier: the checks in the order of the source, and then the
    optional fields. *)
Lemma ConnectMessage_decodeMessage_fields
  (h : fixedHeader) (cf0 v0 : byte) (ka0 : Z) (pn0 cid0 wt0 wm0 un0 pw0 : list byte)
  (name : list byte) (ver cf kh kl : byte) (cid tail : list byte) :
  len name <= maxLPString -> len cid <= maxLPString ->
  ConnectMessage_decodeMessage
    (mkConnect (set_buf h (lp name ++ ver :: cf :: kh :: kl :: lp cid ++ tail))
       cf0 v0 ka0 pn0 cid0 wt0 wm0 un0 pw0)
  = let m1 := mkConnect (set_buf h (cf :: kh :: kl :: lp cid ++ tail))
                cf0 ver ka0 name cid0 wt0 wm0 un0 pw0 in
    let m2 := mkConnect (set_buf h (kh :: kl :: lp cid ++ tail))
                cf ver ka0 name cid0 wt0 wm0 un0 pw0 in
    let m3 := mkConnect (set_buf h tail)
                cf ver (b2z kh * 256 + b2z kl) name cid wt0 wm0 un0 pw0 in
    let t1 := 0 + (2 + len name) + 1 in
    let t3 := t1 + 1 + 2 + (2 + len cid) in
    if negb (protocol_accepted ver name)
    then (t1, Some ErrConnackUnacceptableProtocolVersion, m1)
    else if negb (byte_eqb (band cf x01) x00)
    then (t1 + 1, Some ErrConnectReservedBit, m2)
    else if b2z QosExactlyOnce <? b2z (flags_will_qos cf)
    then (t1 + 1, Some ErrConnectWillQos, m2)
    else if negb (flag_bit cf 2)
            && (flag_bit cf 5 || negb (byte_eqb (flags_will_qos cf) QosAtMostOnce))
    then (t1 + 1, Some ErrConnectWillFlag, m2)
    else if flag_bit cf 7 && negb (flag_bit cf 6)
    then (t1 + 1, Some ErrConnectUsernameNoPassword, m2)
    else if (len cid =? 0) && negb (flag_bit cf 1)
    then (t3, Some ErrConnackIdentifierRejected, m3)
    else if (0 <? len cid) && negb (ValidClientId cid)
    then (t3, Some ErrConnackIdentifierRejected, m3)
    else ConnectMessage_decodeMessage_optional t3 m3.
Proof.
  intros Hn Hc. cbv zeta.
  unfold ConnectMessage_decodeMessage. conn_simpl.
  rewrite readLPBytes_lp by assumption. conn_simpl.
  unfold protocol_accepted.
  destruct (SupportedVersions ver) as [verstr |]; [| reflexivity].
  destruct (bytes_eqb verstr name); cbn [negb]; [| reflexivity].
  fold_flags cf.
  destruct (negb (byte_eqb (band cf x01) x00)); [reflexivity |].
  destruct (b2z QosExactlyOnce <? b2z (flags_will_qos cf)); [reflexivity |].
  destruct (negb (flag_bit cf 2)
            && (flag_bit cf 5 || negb (byte_eqb (flags_will_qos cf) QosAtMostOnce)));
    [reflexivity |].
  destruct (flag_bit cf 7 && negb (flag_bit cf 6)); [reflexivity |].
  rewrite readLPBytes_lp by assumption. conn_simpl. fold_flags cf.
  destruct ((len cid =? 0) && negb (flag_bit cf 1)); [reflexivity |].
  destruct ((0 <? len cid) && negb (ValidClientId cid)); [reflexivity |].
  reflexivity.
Qed.

(** [ConnectMessage.Decode] on a complete packet: the fixed header, then
    [decodeMessage] on the body. *)
Lemma ConnectMessage_Decode_frame (this : ConnectMessage) (body rest : list byte) :
  mtype (connect_header this) = CONNECT ->
  len body <= maxRemainingLength ->
  ConnectMessage_Decode this (frame CONNECT x00 body ++ rest)
  = let r := ConnectMessage_decodeMessage
               (connect_set_header this (mkFixedHeader body (len body) CONNECT x00)) in
    mkDecoded (0 + (1 + len (varint_bytes (len body))) + fst (fst r)) (snd (fst r)) (snd r) rest.
Proof.
  intros Hm Hlen. unfold ConnectMessage_Decode.
  rewrite (fixedHeader_Decode_frame (connect_header this) CONNECT x00 body rest Hm);
    try reflexivity; try assumption; try (intros E; discriminate E).
  cbn [d_err d_msg d_n d_src]. cbv zeta.
  destruct (ConnectMessage_decodeMessage
              (connect_set_header this (mkFixedHeader body (len body) CONNECT x00)))
    as [[n [e |]] m]; reflexivity.
Qed.

(** The checks of [decodeMessage] up to the connect flags, on a buffer that
    holds the protocol name, the version and the connect flags. *)
Lemma ConnectMessage_decodeMessage_flags
  (h : fixedHeader) (cf0 v0 : byte) (ka0 : Z) (pn0 cid0 wt0 wm0 un0 pw0 : list byte)
  (name : list byte) (ver cf : byte) (tail : list byte) :
  len name <= maxLPString ->
  let r := ConnectMessage_decodeMessage
             (mkConnect (set_buf h (lp name ++ ver :: cf :: tail))
                cf0 v0 ka0 pn0 cid0 wt0 wm0 un0 pw0) in
  (protocol_accepted ver name = false ->
   snd (fst r) = Some ErrConnackUnacceptableProtocolVersion) /\
  (protocol_accepted ver name = true -> connect_flags_wellformed cf = false ->
   snd (fst r) = Some ErrConnectReservedBit \/ snd (fst r) = Some ErrConnectWillQos
   \/ snd (fst r) = Some ErrConnectWillFlag) /\
  (protocol_accepted ver name = true -> connect_flags_wellformed cf = true ->
   flag_bit cf 7 = true -> flag_bit cf 6 = false ->
   snd (fst r) = Some ErrConnectUsernameNoPassword /\ connectFlags (snd r) = cf).
Proof.
  intros Hn r. subst r.
  unfold ConnectMessage_decodeMessage. conn_simpl.
  rewrite readLPBytes_lp by assumption. conn_simpl.
  unfold protocol_accepted, connect_flags_wellformed.
  destruct (SupportedVersions ver) as [verstr |];
    [| repeat split; try reflexivity; intros; discriminate].
  destruct (bytes_eqb verstr name);
    [| repeat split; try reflexivity; intros; discriminate].
  fold_flags cf.
  destruct (byte_eqb (band cf x01) x00); cbn [negb andb];
    [| repeat split; intros; try discriminate; auto].
  destruct (b2z QosExactlyOnce <? b2z (flags_will_qos cf)); cbn [negb andb];
    [repeat split; intros; try discriminate; auto |].
  destruct (negb (flag_bit cf 2)
            && (flag_bit cf 5 || negb (byte_eqb (flags_will_qos cf) QosAtMostOnce)));
    cbn [negb andb]; [repeat split; intros; try discriminate; auto |].
  split; [intros; discriminate |]. split; [intros; discriminate |].
  intros _ _ H7 H6. rewrite H7, H6. cbn [negb andb snd fst connectFlags]. auto.
Qed.

(** The errors of the last part of [decodeMessage]. *)
Lemma readLPBytes_err (b : list byte) :
  snd (fst (readLPBytes b)) = None \/ snd (fst (readLPBytes b)) = Some ErrInsufficientBuffer.
Proof.
  unfold readLPBytes. destruct b as [| b0 [| b1 r]]; cbn [readUint16]; auto.
  destruct (len r <? b2z b0 * 256 + b2z b1); cbn; auto.
Qed.

Lemma ConnectMessage_decodeMessage_optional_err (total : Z) (this : ConnectMessage) :
  In (snd (fst (ConnectMessage_decodeMessage_optional total this)))
     [None; Some ErrInsufficientBuffer; Some ErrConnectTrailing].
Proof.
  unfold ConnectMessage_decodeMessage_optional.
  repeat match goal with
         | |- context [readLPBytes ?b] =>
             let H := fresh "H" in
             pose proof (readLPBytes_err b) as H;
             destruct (readLPBytes b) as [[[? ?] [?|]] ?]; cbn [fst snd] in H;
             (destruct H as [H | H]; [try discriminate H | try discriminate H; try (inversion H; subst)])
         | |- context [if ?c then _ else _] => destruct c
         end; cbn [fst snd In]; auto.
Qed.

(** The errors of [fixedHeader.Decode]. *)
Lemma fixedHeader_Decode_errors (h : fixedHeader) (src : list byte) :
  In (d_err (fixedHeader_Decode h src))
     [None; Some EOF; Some ErrInvalidMessageType; Some ErrUnexpectedMessageType;
      Some ErrInvalidFlags; Some ErrInvalidPublishQos; Some ErrMalformedRemlen;
      Some ErrHeaderDecodeSize].
Proof.
  destruct src as [| b src].
  - cbn [In]. right. left. reflexivity.
  - rewrite (fixedHeader_destruct h), fixedHeader_Decode_cons. cbv zeta.
    destruct (negb (Valid (type_nibble b))); [cbn; tauto |].
    destruct (negb (type_nibble b =? mtype h)); [cbn; tauto |].
    destruct (negb (mtype h =? PUBLISH)
              && negb (byte_eqb (flags_nibble b) (DefaultFlags (mtype h)))); [cbn; tauto |].
    destruct ((mtype h =? PUBLISH) && negb (ValidQos (flags_qos (flags_nibble b))));
      [cbn; tauto |].
    destruct (readVarint32_err (Some []) src) as [E | [E | E]]; rewrite E.
    + repeat match goal with
             | |- context [if ?c then _ else _] => destruct c
             end; cbn [d_err In]; tauto.
    + cbn [d_err In]; tauto.
    + cbn [d_err In]; tauto.
Qed.

(** The only place where [decodeMessage] returns the error of the user name
    and password flags is its check [UsernameFlag && !PasswordFlag]. *)
Lemma ConnectMessage_decodeMessage_username_error (this : ConnectMessage) :
  snd (fst (ConnectMessage_decodeMessage this)) = Some ErrConnectUsernameNoPassword ->
  flag_bit (connectFlags (snd (ConnectMessage_decodeMessage this))) 7 = true /\
  flag_bit (connectFlags (snd (ConnectMessage_decodeMessage this))) 6 = false.
Proof.
  unfold ConnectMessage_decodeMessage.
  destruct (readLPBytes (buf (connect_header this))) as [[[s n] [e |]] b] eqn:E1.
  { pose proof (readLPBytes_err (buf (connect_header this))) as H. rewrite E1 in H.
    cbn [fst snd] in *. destruct H as [H | H]; inversion H; subst. intros H'. discriminate H'. }
  conn_simpl.
  destruct b as [| v b]; [intros H; discriminate H |].
  destruct (SupportedVersions v) as [verstr |]; [| intros H; discriminate H].
  destruct (negb (bytes_eqb verstr s)); [intros H; discriminate H |].
  destruct b as [| f b]; [intros H; discriminate H |].
  fold_flags f.
  destruct (negb (byte_eqb (band f x01) x00)); [intros H; discriminate H |].
  destruct (b2z QosExactlyOnce <? b2z (flags_will_qos f)); [intros H; discriminate H |].
  destruct (negb (flag_bit f 2)
            && (flag_bit f 5 || negb (byte_eqb (flags_will_qos f) QosAtMostOnce)));
    [intros H; discriminate H |].
  destruct (flag_bit f 7 && negb (flag_bit f 6)) eqn:EU.
  { intros _. cbn [snd connectFlags]. apply andb_prop in EU. destruct EU as [EU1 EU2].
    split; [exact EU1 |]. destruct (flag_bit f 6); [discriminate EU2 | reflexivity]. }
  destruct b as [| kh [| kl b]]; try (intros H; discriminate H).
  match goal with
  | |- context [readLPBytes ?x] =>
      pose proof (readLPBytes_err x) as Hc;
      destruct (readLPBytes x) as [[[s2 n2] [e2 |]] b2]; cbn [fst snd] in Hc
  end.
  { destruct Hc as [Hc | Hc]; inversion Hc; subst. intros H; discriminate H. }
  destruct ((len s2 =? 0) && negb (flag_bit f 1)); [intros H; discriminate H |].
  destruct ((0 <? len s2) && negb (ValidClientId s2)); [intros H; discriminate H |].
  match goal with
  | |- context [ConnectMessage_decodeMessage_optional ?t ?m] =>
      pose proof (ConnectMessage_decodeMessage_optional_err t m) as Ho;
      destruct (ConnectMessage_decodeMessage_optional t m) as [[n3 e3] m3]
  end.
  cbn [fst snd In] in *. intros ->.
  destruct Ho as [Ho | [Ho | [Ho | []]]]; discriminate Ho.
Qed.

(** ** Claim C2: the user name and password flags of CONNECT *)

Lemma ConnectMessage_Decode_username_error (this : ConnectMessage) (src : list byte) :
  d_err (ConnectMessage_Decode this src) = Some ErrConnectUsernameNoPassword ->
  flag_bit (connectFlags (d_msg (ConnectMessage_Decode this src))) 7 = true /\
  flag_bit (connectFlags (d_msg (ConnectMessage_Decode this src))) 6 = false.
Proof.
  unfold ConnectMessage_Decode.
  pose proof (fixedHeader_Decode_errors (connect_header this) src) as Hh.
  destruct (fixedHeader_Decode (connect_header this) src) as [n [e |] h s];
    cbn [d_err d_msg d_n d_src In] in *.
  - intros H. inversion H; subst.
    repeat (destruct Hh as [Hh | Hh]; [discriminate Hh |]). contradiction.
  - pose proof (ConnectMessage_decodeMessage_username_error (connect_set_header this h)) as Hd.
    destruct (ConnectMessage_decodeMessage (connect_set_header this h)) as [[n' [e' |]] m'];
      cbn [fst snd d_err d_msg] in *; [| intros H; discriminate H].
    intros H. apply Hd. exact H.
Qed.

Lemma connect_struct (this : ConnectMessage) (h : fixedHeader) :
  connect_set_header this h
  = mkConnect (set_buf h (buf h)) (connectFlags this) (version this) (keepAlive this)
      (protoName this) (clientId this) (willTopic this) (willMessage this)
      (username this) (password this).
Proof. destruct h. reflexivity. Qed.

(** C2, the claim as stated fails in both of its parts: the CONNECT packet
    with connect flags 0x42 (password flag set, user name flag unset) is
    decoded without error, and the same packet with connect flags 0x82 (user
    name flag set, password flag unset) is rejected with the error of this very
    combination of flags. *)
Lemma connect_flags_counterexample :
  let packet (cf : byte) :=
    [x10; x0c; x00; x04; x4d; x51; x54; x54; x04; cf; x00; x0a; x00; x00] in
  (flag_bit x42 6 = true /\ flag_bit x42 7 = false /\
   d_err (ConnectMessage_Decode NewConnectMessage (packet x42)) = None) /\
  (flag_bit x82 7 = true /\ flag_bit x82 6 = false /\
   d_err (ConnectMessage_Decode NewConnectMessage (packet x82))
   = Some ErrConnectUsernameNoPassword).
Proof. repeat split. Qed.

(** C2 (amended): [ConnectMessage.Decode] fails on every CONNECT packet whose
    connect-flags byte has the user name flag (bit 7) set and the password flag
    (bit 6) unset, and when the protocol name and the other flag bits are
    accepted it fails with the error of this combination of flags; this error
    is returned for no other flags, so that a packet with the password flag
    set and the user name flag unset is not rejected for its flags: such a
    packet with a registered protocol, the clean-session bit and an empty
    client identifier is decoded. *)
Theorem connect_username_password_flags :
  (forall (this : ConnectMessage) (name : list byte) (ver cf : byte) (tail rest : list byte),
      mtype (connect_header this) = CONNECT ->
      len name <= maxLPString ->
      len (lp name ++ ver :: cf :: tail) <= maxRemainingLength ->
      flag_bit cf 7 = true -> flag_bit cf 6 = false ->
      let r := ConnectMessage_Decode this
                 (frame CONNECT x00 (lp name ++ ver :: cf :: tail) ++ rest) in
      (exists e, d_err r = Some e) /\
      (protocol_accepted ver name = true -> connect_flags_wellformed cf = true ->
       d_err r = Some ErrConnectUsernameNoPassword)) /\
  (forall (this : ConnectMessage) (src : list byte),
      let r := ConnectMessage_Decode this src in
      d_err r = Some ErrConnectUsernameNoPassword ->
      flag_bit (connectFlags (d_msg r)) 7 = true /\
      flag_bit (connectFlags (d_msg r)) 6 = false) /\
  (forall (this : ConnectMessage) (name : list byte) (ver kh kl : byte) (rest : list byte),
      mtype (connect_header this) = CONNECT ->
      len name <= maxLPString ->
      protocol_accepted ver name = true ->
      let r := ConnectMessage_Decode this
                 (frame CONNECT x00 (lp name ++ ver :: x42 :: kh :: kl :: lp []) ++ rest) in
      flag_bit x42 6 = true /\ flag_bit x42 7 = false /\
      d_err r = None /\ connectFlags (d_msg r) = x42).
Proof.
  split; [| split].
  - intros this name ver cf tail rest Hm Hn Hlen H7 H6 r. subst r.
    rewrite ConnectMessage_Decode_frame by assumption. cbv zeta. cbn [d_err].
    rewrite connect_struct. cbn [buf].
    destruct (ConnectMessage_decodeMessage_flags
                (mkFixedHeader (lp name ++ ver :: cf :: tail)
                   (len (lp name ++ ver :: cf :: tail)) CONNECT x00)
                (connectFlags this) (version this) (keepAlive this) (protoName this)
                (clientId this) (willTopic this) (willMessage this) (username this)
                (password this) name ver cf tail Hn) as (Hp & Hw & Hu).
    destruct (protocol_accepted ver name) eqn:Ep.
    + destruct (connect_flags_wellformed cf) eqn:Ew.
      * destruct (Hu eq_refl eq_refl H7 H6) as [He _]. rewrite He.
        split; [eexists; reflexivity | auto].
      * split; [| intros _ H; discriminate H].
        destruct (Hw eq_refl eq_refl) as [He | [He | He]]; rewrite He; eexists; reflexivity.
    + rewrite (Hp eq_refl). split; [eexists; reflexivity | intros H; discriminate H].
  - intros this src r. subst r. apply ConnectMessage_Decode_username_error.
  - intros this name ver kh kl rest Hm Hn Hp r. subst r.
    assert (Hlen : len (lp name ++ ver :: x42 :: kh :: kl :: lp []) <= maxRemainingLength).
    { rewrite len_app, len_lp, !len_cons. unfold maxLPString, maxRemainingLength in *.
      change (len (lp [])) with 2. lia. }
    rewrite ConnectMessage_Decode_frame by assumption. cbv zeta. cbn [d_err d_msg].
    rewrite connect_struct. cbn [buf].
    pose proof (ConnectMessage_decodeMessage_fields
                  (mkFixedHeader (lp name ++ ver :: x42 :: kh :: kl :: lp [])
                     (len (lp name ++ ver :: x42 :: kh :: kl :: lp [])) CONNECT x00)
                  (connectFlags this) (version this) (keepAlive this) (protoName this)
                  (clientId this) (willTopic this) (willMessage this) (username this)
                  (password this) name ver x42 kh kl [] [] Hn) as Hf.
    rewrite app_nil_r in Hf. rewrite Hf by (unfold maxLPString; cbn; lia).
    cbv zeta. rewrite Hp. cbn [negb].
    repeat split.
Qed.

Lemma connect_username_password_flags_witness :
  (exists e,
      d_err (ConnectMessage_Decode NewConnectMessage
               [x10; x0c; x00; x04; x4d; x51; x54; x54; x04; x82; x00; x0a; x00; x00])
      = Some e) /\
  d_err (ConnectMessage_Decode NewConnectMessage
           [x10; x0c; x00; x04; x4d; x51; x54; x54; x04; x42; x00; x0a; x00; x00]) = None.
Proof.
  split.
  - refine (proj1 (proj1 connect_username_password_flags NewConnectMessage
                     [x4d; x51; x54; x54] x04 x82 [x00; x0a; x00; x00] []
                     _ _ _ _ _)); try reflexivity; vm_compute; discriminate.
  - refine (proj1 (proj2 (proj2 (proj2 (proj2 connect_username_password_flags)
              NewConnectMessage [x4d; x51; x54; x54] x04 x00 x0a [] _ _ _))));
      try reflexivity; vm_compute; discriminate.
Defined.

(** ** Claim C5: the client identifier of CONNECT *)

Lemma ValidClientId_outside (cid : list byte) :
  (exists c, In c cid /\ alnum c = false) -> ValidClientId cid = false.
Proof.
  intros (c & Hin & Hc). unfold ValidClientId.
  destruct (forallb alnum cid) eqn:E; [| reflexivity].
  rewrite forallb_forall in E. rewrite (E c Hin) in Hc. discriminate Hc.
Qed.

(** The outcome of [ConnectMessage.Decode] on a CONNECT packet that holds the
    fields up to the client identifier. *)
Lemma ConnectMessage_Decode_fields (this : ConnectMessage) (name : list byte)
  (ver cf kh kl : byte) (cid tail rest : list byte) :
  mtype (connect_header this) = CONNECT ->
  len name <= maxLPString -> len cid <= maxLPString ->
  len (lp name ++ ver :: cf :: kh :: kl :: lp cid ++ tail) <= maxRemainingLength ->
  let body := lp name ++ ver :: cf :: kh :: kl :: lp cid ++ tail in
  let m3 := mkConnect (mkFixedHeader tail (len body) CONNECT x00)
              cf ver (b2z kh * 256 + b2z kl) name cid
              (willTopic this) (willMessage this) (username this) (password this) in
  let t3 := 0 + (2 + len name) + 1 + 1 + 2 + (2 + len cid) in
  d_err (ConnectMessage_Decode this (frame CONNECT x00 body ++ rest))
  = if negb (protocol_accepted ver name)
    then Some ErrConnackUnacceptableProtocolVersion
    else if negb (byte_eqb (band cf x01) x00) then Some ErrConnectReservedBit
    else if b2z QosExactlyOnce <? b2z (flags_will_qos cf) then Some ErrConnectWillQos
    else if negb (flag_bit cf 2)
            && (flag_bit cf 5 || negb (byte_eqb (flags_will_qos cf) QosAtMostOnce))
    then Some ErrConnectWillFlag
    else if flag_bit cf 7 && negb (flag_bit cf 6) then Some ErrConnectUsernameNoPassword
    else if (len cid =? 0) && negb (flag_bit cf 1) then Some ErrConnackIdentifierRejected
    else if (0 <? len cid) && negb (ValidClientId cid) then Some ErrConnackIdentifierRejected
    else snd (fst (ConnectMessage_decodeMessage_optional t3 m3)).
Proof.
  intros Hm Hn Hc Hlen body m3 t3. subst body m3 t3.
  rewrite ConnectMessage_Decode_frame by assumption. cbv zeta. cbn [d_err].
  rewrite connect_struct. cbn [buf].
  rewrite ConnectMessage_decodeMessage_fields by assumption. cbv zeta.
  repeat match goal with
         | |- context [if ?c then _ else _] => destruct c; [reflexivity |]
         end.
  reflexivity.
Qed.

(** C5: [ConnectMessage.Decode] fails on every CONNECT packet with an empty
    client identifier and the clean-session bit unset, and on every CONNECT
    packet whose client identifier holds a character outside 0-9, a-z, A-Z;
    when the checks that come before (protocol name and version, connect
    flags) pass, the error is identifier-rejected.  With an empty client
    identifier and the clean-session bit set the error identifier-rejected is
    never returned, and the packet that has no other flag and nothing after the
    identifier is decoded. *)
Theorem connect_client_identifier :
  (forall (this : ConnectMessage) (name : list byte) (ver cf kh kl : byte)
          (tail rest : list byte),
      mtype (connect_header this) = CONNECT -> len name <= maxLPString ->
      len (lp name ++ ver :: cf :: kh :: kl :: lp [] ++ tail) <= maxRemainingLength ->
      let r := ConnectMessage_Decode this
                 (frame CONNECT x00 (lp name ++ ver :: cf :: kh :: kl :: lp [] ++ tail) ++ rest) in
      (flag_bit cf 1 = false ->
       (exists e, d_err r = Some e) /\
       (protocol_accepted ver name = true -> connect_flags_wellformed cf = true ->
        flag_bit cf 7 && negb (flag_bit cf 6) = false ->
        d_err r = Some ErrConnackIdentifierRejected)) /\
      (flag_bit cf 1 = true -> d_err r <> Some ErrConnackIdentifierRejected)) /\
  (forall (this : ConnectMessage) (name : list byte) (ver kh kl : byte) (rest : list byte),
      mtype (connect_header this) = CONNECT -> len name <= maxLPString ->
      protocol_accepted ver name = true ->
      let r := ConnectMessage_Decode this
                 (frame CONNECT x00 (lp name ++ ver :: x02 :: kh :: kl :: lp []) ++ rest) in
      flag_bit x02 1 = true /\ d_err r = None /\ clientId (d_msg r) = []) /\
  (forall (this : ConnectMessage) (name : list byte) (ver cf kh kl : byte)
          (cid tail rest : list byte),
      mtype (connect_header this) = CONNECT -> len name <= maxLPString ->
      len cid <= maxLPString ->
      len (lp name ++ ver :: cf :: kh :: kl :: lp cid ++ tail) <= maxRemainingLength ->
      (exists c, In c cid /\ alnum c = false) ->
      let r := ConnectMessage_Decode this
                 (frame CONNECT x00 (lp name ++ ver :: cf :: kh :: kl :: lp cid ++ tail) ++ rest) in
      (exists e, d_err r = Some e) /\
      (protocol_accepted ver name = true -> connect_flags_wellformed cf = true ->
       flag_bit cf 7 && negb (flag_bit cf 6) = false ->
       d_err r = Some ErrConnackIdentifierRejected)).
Proof.
  split; [| split].
  - intros this name ver cf kh kl tail rest Hm Hn Hlen r. subst r.
    pose proof (ConnectMessage_Decode_fields this name ver cf kh kl [] tail rest Hm Hn
                  ltac:(unfold maxLPString; cbn; lia) Hlen) as Hd.
    cbv zeta in Hd. rewrite Hd. clear Hd. unfold connect_flags_wellformed.
    change (len (@nil byte) =? 0) with true. change (0 <? len (@nil byte)) with false.
    cbn [andb].
    split.
    + intros H1. rewrite H1. cbn [negb]. split.
      * repeat match goal with
               | |- context [if ?c then _ else _] => destruct c; [eexists; reflexivity |]
               end.
        eexists; reflexivity.
      * intros Hp Hw Hu. rewrite Hp, Hu. cbn [negb].
        apply andb_prop in Hw. destruct Hw as [Hw Hw3]. apply andb_prop in Hw.
        destruct Hw as [Hw1 Hw2]. rewrite Hw1. cbn [negb].
        destruct (b2z QosExactlyOnce <? b2z (flags_will_qos cf)); [discriminate Hw2 |].
        destruct (negb (flag_bit cf 2)
                  && (flag_bit cf 5 || negb (byte_eqb (flags_will_qos cf) QosAtMostOnce)));
          [discriminate Hw3 | reflexivity].
    + intros H1. rewrite H1. cbn [negb].
      repeat match goal with
             | |- context [if ?c then _ else _] => destruct c; [discriminate |]
             end.
      match goal with
      | |- context [ConnectMessage_decodeMessage_optional ?t ?m] =>
          pose proof (ConnectMessage_decodeMessage_optional_err t m) as Ho
      end.
      cbn [In] in Ho. intros E. rewrite E in Ho.
      destruct Ho as [Ho | [Ho | [Ho | []]]]; discriminate Ho.
  - intros this name ver kh kl rest Hm Hn Hp r. subst r.
    assert (Hlen : len (lp name ++ ver :: x02 :: kh :: kl :: lp []) <= maxRemainingLength).
    { rewrite len_app, len_lp, !len_cons. unfold maxLPString, maxRemainingLength in *.
      change (len (lp [])) with 2. lia. }
    rewrite ConnectMessage_Decode_frame by assumption. cbv zeta. cbn [d_err d_msg].
    rewrite connect_struct. cbn [buf].
    pose proof (ConnectMessage_decodeMessage_fields
                  (mkFixedHeader (lp name ++ ver :: x02 :: kh :: kl :: lp [])
                     (len (lp name ++ ver :: x02 :: kh :: kl :: lp [])) CONNECT x00)
                  (connectFlags this) (version this) (keepAlive this) (protoName this)
                  (clientId this) (willTopic this) (willMessage this) (username this)
                  (password this) name ver x02 kh kl [] [] Hn) as Hf.
    rewrite app_nil_r in Hf. rewrite Hf by (unfold maxLPString; cbn; lia).
    cbv zeta. rewrite Hp. cbn [negb].
    repeat split.
  - intros this name ver cf kh kl cid tail rest Hm Hn Hc Hlen Hout r. subst r.
    pose proof (ConnectMessage_Decode_fields this name ver cf kh kl cid tail rest Hm Hn Hc Hlen)
      as Hd.
    cbv zeta in Hd. rewrite Hd. clear Hd. unfold connect_flags_wellformed.
    rewrite (ValidClientId_outside cid Hout).
    assert (Hpos : (0 <? len cid) = true).
    { destruct Hout as (c & Hin & _). destruct cid as [| c0 cid]; [contradiction |].
      rewrite len_cons. pose proof (len_nonneg cid). apply Z.ltb_lt. lia. }
    rewrite Hpos. cbn [negb andb]. split.
    + repeat match goal with
             | |- context [if ?c then _ else _] => destruct c; [eexists; reflexivity |]
             end.
      eexists; reflexivity.
    + intros Hp Hw Hu. rewrite Hp, Hu. cbn [negb].
      apply andb_prop in Hw. destruct Hw as [Hw Hw3]. apply andb_prop in Hw.
      destruct Hw as [Hw1 Hw2]. rewrite Hw1. cbn [negb].
      destruct (b2z QosExactlyOnce <? b2z (flags_will_qos cf)); [discriminate Hw2 |].
      destruct (negb (flag_bit cf 2)
                && (flag_bit cf 5 || negb (byte_eqb (flags_will_qos cf) QosAtMostOnce)));
        [discriminate Hw3 |].
      destruct ((len cid =? 0) && negb (flag_bit cf 1)); reflexivity.
Qed.

Lemma connect_client_identifier_witness :
  (exists e,
      d_err (ConnectMessage_Decode NewConnectMessage
               [x10; x0c; x00; x04; x4d; x51; x54; x54; x04; x00; x00; x0a; x00; x00])
      = Some e) /\
  d_err (ConnectMessage_Decode NewConnectMessage
           [x10; x0c; x00; x04; x4d; x51; x54; x54; x04; x02; x00; x0a; x00; x00]) = None /\
  (exists e,
      d_err (ConnectMessage_Decode NewConnectMessage
               [x10; x0e; x00; x04; x4d; x51; x54; x54; x04; x02; x00; x0a; x00; x02; x61; x2d])
      = Some e).
Proof.
  split; [| split].
  - refine (proj1 (proj1 (proj1 connect_client_identifier NewConnectMessage
                            [x4d; x51; x54; x54] x04 x00 x00 x0a [] [] _ _ _) _));
      try reflexivity; vm_compute; discriminate.
  - refine (proj1 (proj2 (proj1 (proj2 connect_client_identifier) NewConnectMessage
                            [x4d; x51; x54; x54] x04 x00 x0a [] _ _ _)));
      try reflexivity; vm_compute; discriminate.
  - refine (proj1 (proj2 (proj2 connect_client_identifier) NewConnectMessage
                     [x4d; x51; x54; x54] x04 x02 x00 x0a [x61; x2d] [] [] _ _ _ _ _));
      try reflexivity; try (vm_compute; discriminate).
    exists x2d. split; [right; left; reflexivity | reflexivity].
Defined.

(** * Properties of the primitive codec *)

(** X1: [writeUint16] appends the two bytes of a 16-bit value, high byte first,
    and [readUint16] reads the value back from them, consuming exactly these
    two bytes; [readUint16] returns a value below 65536 whose bytes are the two
    it consumed; on a buffer of fewer than two bytes it fails and consumes
    nothing. *)
Theorem uint16_round_trip :
  (forall (n : Z) (b rest : list byte),
      0 <= n < 65536 ->
      exists hi lo,
        writeUint16 b n = b ++ [hi; lo] /\
        b2z hi = n / 256 /\ b2z lo = n mod 256 /\
        readUint16 ([hi; lo] ++ rest) = (n, None, rest)) /\
  (forall (b rest : list byte) (n : Z),
      readUint16 b = (n, None, rest) ->
      0 <= n < 65536 /\ writeUint16 [] n ++ rest = b) /\
  (forall b : list byte,
      len b < 2 -> readUint16 b = (0, Some ErrInsufficientBuffer, b)).
Proof.
  split; [| split].
  - intros n b rest Hn.
    exists (z2b (Z.shiftr n 8)), (z2b n). split; [reflexivity |].
    assert (Hhi : b2z (z2b (Z.shiftr n 8)) = n / 256).
    { rewrite Z.shiftr_div_pow2 by lia. change (2 ^ 8) with 256.
      apply z2b_small. split; [apply Z.div_pos; lia | apply Z.div_lt_upper_bound; lia]. }
    assert (Hlo : b2z (z2b n) = n mod 256).
    { apply b2z_z2b. }
    repeat split; try assumption.
    cbn [app readUint16]. rewrite Hhi, Hlo.
    f_equal. f_equal. pose proof (Z.div_mod n 256). lia.
  - intros b rest n H.
    destruct b as [| hi [| lo r]]; try discriminate H.
    cbn [readUint16] in H.
    assert (n = b2z hi * 256 + b2z lo) by congruence.
    assert (rest = r) by congruence. subst n rest.
    split; [apply uint16_range |].
    rewrite writeUint16_bytes, uint16_bytes_of_bytes. reflexivity.
  - intros b H. destruct b as [| hi [| lo r]]; try reflexivity.
    rewrite !len_cons in H. pose proof (len_nonneg r). lia.
Qed.

Lemma uint16_round_trip_witness :
  exists hi lo,
    writeUint16 [x01] 258 = [x01] ++ [hi; lo] /\
    b2z hi = 258 / 256 /\ b2z lo = 258 mod 256 /\
    readUint16 ([hi; lo] ++ [xff]) = (258, None, [xff]).
Proof.
  refine (proj1 uint16_round_trip 258 [x01] [xff] _). lia.
Defined.

(** [readLPBytes] fails on a buffer that is shorter than the two bytes of the
    length or than the length they declare. *)
Lemma readLPBytes_short (b : list byte) :
  len b < 2 -> readLPBytes b = ([], 2, Some ErrInsufficientBuffer, b).
Proof.
  intros H. unfold readLPBytes.
  destruct b as [| hi [| lo r]]; try reflexivity.
  rewrite !len_cons in H. pose proof (len_nonneg r). lia.
Qed.

Lemma readLPBytes_truncated (hi lo : byte) (r : list byte) :
  len r < b2z hi * 256 + b2z lo ->
  readLPBytes (hi :: lo :: r) = ([], 2, Some ErrInsufficientBuffer, r).
Proof.
  intros H. unfold readLPBytes. cbn [readUint16].
  apply Z.ltb_lt in H. rewrite H. reflexivity.
Qed.

(** X2: [writeLPBytes] appends a byte string of at most 65535 bytes behind its
    two-byte length, and [readLPBytes] reads the string back from these bytes,
    consuming exactly them; what [readLPBytes] accepts is what [writeLPBytes]
    writes for the string it returns; a longer string is refused by
    [writeLPBytes] with nothing written; and [readLPBytes] fails, with a count
    of 2, when the buffer lacks the length bytes or holds fewer bytes than
    they declare. *)
Theorem length_prefixed_round_trip :
  (forall b s rest : list byte,
      len s <= maxLPString ->
      exists bs,
        writeLPBytes b s = (2 + len s, None, b ++ bs) /\
        len bs = 2 + len s /\
        readLPBytes (bs ++ rest) = (s, 2 + len s, None, rest)) /\
  (forall (b s rest : list byte) (n : Z),
      readLPBytes b = (s, n, None, rest) ->
      writeLPBytes [] s = (n, None, firstn (Z.to_nat n) b) /\
      b = firstn (Z.to_nat n) b ++ rest) /\
  (forall b s : list byte,
      maxLPString < len s -> writeLPBytes b s = (0, Some ErrLengthGreater, b)) /\
  (forall b : list byte,
      len b < 2 ->
      readLPBytes b = ([], 2, Some ErrInsufficientBuffer, b)) /\
  (forall (hi lo : byte) (r : list byte),
      len r < b2z hi * 256 + b2z lo ->
      readLPBytes (hi :: lo :: r) = ([], 2, Some ErrInsufficientBuffer, r)).
Proof.
  split; [| split; [| split; [| split]]].
  - intros b s rest Hs. exists (lp s).
    rewrite writeLPBytes_lp, readLPBytes_lp, len_lp by assumption. auto.
  - intros b s rest n H. apply readLPBytes_inv in H. destruct H as (Hb & Hn & Hs).
    assert (Hf : firstn (Z.to_nat n) b = lp s).
    { subst b n. rewrite <- len_lp. apply firstn_len_app. }
    rewrite Hf, writeLPBytes_lp by assumption. cbn [app]. subst n. auto.
  - intros b s. apply writeLPBytes_too_long.
  - apply readLPBytes_short.
  - apply readLPBytes_truncated.
Qed.

Lemma length_prefixed_round_trip_witness :
  (exists bs,
      writeLPBytes [xff] [x61; x62] = (2 + len [x61; x62], None, [xff] ++ bs) /\
      len bs = 2 + len [x61; x62] /\
      readLPBytes (bs ++ [x00]) = ([x61; x62], 2 + len [x61; x62], None, [x00])) /\
  readLPBytes [x00; x03; x61] = ([], 2, Some ErrInsufficientBuffer, [x61]).
Proof.
  split.
  - refine (proj1 length_prefixed_round_trip [xff] [x61; x62] [x00] _).
    vm_compute. discriminate.
  - refine (proj2 (proj2 (proj2 (proj2 length_prefixed_round_trip))) x00 x03 [x61] _).
    vm_compute. reflexivity.
Defined.

(** * Properties of the remaining-length varint *)

Lemma len_varint_bytes (x : Z) :
  0 <= x <= maxRemainingLength -> len (varint_bytes x) = varint_size x.
Proof.
  unfold maxRemainingLength. intros Hx.
  unfold varint_bytes, writeVarint32, varint_size, maxRemainingLength.
  destruct (Z.ltb_spec 268435455 x) as [H | _]; [lia |].
  assert (H1 : Z.shiftr x 7 = x / 128) by (rewrite Z.shiftr_div_pow2 by lia; reflexivity).
  assert (H2 : Z.shiftr (Z.shiftr x 7) 7 = x / 16384).
  { rewrite H1, Z.shiftr_div_pow2 by lia. change (2 ^ 7) with 128.
    rewrite Z.div_div by lia. reflexivity. }
  assert (H3 : Z.shiftr (Z.shiftr (Z.shiftr x 7) 7) 7 = x / 2097152).
  { rewrite H2, Z.shiftr_div_pow2 by lia. change (2 ^ 7) with 128.
    rewrite Z.div_div by lia. reflexivity. }
  cbn [writeVarint32_loop].
  destruct (Z.leb_spec 128 x) as [G1 | G1];
    [| destruct (Z.ltb_spec x 128); [reflexivity | lia]].
  destruct (Z.ltb_spec x 128) as [K | _]; [lia |].
  rewrite H1.
  destruct (Z.leb_spec 128 (x / 128)) as [G2 | G2].
  - destruct (Z.ltb_spec x 16384) as [K | _].
    { apply (Z.div_lt_upper_bound x 128 128) in K; lia. }
    rewrite <- H1, H2.
    destruct (Z.leb_spec 128 (x / 16384)) as [G3 | G3].
    + destruct (Z.ltb_spec x 2097152) as [K | _].
      { apply (Z.div_lt_upper_bound x 16384 128) in K; lia. }
      rewrite <- H2, H3.
      destruct (Z.leb_spec 128 (x / 2097152)) as [G4 | G4].
      * assert (x / 2097152 < 128) by (apply Z.div_lt_upper_bound; lia). lia.
      * reflexivity.
    + destruct (Z.ltb_spec x 2097152) as [_ | K]; [reflexivity |].
      assert (128 <= x / 16384) by (apply Z.div_le_lower_bound; lia). lia.
  - destruct (Z.ltb_spec x 16384) as [_ | K]; [reflexivity |].
    assert (128 <= x / 128) by (apply Z.div_le_lower_bound; lia). lia.
Qed.

(** X3: for every remaining length between 0 and 268,435,455 [writeVarint32]
    succeeds and writes 1, 2, 3 or 4 bytes according to whether the value is
    below 128, 16384, 2097152 or not, and [readVarint32] reads the value back
    from these bytes, whatever follows them: it consumes exactly the bytes
    written, returns their number and copies them to its writer when it has
    one; a larger value is refused by [writeVarint32] with nothing written. *)
Theorem varint_round_trip_all :
  (forall x : Z,
      0 <= x <= maxRemainingLength ->
      exists bs,
        len bs = varint_size x /\
        (forall dst, writeVarint32 dst x = (varint_size x, None, dst ++ bs)) /\
        (forall dst rest,
            readVarint32 dst (bs ++ rest)
            = mkVarintResult x (varint_size x) None
                (match dst with Some d => Some (d ++ bs) | None => None end) rest)) /\
  (forall (x : Z) (dst : list byte),
      maxRemainingLength < x -> writeVarint32 dst x = (0, Some ErrExceededMaximum, dst)).
Proof.
  split.
  - intros x Hx. exists (varint_bytes x).
    destruct (varint_bytes_spec x Hx) as (_ & Hw & Hr).
    rewrite <- (len_varint_bytes x Hx). auto.
  - intros x dst H. unfold writeVarint32. apply Z.ltb_lt in H. rewrite H. reflexivity.
Qed.

Lemma varint_round_trip_all_witness :
  exists bs,
    len bs = varint_size 321 /\
    (forall dst, writeVarint32 dst 321 = (varint_size 321, None, dst ++ bs)) /\
    (forall dst rest,
        readVarint32 dst (bs ++ rest)
        = mkVarintResult 321 (varint_size 321) None
            (match dst with Some d => Some (d ++ bs) | None => None end) rest).
Proof.
  refine (proj1 varint_round_trip_all 321 _). vm_compute. split; discriminate.
Defined.

Lemma varint_value_bound (bs : list byte) :
  0 <= varint_value bs < 128 ^ len bs.
Proof.
  induction bs as [| b bs IH].
  - cbn. lia.
  - cbn [varint_value]. rewrite len_cons.
    pose proof (len_nonneg bs). replace (1 + len bs) with (Z.succ (len bs)) by lia.
    rewrite Z.pow_succ_r by assumption.
    rewrite band_x7f_mod. pose proof (Z.mod_pos_bound (b2z b) 128). lia.
Qed.

(** The read loop on bytes with the continuation bit followed by one without. *)
Lemma readVarint32_loop_value (pre : list byte) :
  forall (k : nat) (i s x : Z) (got : list byte) (b : byte) (rest : list byte),
    Forall (fun c => continuation c = true) pre -> continuation b = false ->
    (length pre < k)%nat -> 0 <= s -> 0 <= x < 2 ^ s ->
    readVarint32_loop k i s x got (pre ++ b :: rest)
    = LoopEnd (x + varint_value (pre ++ [b]) * 2 ^ s) (i + len pre) (got ++ pre ++ [b]) rest.
Proof.
  induction pre as [| c pre IH]; intros k i s x got b rest Hpre Hb Hk Hs Hx.
  - destruct k as [| k]; [inversion Hk |].
    cbn [app readVarint32_loop varint_value]. apply continuation_lt in Hb.
    destruct (Z.ltb_spec (b2z b) 128) as [_ | H]; [| lia].
    rewrite lor_shiftl_add by assumption.
    rewrite band_x7f_mod, Z.mod_small by (pose proof (b2z_range b); lia).
    change (len (@nil byte)) with 0. f_equal; lia.
  - destruct k as [| k]; [inversion Hk |].
    inversion Hpre as [| c' pre' Hc Hpre']; subst.
    cbn [app readVarint32_loop]. apply continuation_ge in Hc.
    destruct (Z.ltb_spec (b2z c) 128) as [H | _]; [lia |].
    assert (Hm : 0 <= b2z (band c x7f) < 128).
    { rewrite band_x7f_mod. apply Z.mod_pos_bound. lia. }
    assert (Hp : 2 ^ (s + 7) = 128 * 2 ^ s).
    { rewrite Z.pow_add_r by lia. change (2 ^ 7) with 128. lia. }
    rewrite lor_shiftl_add by assumption.
    rewrite IH; try assumption.
    + rewrite len_cons. cbn [varint_value app]. rewrite Hp, <- !app_assoc. cbn [app].
      f_equal; lia.
    + cbn [length] in Hk. lia.
    + lia.
    + rewrite Hp. nia.
Qed.

(** The read loop on a source that ends before a byte without continuation bit. *)
Lemma readVarint32_loop_eof (src : list byte) :
  forall (k : nat) (i s x : Z) (got : list byte),
    Forall (fun c => continuation c = true) src -> (length src < k)%nat ->
    readVarint32_loop k i s x got src = LoopErr (i + len src) EOF [].
Proof.
  induction src as [| c src IH]; intros k i s x got Hsrc Hk.
  - destruct k as [| k]; [inversion Hk |]. cbn [readVarint32_loop]. change (len (@nil byte)) with 0.
    f_equal. lia.
  - destruct k as [| k]; [inversion Hk |].
    inversion Hsrc as [| c' src' Hc Hsrc']; subst.
    cbn [readVarint32_loop]. apply continuation_ge in Hc.
    destruct (Z.ltb_spec (b2z c) 128) as [H | _]; [lia |].
    rewrite IH; [| assumption | cbn [length] in Hk; lia].
    rewrite len_cons. f_equal. lia.
Qed.

(** [readVarint32] on a source whose bytes have the continuation bit up to
    one, among the first four, that has not. *)
Lemma readVarint32_stops (dst : option (list byte)) (pre : list byte) (b : byte)
  (rest : list byte) :
  Forall (fun c => continuation c = true) pre -> continuation b = false ->
  len pre <= 3 ->
  readVarint32 dst (pre ++ b :: rest)
  = mkVarintResult (varint_value (pre ++ [b])) (len pre + 1) None
      (match dst with Some d => Some (d ++ pre ++ [b]) | None => None end) rest.
Proof.
  intros Hpre Hb Hlen.
  assert (Hk : (length pre < 4)%nat) by (unfold len in Hlen; lia).
  unfold readVarint32.
  rewrite (readVarint32_loop_value pre 4 0 0 0 [] b rest Hpre Hb Hk) by lia.
  change (2 ^ 0) with 1. rewrite Z.mul_1_r. cbn [app Z.add].
  pose proof (band_x80_zero b (proj1 (continuation_lt b) Hb)) as Hz.
  destruct pre as [| c0 [| c1 [| c2 [| c3 pre]]]];
    [| | | | cbn [length] in Hk; lia].
  all: cbn [app len length Z.of_nat Pos.of_succ_nat Pos.succ Z.ltb Z.eqb Z.compare
            Pos.compare Pos.compare_cont Pos.eqb orb andb nth Z.add Pos.add Z.to_nat
            Pos.to_nat Pos.iter_op Nat.add firstn];
    rewrite ?Hz; cbn [Z.ltb Z.compare]; reflexivity.
Qed.

(** [readVarint32] on a source that ends before a byte without continuation
    bit is met. *)
Lemma readVarint32_eof (dst : option (list byte)) (src : list byte) :
  Forall (fun c => continuation c = true) src -> len src <= 3 ->
  readVarint32 dst src = mkVarintResult 0 (len src + 1) (Some EOF) dst [].
Proof.
  intros Hsrc Hlen.
  assert (Hk : (length src < 4)%nat) by (unfold len in Hlen; lia).
  unfold readVarint32.
  rewrite (readVarint32_loop_eof src 4 0 0 0 [] Hsrc Hk). reflexivity.
Qed.

(** X4: the three outcomes of [readVarint32].  When one of the first four
    bytes of the source has no continuation bit, the bytes up to it are
    consumed and copied to the writer, their number is returned, and the value
    is the sum of their low seven bits, weighted by the powers of 128, which is
    at most 268,435,455; no test is made that the encoding is the shortest
    one.  When the source ends before such a byte, the error is the one of the
    reader (end of file), the value is 0 and the writer is left as it was.
    When the first four bytes all have the continuation bit, the length is
    malformed and nothing is written. *)
Theorem readVarint32_outcome :
  (forall (dst : option (list byte)) (pre : list byte) (b : byte) (rest : list byte),
      Forall (fun c => continuation c = true) pre -> continuation b = false ->
      len pre <= 3 ->
      readVarint32 dst (pre ++ b :: rest)
      = mkVarintResult (varint_value (pre ++ [b])) (len pre + 1) None
          (match dst with Some d => Some (d ++ pre ++ [b]) | None => None end) rest /\
      0 <= varint_value (pre ++ [b]) <= maxRemainingLength) /\
  (forall (dst : option (list byte)) (src : list byte),
      Forall (fun c => continuation c = true) src -> len src <= 3 ->
      readVarint32 dst src = mkVarintResult 0 (len src + 1) (Some EOF) dst []) /\
  (forall (dst : option (list byte)) (b0 b1 b2 b3 : byte) (rest : list byte),
      continuation b0 = true -> continuation b1 = true ->
      continuation b2 = true -> continuation b3 = true ->
      vr_err (readVarint32 dst (b0 :: b1 :: b2 :: b3 :: rest)) = Some ErrMalformedRemlen /\
      vr_dst (readVarint32 dst (b0 :: b1 :: b2 :: b3 :: rest)) = dst).
Proof.
  split; [| split].
  - intros dst pre b rest Hpre Hb Hlen. split.
    + apply readVarint32_stops; assumption.
    + pose proof (varint_value_bound (pre ++ [b])) as Hv.
      rewrite len_app, len_cons in Hv. change (len (@nil byte)) with 0 in Hv.
      pose proof (len_nonneg pre).
      assert (128 ^ (len pre + (1 + 0)) <= 128 ^ 4)
        by (apply Z.pow_le_mono_r; lia).
      change (128 ^ 4) with 268435456 in *. unfold maxRemainingLength. lia.
  - apply readVarint32_eof.
  - intros dst b0 b1 b2 b3 rest H0 H1 H2 H3.
    destruct (readVarint32_four_continuations b0 b1 b2 b3 rest dst H0 H1 H2 H3) as (He & _ & Hd).
    split; assumption.
Qed.

Lemma readVarint32_outcome_witness :
  readVarint32 (Some [x30]) ([x80] ++ x01 :: [x61])
  = mkVarintResult (varint_value ([x80] ++ [x01])) (len [x80] + 1) None
      (Some ([x30] ++ [x80] ++ [x01])) [x61] /\
  0 <= varint_value ([x80] ++ [x01]) <= maxRemainingLength.
Proof.
  refine (proj1 readVarint32_outcome (Some [x30]) [x80] x01 [x61] _ _ _).
  - repeat constructor.
  - reflexivity.
  - vm_compute. discriminate.
Defined.

(** The bytes [writeVarint32] writes: all have the continuation bit but the
    last. *)
Lemma writeVarint32_loop_shape (k : nat) :
  forall (x : Z) (out r : list byte),
    0 <= x -> writeVarint32_loop k x out = Some r ->
    exists pre b,
      r = out ++ pre ++ [b] /\
      Forall (fun c => continuation c = true) pre /\ continuation b = false.
Proof.
  induction k as [| k IH]; intros x out r Hx H.
  - cbn [writeVarint32_loop] in H. destruct (128 <=? x); discriminate H.
  - cbn [writeVarint32_loop] in H. destruct (Z.leb_spec 128 x) as [G | G].
    + apply IH in H; [| apply Z.shiftr_nonneg; lia].
      destruct H as (pre & b & Hr & Hpre & Hb).
      exists (bor (z2b x) x80 :: pre), b. split; [| split].
      * rewrite Hr, <- app_assoc. reflexivity.
      * constructor; [| assumption]. apply continuation_ge, bor_x80_ge.
      * assumption.
    + exists [], (z2b x). split; [| split].
      * injection H as <-. reflexivity.
      * constructor.
      * apply continuation_lt. rewrite z2b_small; lia.
Qed.

Lemma varint_bytes_shape (x : Z) :
  0 <= x <= maxRemainingLength ->
  exists pre b,
    varint_bytes x = pre ++ [b] /\
    Forall (fun c => continuation c = true) pre /\ continuation b = false /\
    len pre <= 3.
Proof.
  intros Hx. destruct (varint_bytes_spec x Hx) as (Hl & _ & _).
  unfold varint_bytes, writeVarint32 in *.
  destruct (Z.ltb_spec maxRemainingLength x) as [H | _]; [lia |].
  destruct (writeVarint32_loop 4 x []) as [bs |] eqn:E.
  - apply writeVarint32_loop_shape in E; [| lia].
    destruct E as (pre & b & Hr & Hpre & Hb). cbn [app snd] in *. subst bs.
    exists pre, b. repeat split; try assumption.
    rewrite len_app, len_cons in Hl. change (len (@nil byte)) with 0 in Hl. lia.
  - cbn [snd] in Hl. change (len (@nil byte)) with 0 in Hl. lia.
Qed.

(** * Properties of the fixed header *)

(** X5: a header with a valid type, flags of four bits that are the default
    ones of its type (for PUBLISH: that hold a valid QoS) and a remaining
    length in range is encoded by [fixedHeader.Encode] in 2 to 5 bytes, written
    to the buffer after it was reset; and [fixedHeader.Decode] of a header of
    the same type reads, from these bytes followed by a body of the remaining
    length, the flags and the remaining length back, puts the body in the
    buffer, counts the header bytes only and leaves what follows the body in
    the source. *)
Theorem fixedHeader_round_trip (h h0 : fixedHeader) (body rest : list byte) :
  Valid (mtype h) = true ->
  b2z (flags h) < 16 ->
  (mtype h <> PUBLISH -> flags h = DefaultFlags (mtype h)) ->
  (mtype h = PUBLISH -> ValidQos (flags_qos (flags h)) = true) ->
  remlen h = len body -> remlen h <= maxRemainingLength ->
  mtype h0 = mtype h ->
  exists hb,
    fixedHeader_Encode h = mkEncoded (Some hb) (len hb) None (set_buf h hb) /\
    2 <= len hb <= 5 /\
    fixedHeader_Decode h0 (hb ++ body ++ rest)
    = mkDecoded (len hb) None (mkFixedHeader body (remlen h) (mtype h) (flags h)) rest.
Proof.
  intros Hv Hf Hd Hq Hr Hmax Hm. exists (header_bytes h).
  assert (Hpos : 0 <= remlen h <= maxRemainingLength)
    by (rewrite Hr in *; pose proof (len_nonneg body); lia).
  destruct (varint_bytes_spec (remlen h) Hpos) as (Hl & _ & _).
  rewrite fixedHeader_Encode_ok, len_header_bytes by assumption.
  split; [reflexivity |]. split; [lia |].
  assert (E : header_bytes h ++ body ++ rest = frame (mtype h) (flags h) body ++ rest).
  { unfold header_bytes, frame. rewrite Hr. cbn [app]. rewrite <- app_assoc. reflexivity. }
  rewrite E, (fixedHeader_Decode_frame h0 (mtype h) (flags h) body rest); try assumption.
  - rewrite Hr. reflexivity.
  - rewrite <- Hr. exact Hmax.
Qed.

Lemma fixedHeader_round_trip_witness :
  exists hb,
    fixedHeader_Encode (mkFixedHeader [xff] 3 PUBLISH x0b)
    = mkEncoded (Some hb) (len hb) None (set_buf (mkFixedHeader [xff] 3 PUBLISH x0b) hb) /\
    2 <= len hb <= 5 /\
    fixedHeader_Decode (mkFixedHeader [] 0 PUBLISH x00) (hb ++ [x01; x02; x03] ++ [x04])
    = mkDecoded (len hb) None (mkFixedHeader [x01; x02; x03] 3 PUBLISH x0b) [x04].
Proof.
  refine (fixedHeader_round_trip (mkFixedHeader [xff] 3 PUBLISH x0b)
            (mkFixedHeader [] 0 PUBLISH x00) [x01; x02; x03] [x04] _ _ _ _ _ _ _).
  - reflexivity.
  - reflexivity.
  - intros H. exfalso. apply H. reflexivity.
  - intros _. reflexivity.
  - reflexivity.
  - vm_compute. discriminate.
  - reflexivity.
Defined.

(** [fixedHeader.Decode] once the first byte has passed its checks. *)
Lemma fixedHeader_Decode_after_first_byte (h : fixedHeader) (b : byte) (src : list byte) :
  first_byte_accepted (mtype h) b ->
  fixedHeader_Decode h (b :: src)
  = let r := readVarint32 (Some []) src in
    let d := match vr_dst r with Some d => d | None => [] end in
    match vr_err r with
    | Some e =>
        mkDecoded (1 + vr_count r) (Some e)
          (mkFixedHeader d (vr_value r) (mtype h) (flags_nibble b)) (vr_src r)
    | None =>
        let got := firstn (Z.to_nat (vr_value r)) (vr_src r) in
        let h3 := mkFixedHeader (skipn (Z.to_nat (vr_count r)) d ++ got) (vr_value r) (mtype h)
                    (flags_nibble b) in
        let src3 := skipn (Z.to_nat (vr_value r)) (vr_src r) in
        if len got <? vr_value r
        then mkDecoded (1 + vr_count r + len got) (Some EOF) h3 src3
        else if negb (vr_value r =? len (buf h3))
        then mkDecoded (1 + vr_count r) (Some ErrHeaderDecodeSize) h3 src3
        else mkDecoded (1 + vr_count r) None h3 src3
    end.
Proof.
  intros (Hv & Ht & Hf & Hq).
  rewrite (fixedHeader_destruct h) at 1. rewrite fixedHeader_Decode_cons.
  rewrite Hv, Ht, Z.eqb_refl. cbn [negb].
  assert (Hchk1 : negb (mtype h =? PUBLISH)
                  && negb (byte_eqb (flags_nibble b) (DefaultFlags (mtype h))) = false).
  { destruct (Z.eqb_spec (mtype h) PUBLISH) as [E | E]; [reflexivity |].
    rewrite (Hf E), byte_eqb_refl. reflexivity. }
  assert (Hchk2 : (mtype h =? PUBLISH) && negb (ValidQos (flags_qos (flags_nibble b))) = false).
  { destruct (Z.eqb_spec (mtype h) PUBLISH) as [E | E]; [| reflexivity].
    rewrite (Hq E). reflexivity. }
  rewrite Hchk1, Hchk2. reflexivity.
Qed.

Lemma fixedHeader_Decode_nil (h : fixedHeader) :
  fixedHeader_Decode h [] = mkDecoded 0 (Some EOF) (set_buf h []) [].
Proof.
  rewrite (fixedHeader_destruct h). reflexivity.
Qed.

Lemma prefix_of_snoc {A} (p : list A) :
  forall (pre : list A) (b c : A) (l : list A),
    pre ++ [b] = p ++ c :: l -> exists l2, pre = p ++ l2.
Proof.
  induction p as [| a p IH]; intros pre b c l H.
  - exists pre. reflexivity.
  - destruct pre as [| a' pre].
    + cbn [app] in H. injection H as _ H. destruct p; discriminate H.
    + cbn [app] in H. injection H as -> H. apply IH in H. destruct H as [l2 ->].
      exists l2. reflexivity.
Qed.

(** X6: [fixedHeader.Decode] accepts a packet whose first byte passes its
    checks and whose remaining length is the length of its body, and rejects
    every proper prefix of such a packet with the end-of-file error of the
    reader: a packet cut short anywhere, in the first byte, in the remaining
    length or in the body, is never decoded. *)
Theorem fixedHeader_Decode_truncated (h : fixedHeader) (b : byte) (body : list byte) :
  first_byte_accepted (mtype h) b ->
  len body <= maxRemainingLength ->
  d_err (fixedHeader_Decode h (b :: varint_bytes (len body) ++ body)) = None /\
  forall p q : list byte,
    b :: varint_bytes (len body) ++ body = p ++ q -> q <> [] ->
    d_err (fixedHeader_Decode h p) = Some EOF.
Proof.
  intros Hb Hlen. split.
  - rewrite <- (app_nil_r body) at 2.
    rewrite fixedHeader_Decode_packet by assumption. reflexivity.
  - intros p q Heq Hq.
    assert (Hn : 0 <= len body <= maxRemainingLength) by (pose proof (len_nonneg body); lia).
    destruct p as [| b0 p].
    { rewrite fixedHeader_Decode_nil. reflexivity. }
    cbn [app] in Heq. injection Heq as <- Heq.
    rewrite (fixedHeader_Decode_after_first_byte h b p Hb).
    apply app_eq_app in Heq. destruct Heq as [l [[Hv Hq'] | [Hp Hbody]]].
    + destruct l as [| c l].
      * rewrite app_nil_r in Hv. cbn [app] in Hq'. subst p q.
        destruct (varint_bytes_spec (len body) Hn) as (_ & _ & Hr).
        rewrite <- (app_nil_r (varint_bytes (len body))), Hr. cbv zeta.
        cbn [vr_err vr_value vr_count vr_dst vr_src].
        rewrite firstn_nil. change (len (@nil byte)) with 0.
        destruct (Z.ltb_spec 0 (len body)) as [_ | H]; [reflexivity |].
        exfalso. apply Hq. apply len_zero_nil. lia.
      * destruct (varint_bytes_shape (len body) Hn) as (pre & lb & Hs & Hpre & _ & Hl3).
        rewrite Hs in Hv. destruct (prefix_of_snoc p pre lb c l Hv) as [l2 Hl2].
        assert (Hfp : Forall (fun c => continuation c = true) p).
        { rewrite Hl2 in Hpre. apply Forall_app in Hpre. tauto. }
        assert (Hlp : len p <= 3).
        { rewrite Hl2, len_app in Hl3. pose proof (len_nonneg l2). lia. }
        rewrite (readVarint32_eof (Some []) p Hfp Hlp). reflexivity.
    + subst p.
      destruct (varint_bytes_spec (len body) Hn) as (_ & _ & Hr).
      rewrite Hr. cbv zeta. cbn [vr_err vr_value vr_count vr_dst vr_src].
      assert (Hll : len l < len body).
      { rewrite Hbody, len_app. pose proof (len_nonneg q).
        assert (len q <> 0) by (intros E; apply Hq, len_zero_nil, E). lia. }
      rewrite firstn_all2 by (unfold len in *; lia).
      apply Z.ltb_lt in Hll. rewrite Hll. reflexivity.
Qed.

Lemma fixedHeader_Decode_truncated_witness :
  d_err (fixedHeader_Decode (mkFixedHeader [] 0 PUBACK x00)
           (x40 :: varint_bytes (len [x00; x07]) ++ [x00; x07])) = None /\
  d_err (fixedHeader_Decode (mkFixedHeader [] 0 PUBACK x00) [x40; x02; x00]) = Some EOF.
Proof.
  assert (Hb : first_byte_accepted (mtype (mkFixedHeader [] 0 PUBACK x00)) x40).
  { unfold first_byte_accepted. repeat split. }
  assert (Hl : len [x00; x07] <= maxRemainingLength) by (vm_compute; discriminate).
  split.
  - exact (proj1 (fixedHeader_Decode_truncated _ x40 [x00; x07] Hb Hl)).
  - refine (proj2 (fixedHeader_Decode_truncated _ x40 [x00; x07] Hb Hl)
              [x40; x02; x00] [x07] _ _).
    + reflexivity.
    + discriminate.
Defined.

(** * Properties of [CopyMessage] *)

Lemma CopyMessage_cons (dst : list byte) (b : byte) (src : list byte) :
  CopyMessage dst (b :: src)
  = let r := readVarint32 (Some (dst ++ [b])) src in
    let dst2 := match vr_dst r with Some d => d | None => dst ++ [b] end in
    match vr_err r with
    | Some e => (1, Some e, dst2, vr_src r)
    | None =>
        let got := firstn (Z.to_nat (vr_value r)) (vr_src r) in
        let src2 := skipn (Z.to_nat (vr_value r)) (vr_src r) in
        if len got <? vr_value r
        then (1 + vr_count r, Some EOF, dst2 ++ got, src2)
        else (1 + vr_count r + len got, None, dst2 ++ got, src2)
    end.
Proof.
  unfold CopyMessage, CopyN.
  change (firstn (Z.to_nat 1) (b :: src)) with [b].
  change (skipn (Z.to_nat 1) (b :: src)) with src.
  change (len [b] <? 1) with false. change (len [b]) with 1. cbv zeta.
  destruct (vr_err (readVarint32 (Some (dst ++ [b])) src)); [reflexivity |].
  destruct (len (firstn (Z.to_nat (vr_value (readVarint32 (Some (dst ++ [b])) src)))
                   (vr_src (readVarint32 (Some (dst ++ [b])) src)))
            <? vr_value (readVarint32 (Some (dst ++ [b])) src)); reflexivity.
Qed.

(** X7: [CopyMessage] copies one packet and no more: whatever the first byte
    is (no check is made of the type or of the flags), the first byte, the
    bytes of the remaining length and as many body bytes as it declares are
    appended to the writer, their number is returned and what follows stays in
    the reader; and on every proper prefix of such a packet [CopyMessage]
    fails with the end-of-file error of the reader. *)
Theorem CopyMessage_one_packet (dst : list byte) (b : byte) (body : list byte) :
  len body <= maxRemainingLength ->
  (forall rest : list byte,
      CopyMessage dst (b :: varint_bytes (len body) ++ body ++ rest)
      = (1 + len (varint_bytes (len body)) + len body, None,
         dst ++ b :: varint_bytes (len body) ++ body, rest)) /\
  (forall p q : list byte,
      b :: varint_bytes (len body) ++ body = p ++ q -> q <> [] ->
      snd (fst (fst (CopyMessage dst p))) = Some EOF).
Proof.
  intros Hlen.
  assert (Hn : 0 <= len body <= maxRemainingLength) by (pose proof (len_nonneg body); lia).
  destruct (varint_bytes_spec (len body) Hn) as (_ & _ & Hr).
  split.
  - intros rest. rewrite CopyMessage_cons, Hr. cbv zeta.
    cbn [vr_err vr_value vr_count vr_dst vr_src].
    rewrite firstn_len_app, skipn_len_app, Z.ltb_irrefl.
    rewrite <- !app_assoc. reflexivity.
  - intros p q Heq Hq.
    destruct p as [| b0 p]; [reflexivity |].
    cbn [app] in Heq. injection Heq as <- Heq.
    rewrite CopyMessage_cons.
    apply app_eq_app in Heq. destruct Heq as [l [[Hv Hq'] | [Hp Hbody]]].
    + destruct l as [| c l].
      * rewrite app_nil_r in Hv. cbn [app] in Hq'. subst p q.
        rewrite <- (app_nil_r (varint_bytes (len body))), Hr. cbv zeta.
        cbn [vr_err vr_value vr_count vr_dst vr_src].
        rewrite firstn_nil. change (len (@nil byte)) with 0.
        destruct (Z.ltb_spec 0 (len body)) as [_ | H]; [reflexivity |].
        exfalso. apply Hq. apply len_zero_nil. lia.
      * destruct (varint_bytes_shape (len body) Hn) as (pre & lb & Hs & Hpre & _ & Hl3).
        rewrite Hs in Hv. destruct (prefix_of_snoc p pre lb c l Hv) as [l2 Hl2].
        assert (Hfp : Forall (fun c => continuation c = true) p).
        { rewrite Hl2 in Hpre. apply Forall_app in Hpre. tauto. }
        assert (Hlp : len p <= 3).
        { rewrite Hl2, len_app in Hl3. pose proof (len_nonneg l2). lia. }
        rewrite (readVarint32_eof (Some (dst ++ [b])) p Hfp Hlp). reflexivity.
    + subst p. rewrite Hr. cbv zeta. cbn [vr_err vr_value vr_count vr_dst vr_src].
      assert (Hll : len l < len body).
      { rewrite Hbody, len_app. pose proof (len_nonneg q).
        assert (len q <> 0) by (intros E; apply Hq, len_zero_nil, E). lia. }
      rewrite firstn_all2 by (unfold len in *; lia).
      apply Z.ltb_lt in Hll. rewrite Hll. reflexivity.
Qed.

Lemma CopyMessage_one_packet_witness :
  CopyMessage [x01] (xf0 :: varint_bytes (len [x0a; x0b]) ++ [x0a; x0b] ++ [x0c])
  = (1 + len (varint_bytes (len [x0a; x0b])) + len [x0a; x0b], None,
     [x01] ++ xf0 :: varint_bytes (len [x0a; x0b]) ++ [x0a; x0b], [x0c]).
Proof.
  refine (proj1 (CopyMessage_one_packet [x01] xf0 [x0a; x0b] _) [x0c]).
  vm_compute. discriminate.
Defined.

(** * Round trips of the messages of fixed size *)

Lemma uint16_bytes_value (n : Z) :
  0 <= n < 65536 -> b2z (z2b (Z.shiftr n 8)) * 256 + b2z (z2b n) = n.
Proof.
  intros Hn. pose proof (readUint16_uint16_bytes n [] Hn) as H.
  unfold uint16_bytes in H. cbn [app readUint16] in H. congruence.
Qed.

Lemma varint_bytes_2 : varint_bytes 2 = [x02].
Proof. reflexivity. Qed.

(** What [PubackMessage.Encode] returns. *)
Lemma PubackMessage_Encode_ok (m : PubackMessage) :
  Valid (mtype (puback_header m)) = true ->
  let bytes := [first_byte (mtype (puback_header m)) (flags (puback_header m)); x02]
               ++ uint16_bytes (puback_packetId m) in
  PubackMessage_Encode m
  = mkEncoded (Some bytes) 4 None
      (mkPuback (mkFixedHeader bytes 2 (mtype (puback_header m)) (flags (puback_header m)))
         (puback_packetId m)).
Proof.
  intros Hv bytes. unfold PubackMessage_Encode.
  rewrite SetRemainingLength_ok by (unfold maxRemainingLength; lia). cbn [snd].
  rewrite fixedHeader_Encode_ok; [| hdr_simpl; unfold maxRemainingLength; lia | hdr_simpl; exact Hv].
  cbn [e_err e_msg e_n e_reader puback_header puback_packetId]. hdr_simpl.
  unfold header_bytes. hdr_simpl. rewrite varint_bytes_2, writeUint16_bytes.
  reflexivity.
Qed.

(** X8: the round trip of PUBACK.  A message with a valid type other than
    PUBLISH, the default flags of its type and a 16-bit packet identifier is
    encoded in four bytes (the remaining length is set to 2 and the buffer
    holds the bytes written), and [PubackMessage.Decode] on a message of the
    same type reads the packet identifier back from these bytes, counts four
    bytes, empties the buffer and leaves what follows in the source. *)
Theorem PubackMessage_round_trip (m this : PubackMessage) (rest : list byte) :
  Valid (mtype (puback_header m)) = true ->
  mtype (puback_header m) <> PUBLISH ->
  flags (puback_header m) = DefaultFlags (mtype (puback_header m)) ->
  0 <= puback_packetId m < 65536 ->
  mtype (puback_header this) = mtype (puback_header m) ->
  exists bytes,
    PubackMessage_Encode m
    = mkEncoded (Some bytes) 4 None
        (mkPuback (mkFixedHeader bytes 2 (mtype (puback_header m)) (flags (puback_header m)))
           (puback_packetId m)) /\
    len bytes = 4 /\
    PubackMessage_Decode this (bytes ++ rest)
    = mkDecoded 4 None
        (mkPuback (mkFixedHeader [] 2 (mtype (puback_header m)) (flags (puback_header m)))
           (puback_packetId m)) rest.
Proof.
  intros Hv Hp Hf Hid Ht.
  eexists. split; [apply PubackMessage_Encode_ok; exact Hv |]. split; [reflexivity |].
  rewrite Hf.
  pose proof (PubackMessage_Decode_frame this (mtype (puback_header m))
                (z2b (Z.shiftr (puback_packetId m) 8)) (z2b (puback_packetId m)) [] rest
                Ht Hv Hp ltac:(vm_compute; discriminate)) as Hd.
  unfold frame in Hd. change (len [_; _]) with 2 in Hd. rewrite varint_bytes_2 in Hd.
  change (len (@nil byte)) with 0 in Hd. change (2 + 0) with 2 in Hd.
  rewrite varint_bytes_2 in Hd. change (1 + len [x02] + 2) with 4 in Hd.
  rewrite uint16_bytes_value in Hd by assumption.
  exact Hd.
Qed.

Lemma PubackMessage_round_trip_witness :
  exists bytes,
    PubackMessage_Encode (mkPuback (puback_header NewPubackMessage) 7)
    = mkEncoded (Some bytes) 4 None (mkPuback (mkFixedHeader bytes 2 PUBACK x00) 7) /\
    len bytes = 4 /\
    PubackMessage_Decode NewPubackMessage (bytes ++ [xff])
    = mkDecoded 4 None (mkPuback (mkFixedHeader [] 2 PUBACK x00) 7) [xff].
Proof.
  refine (PubackMessage_round_trip (mkPuback (puback_header NewPubackMessage) 7)
            NewPubackMessage [xff] _ _ _ _ _).
  - reflexivity.
  - discriminate.
  - reflexivity.
  - cbn. lia.
  - reflexivity.
Defined.

(** [ConnackMessage.Decode] on a CONNACK packet of two body bytes. *)
Lemma ConnackMessage_Decode_frame (this : ConnackMessage) (ack rc : byte) (rest : list byte) :
  mtype (connack_header this) = CONNACK ->
  ConnackMessage_Decode this (frame CONNACK x00 [ack; rc] ++ rest)
  = if negb (byte_eqb (band ack xfe) x00)
    then mkDecoded 0 (Some ErrConnackDecodeFlags)
           (mkConnack (mkFixedHeader [rc] 2 CONNACK x00) (sessionPresent this) (returnCode this))
           rest
    else if 5 <? b2z rc
    then mkDecoded 0 (Some ErrConnackDecodeCode)
           (mkConnack (mkFixedHeader [] 2 CONNACK x00) (byte_eqb (band ack x01) x01)
              (returnCode this)) rest
    else mkDecoded 4 None
           (mkConnack (mkFixedHeader [] 2 CONNACK x00) (byte_eqb (band ack x01) x01) rc) rest.
Proof.
  intros Ht. unfold ConnackMessage_Decode.
  rewrite (fixedHeader_Decode_frame (connack_header this) CONNACK x00 [ack; rc] rest Ht
             eq_refl eq_refl (fun _ => eq_refl) (fun H => ltac:(discriminate H))
             ltac:(vm_compute; discriminate)).
  cbn [d_err d_msg d_n d_src connack_header sessionPresent returnCode buf ReadByte]. hdr_simpl.
  destruct (negb (byte_eqb (band ack xfe) x00)); [reflexivity |].
  cbn [connack_header sessionPresent returnCode buf ReadByte]. hdr_simpl.
  destruct (5 <? b2z rc); reflexivity.
Qed.

(** X9: the round trip of CONNACK and what [ConnackMessage.Decode] refuses.  A
    CONNACK message with a return code of at most 5 is encoded in four bytes,
    from which [ConnackMessage.Decode] reads the session-present flag and the
    return code back; a packet whose acknowledge-flags byte has one of the bits
    7 to 1 set, or whose return code is above 5, is rejected with a count of
    0. *)
Theorem ConnackMessage_round_trip :
  (forall (m this : ConnackMessage) (rest : list byte),
      mtype (connack_header m) = CONNACK -> flags (connack_header m) = x00 ->
      b2z (returnCode m) <= 5 ->
      mtype (connack_header this) = CONNACK ->
      exists bytes,
        ConnackMessage_Encode m
        = mkEncoded (Some bytes) 4 None
            (mkConnack (mkFixedHeader bytes 2 CONNACK x00) (sessionPresent m) (returnCode m)) /\
        len bytes = 4 /\
        ConnackMessage_Decode this (bytes ++ rest)
        = mkDecoded 4 None
            (mkConnack (mkFixedHeader [] 2 CONNACK x00) (sessionPresent m) (returnCode m))
            rest) /\
  (forall (this : ConnackMessage) (ack rc : byte) (rest : list byte),
      mtype (connack_header this) = CONNACK ->
      let r := ConnackMessage_Decode this ([x20; x02; ack; rc] ++ rest) in
      (band ack xfe <> x00 -> d_err r = Some ErrConnackDecodeFlags /\ d_n r = 0) /\
      (band ack xfe = x00 -> 5 < b2z rc -> d_err r = Some ErrConnackDecodeCode /\ d_n r = 0)).
Proof.
  split.
  - intros m this rest Ht Hf Hrc Hthis.
    exists ([x20; x02] ++ [if sessionPresent m then x01 else x00; returnCode m]).
    split; [| split; [reflexivity |]].
    + unfold ConnackMessage_Encode.
      rewrite SetRemainingLength_ok by (unfold maxRemainingLength; lia). cbn [snd].
      rewrite fixedHeader_Encode_ok;
        [| hdr_simpl; unfold maxRemainingLength; lia | hdr_simpl; rewrite Ht; reflexivity].
      cbn [e_err e_msg e_n e_reader connack_header sessionPresent returnCode]. hdr_simpl.
      destruct (Z.ltb_spec 5 (b2z (returnCode m))) as [H | _]; [lia |].
      unfold header_bytes. hdr_simpl. rewrite Ht, Hf, varint_bytes_2. reflexivity.
    + change ([x20; x02] ++ [if sessionPresent m then x01 else x00; returnCode m])
        with (frame CONNACK x00 [if sessionPresent m then x01 else x00; returnCode m]).
      rewrite ConnackMessage_Decode_frame by assumption.
      destruct (Z.ltb_spec 5 (b2z (returnCode m))) as [H | _]; [lia |].
      destruct (sessionPresent m); reflexivity.
  - intros this ack rc rest Ht r. subst r.
    change ([x20; x02; ack; rc] ++ rest) with (frame CONNACK x00 [ack; rc] ++ rest).
    rewrite ConnackMessage_Decode_frame by assumption. split.
    + intros H. destruct (byte_eqb (band ack xfe) x00) eqn:E.
      * apply byte_eqb_eq in E. contradiction.
      * split; reflexivity.
    + intros H Hrc. rewrite H. change (byte_eqb x00 x00) with true. cbn [negb].
      apply Z.ltb_lt in Hrc. rewrite Hrc. split; reflexivity.
Qed.

Lemma ConnackMessage_round_trip_witness :
  (exists bytes,
      ConnackMessage_Encode (ConnackMessage_SetSessionPresent
                               (ConnackMessage_SetReturnCode NewConnackMessage x04) true)
      = mkEncoded (Some bytes) 4 None
          (mkConnack (mkFixedHeader bytes 2 CONNACK x00) true x04) /\
      len bytes = 4 /\
      ConnackMessage_Decode NewConnackMessage (bytes ++ [])
      = mkDecoded 4 None (mkConnack (mkFixedHeader [] 2 CONNACK x00) true x04) []) /\
  d_err (ConnackMessage_Decode NewConnackMessage ([x20; x02; x00; x06] ++ []))
  = Some ErrConnackDecodeCode.
Proof.
  split.
  - refine (proj1 ConnackMessage_round_trip
              (ConnackMessage_SetSessionPresent
                 (ConnackMessage_SetReturnCode NewConnackMessage x04) true)
              NewConnackMessage [] _ _ _ _).
    + reflexivity.
    + reflexivity.
    + vm_compute. discriminate.
    + reflexivity.
  - refine (proj1 (proj2 (proj2 ConnackMessage_round_trip NewConnackMessage x00 x06 [] _) _ _)).
    + reflexivity.
    + reflexivity.
    + vm_compute. reflexivity.
Defined.

(** * Round trip of PUBLISH *)

Lemma ValidTopic_nonempty (t : list byte) : ValidTopic t = true -> t <> [].
Proof.
  intros H E. subst t. discriminate H.
Qed.

(** X10: the round trip of PUBLISH.  A message with a valid topic name of at
    most 65535 bytes, a non-empty payload, flags of four bits with a valid QoS,
    a 16-bit packet identifier and a body of at most 268,435,455 bytes is
    encoded without error, and [PublishMessage.Decode] on a PUBLISH message
    reads the flags, the topic name and the payload back from the bytes
    written, consuming exactly them; the packet identifier is read back when
    the QoS is 1 or 2, and with QoS 0 the receiver keeps the identifier it
    had, whatever the encoded message held. *)
Theorem PublishMessage_round_trip (m this : PublishMessage) (rest : list byte) :
  mtype (publish_header m) = PUBLISH ->
  b2z (flags (publish_header m)) < 16 ->
  ValidQos (PublishMessage_QoS m) = true ->
  ValidTopic (topic m) = true -> len (topic m) <= maxLPString ->
  payload m <> [] ->
  PublishMessage_size m <= maxRemainingLength ->
  0 <= publish_packetId m < 65536 ->
  mtype (publish_header this) = PUBLISH ->
  exists bytes,
    PublishMessage_Encode m
    = mkEncoded (Some bytes) (len bytes) None
        (mkPublish (mkFixedHeader bytes (PublishMessage_size m) PUBLISH (flags (publish_header m)))
           (publish_packetId m) (topic m) (payload m)) /\
    PublishMessage_Decode this (bytes ++ rest)
    = mkDecoded (len bytes) None
        (mkPublish (mkFixedHeader [] (PublishMessage_size m) PUBLISH (flags (publish_header m)))
           (if byte_eqb (PublishMessage_QoS m) x00
            then publish_packetId this else publish_packetId m)
           (topic m) (payload m)) rest.
Proof.
  intros Hm Hf Hq Hvt Htl Hpl Hsize Hid Hthis.
  exists (frame PUBLISH (flags (publish_header m)) (publish_body m)).
  assert (Hlen : len (frame PUBLISH (flags (publish_header m)) (publish_body m))
                 = 1 + len (varint_bytes (PublishMessage_size m)) + PublishMessage_size m).
  { unfold frame. rewrite len_cons, len_app, len_publish_body. lia. }
  split.
  - rewrite PublishMessage_Encode_ok;
      [| rewrite Hm; reflexivity
       | rewrite publish_encode_header_in_range by assumption; hdr_simpl; assumption
       | apply ValidTopic_nonempty; assumption | assumption | assumption].
    cbv zeta. rewrite publish_encoded_frame by assumption. rewrite Hm.
    rewrite publish_encode_header_in_range by assumption.
    unfold publish_set_header. hdr_simpl. rewrite Hm. reflexivity.
  - rewrite Hlen. rewrite <- (len_publish_body m) in *.
    unfold publish_body in *. unfold PublishMessage_QoS in *.
    fold (flags_qos (flags (publish_header m))) in *.
    destruct (byte_eqb (flags_qos (flags (publish_header m))) x00) eqn:E.
    + apply byte_eqb_eq in E. cbn [app] in *.
      rewrite (PublishMessage_Decode_qos0 this (flags (publish_header m)) (topic m) (payload m)
                 rest Hthis Hf E Hvt Htl Hsize).
      reflexivity.
    + assert (Hq12 : flags_qos (flags (publish_header m)) = x01
                     \/ flags_qos (flags (publish_header m)) = x02).
      { apply ValidQos_spec in Hq. destruct Hq as [H0 | H12]; [| exact H12].
        rewrite H0 in E. discriminate E. }
      unfold uint16_bytes in *. cbn [app] in *.
      rewrite (PublishMessage_Decode_qos12 this (flags (publish_header m))
                 (z2b (Z.shiftr (publish_packetId m) 8)) (z2b (publish_packetId m))
                 (topic m) (payload m) rest Hthis Hf Hq12 Hvt Htl Hsize).
      rewrite uint16_bytes_value by assumption. reflexivity.
Qed.

Lemma PublishMessage_round_trip_witness :
  let m := PublishMessage_SetPacketId
             (PublishMessage_SetPayload
                (snd (PublishMessage_SetTopic
                        (snd (PublishMessage_SetQoS NewPublishMessage x00)) [x61; x2f; x62]))
                [x01; x02; x03]) 7 in
  exists bytes,
    PublishMessage_Encode m
    = mkEncoded (Some bytes) (len bytes) None
        (mkPublish (mkFixedHeader bytes (PublishMessage_size m) PUBLISH (flags (publish_header m)))
           (publish_packetId m) (topic m) (payload m)) /\
    PublishMessage_Decode NewPublishMessage (bytes ++ [])
    = mkDecoded (len bytes) None
        (mkPublish (mkFixedHeader [] (PublishMessage_size m) PUBLISH (flags (publish_header m)))
           (if byte_eqb (PublishMessage_QoS m) x00
            then publish_packetId NewPublishMessage else publish_packetId m)
           (topic m) (payload m)) [].
Proof.
  intros m.
  refine (PublishMessage_round_trip m NewPublishMessage [] _ _ _ _ _ _ _ _ _).
  - reflexivity.
  - reflexivity.
  - reflexivity.
  - reflexivity.
  - vm_compute. discriminate.
  - discriminate.
  - vm_compute. discriminate.
  - vm_compute. split; [discriminate | reflexivity].
  - reflexivity.
Defined.

(** X11: what [PublishMessage.Decode] does at the edges.  A packet whose topic
    name is empty or holds one of the wildcard characters is rejected, the
    name being stored in the receiver all the same; a packet of QoS 1 or 2 with
    fewer than two bytes after the topic name is rejected with a count of 0;
    and a packet of QoS 0 with nothing after the topic name is decoded to a
    message with an empty payload, which [PublishMessage.Encode] then refuses
    to encode. *)
Theorem PublishMessage_Decode_edges (this : PublishMessage) (f : byte) (t rest : list byte) :
  mtype (publish_header this) = PUBLISH ->
  b2z f < 16 -> ValidQos (flags_qos f) = true -> len t <= maxLPString ->
  (forall tail : list byte,
      len (lp t ++ tail) <= maxRemainingLength -> ValidTopic t = false ->
      let r := PublishMessage_Decode this (frame PUBLISH f (lp t ++ tail) ++ rest) in
      d_err r = Some ErrPublishDecodeTopic /\ topic (d_msg r) = t) /\
  (forall tail : list byte,
      ValidTopic t = true -> flags_qos f <> x00 -> len tail < 2 ->
      let r := PublishMessage_Decode this (frame PUBLISH f (lp t ++ tail) ++ rest) in
      d_err r = Some ErrInsufficientBuffer /\ d_n r = 0) /\
  (ValidTopic t = true -> flags_qos f = x00 ->
   let r := PublishMessage_Decode this (frame PUBLISH f (lp t) ++ rest) in
   d_err r = None /\ topic (d_msg r) = t /\ payload (d_msg r) = [] /\
   PublishMessage_Encode (d_msg r)
   = mkEncoded None 0 (Some ErrPublishEncodePayload) (d_msg r)).
Proof.
  intros Hm Hf Hq Htl.
  assert (Hdec : forall tail, len (lp t ++ tail) <= maxRemainingLength ->
            PublishMessage_Decode this (frame PUBLISH f (lp t ++ tail) ++ rest)
            = let this1 := mkPublish (mkFixedHeader tail (len (lp t ++ tail)) PUBLISH f)
                             (publish_packetId this) t (payload this) in
              let total := 0 + (1 + len (varint_bytes (len (lp t ++ tail)))) + (2 + len t) in
              if negb (ValidTopic t)
              then mkDecoded total (Some ErrPublishDecodeTopic) this1 rest
              else
                if negb (byte_eqb (flags_qos f) x00)
                then
                  let '(id, err, buf2) := readUint16 tail in
                  let this2 := mkPublish (mkFixedHeader buf2 (len (lp t ++ tail)) PUBLISH f)
                                 id t (payload this) in
                  match err with
                  | Some e => mkDecoded 0 (Some e) this2 rest
                  | None =>
                      mkDecoded (total + 2 + len buf2) None
                        (mkPublish (mkFixedHeader [] (len (lp t ++ tail)) PUBLISH f) id t buf2)
                        rest
                  end
                else
                  mkDecoded (total + len tail) None
                    (mkPublish (mkFixedHeader [] (len (lp t ++ tail)) PUBLISH f)
                       (publish_packetId this) t tail) rest).
  { intros tail Hlen. unfold PublishMessage_Decode.
    rewrite (fixedHeader_Decode_frame (publish_header this) PUBLISH f (lp t ++ tail) rest Hm
               eq_refl Hf (fun E => ltac:(contradiction E; reflexivity)) (fun _ => Hq) Hlen).
    cbn [d_err d_msg d_n d_src]. pub_simpl.
    rewrite readLPBytes_lp by assumption. pub_simpl. cbv zeta.
    destruct (negb (ValidTopic t)); [reflexivity |].
    rewrite PublishMessage_QoS_header. hdr_simpl.
    destruct (negb (byte_eqb (flags_qos f) x00)).
    - destruct (readUint16 tail) as [[id err] buf2]. pub_simpl.
      destruct err; [reflexivity |].
      unfold Next. rewrite firstn_len, skipn_len. pub_simpl. reflexivity.
    - unfold Next. rewrite firstn_len, skipn_len. pub_simpl. reflexivity. }
  split; [| split].
  - intros tail Hlen Hvt r. subst r. rewrite Hdec by assumption. cbv zeta.
    rewrite Hvt. cbn [negb d_err d_msg topic]. auto.
  - intros tail Hvt Hq0 Htail r. subst r.
    assert (Hlen : len (lp t ++ tail) <= maxRemainingLength).
    { rewrite len_app, len_lp. unfold maxLPString, maxRemainingLength in *. lia. }
    rewrite Hdec by assumption. cbv zeta. rewrite Hvt. cbn [negb].
    destruct (byte_eqb (flags_qos f) x00) eqn:E.
    { apply byte_eqb_eq in E. contradiction. }
    cbn [negb].
    destruct tail as [| a [| b tail]].
    + split; reflexivity.
    + split; reflexivity.
    + rewrite !len_cons in Htail. pose proof (len_nonneg tail). lia.
  - intros Hvt Hq0 r. subst r.
    assert (Hlen : len (lp t ++ []) <= maxRemainingLength).
    { rewrite len_app, len_lp. change (len (@nil byte)) with 0.
      unfold maxLPString, maxRemainingLength in *. lia. }
    rewrite <- (app_nil_r (lp t)). rewrite Hdec by assumption. cbv zeta.
    rewrite Hvt, Hq0. change (byte_eqb x00 x00) with true. cbn [negb d_err d_msg topic payload].
    repeat split.
    unfold PublishMessage_Encode. cbn [topic payload].
    destruct (Z.eqb_spec (len t) 0) as [E | _].
    + apply len_zero_nil in E. subst t. discriminate Hvt.
    + reflexivity.
Qed.

Lemma PublishMessage_Decode_edges_witness :
  let r := PublishMessage_Decode NewPublishMessage
             (frame PUBLISH x00 (lp [x61; x23] ++ [x01]) ++ []) in
  d_err r = Some ErrPublishDecodeTopic /\ topic (d_msg r) = [x61; x23].
Proof.
  refine (proj1 (PublishMessage_Decode_edges NewPublishMessage x00 [x61; x23] [] _ _ _ _)
            [x01] _ _).
  - reflexivity.
  - reflexivity.
  - reflexivity.
  - vm_compute. discriminate.
  - vm_compute. discriminate.
  - reflexivity.
Defined.

(** The header flags of PUBLISH, bit by bit. *)
Lemma publish_flag_bits (f : byte) :
  let qos g := band (bshr g 1) x03 in
  let dup g := byte_eqb (band (bshr g 3) x01) x01 in
  let retain g := byte_eqb (band g x01) x01 in
  let keeps g := qos g = qos f /\ (b2z f < 16 -> b2z g < 16) in
  (forall v, v = x00 \/ v = x01 \/ v = x02 ->
             let g := bor (band f xf9) (bshl v 1) in
             qos g = v /\ dup g = dup f /\ retain g = retain f /\ (b2z f < 16 -> b2z g < 16)) /\
  (dup (bor f x08) = true /\ retain (bor f x08) = retain f /\ keeps (bor f x08)) /\
  (dup (band f xf7) = false /\ retain (band f xf7) = retain f /\ keeps (band f xf7)) /\
  (retain (bor f x01) = true /\ dup (bor f x01) = dup f /\ keeps (bor f x01)) /\
  (retain (band f xfe) = false /\ dup (band f xfe) = dup f /\ keeps (band f xfe)).
Proof.
  cbv zeta. split.
  - intros v [-> | [-> | ->]]; destruct f; vm_compute;
      (repeat split; try reflexivity; intros H; try discriminate H; reflexivity).
  - destruct f; vm_compute;
      (repeat split; try reflexivity; intros H; try discriminate H; reflexivity).
Qed.

(** X19: the mutators of the PUBLISH flags act on their own bits.  [SetQoS]
    refuses every value but 0, 1 and 2 and leaves the message as it is;
    otherwise [QoS] returns the value set and [Dup] and [Retain] are what they
    were.  [SetDup] and [SetRetain] set their flag and leave the two other
    values as they were.  None of them takes flags of four bits out of four
    bits, and none changes the other fields of the message. *)
Theorem PublishMessage_flag_mutators (m : PublishMessage) :
  let small (x : PublishMessage) :=
    b2z (flags (publish_header m)) < 16 -> b2z (flags (publish_header x)) < 16 in
  let same_fields (x : PublishMessage) :=
    publish_packetId x = publish_packetId m /\ topic x = topic m /\ payload x = payload m /\
    mtype (publish_header x) = mtype (publish_header m) in
  (forall v : byte,
      ValidQos v = false -> PublishMessage_SetQoS m v = (Some ErrPublishSetQoS, m)) /\
  (forall v : byte,
      ValidQos v = true ->
      exists m', PublishMessage_SetQoS m v = (None, m') /\
        PublishMessage_QoS m' = v /\ PublishMessage_Dup m' = PublishMessage_Dup m /\
        PublishMessage_Retain m' = PublishMessage_Retain m /\ small m' /\ same_fields m') /\
  (forall d : bool,
      let m' := PublishMessage_SetDup m d in
      PublishMessage_Dup m' = d /\ PublishMessage_QoS m' = PublishMessage_QoS m /\
      PublishMessage_Retain m' = PublishMessage_Retain m /\ small m' /\ same_fields m') /\
  (forall r : bool,
      let m' := PublishMessage_SetRetain m r in
      PublishMessage_Retain m' = r /\ PublishMessage_QoS m' = PublishMessage_QoS m /\
      PublishMessage_Dup m' = PublishMessage_Dup m /\ small m' /\ same_fields m').
Proof.
  destruct m as [[hb hr ht f] id tp pl].
  pose proof (publish_flag_bits f) as (Hq & (Hd1 & Hd2 & Hd3 & Hd4) & (He1 & He2 & He3 & He4)
                                       & (Hr1 & Hr2 & Hr3 & Hr4) & (Hs1 & Hs2 & Hs3 & Hs4)).
  cbv zeta in *.
  unfold PublishMessage_SetQoS, PublishMessage_SetDup, PublishMessage_SetRetain,
    PublishMessage_QoS, PublishMessage_Dup, PublishMessage_Retain, publish_set_header, set_flags.
  cbn [publish_header publish_packetId topic payload flags mtype buf remlen].
  split; [| split; [| split]].
  - intros v Hv.
    assert (E : negb (byte_eqb v x00) && negb (byte_eqb v x01) && negb (byte_eqb v x02) = true).
    { unfold ValidQos, QosAtMostOnce, QosAtLeastOnce, QosExactlyOnce in Hv.
      destruct (byte_eqb v x00), (byte_eqb v x01), (byte_eqb v x02); try discriminate Hv;
        reflexivity. }
    rewrite E. reflexivity.
  - intros v Hv. apply ValidQos_spec in Hv.
    assert (E : negb (byte_eqb v x00) && negb (byte_eqb v x01) && negb (byte_eqb v x02) = false).
    { destruct Hv as [-> | [-> | ->]]; reflexivity. }
    rewrite E. eexists. split; [reflexivity |].
    cbn [publish_header publish_packetId topic payload flags mtype].
    destruct (Hq v Hv) as (H1 & H2 & H3 & H4). auto 10.
  - intros [|]; cbn [publish_header publish_packetId topic payload flags mtype]; auto 10.
  - intros [|]; cbn [publish_header publish_packetId topic payload flags mtype]; auto 10.
Qed.

Lemma PublishMessage_flag_mutators_witness :
  exists m', PublishMessage_SetQoS (PublishMessage_SetRetain NewPublishMessage true) x02
             = (None, m') /\
    PublishMessage_QoS m' = x02 /\
    PublishMessage_Dup m' = PublishMessage_Dup (PublishMessage_SetRetain NewPublishMessage true) /\
    PublishMessage_Retain m'
    = PublishMessage_Retain (PublishMessage_SetRetain NewPublishMessage true).
Proof.
  destruct (proj1 (proj2 (PublishMessage_flag_mutators
                            (PublishMessage_SetRetain NewPublishMessage true))) x02 eq_refl)
    as (m' & H1 & H2 & H3 & H4 & _).
  exists m'. auto.
Defined.

(** * Round trips of SUBSCRIBE, UNSUBSCRIBE and SUBACK *)

Lemma len_frame (t : MessageType) (f : byte) (body : list byte) :
  len (frame t f body) = 1 + len (varint_bytes (len body)) + len body.
Proof.
  unfold frame. rewrite len_cons, len_app. lia.
Qed.

Lemma subscribe_encode_header_in_range (m : SubscribeMessage) :
  (length (subscribe_topics m) <= length (qos m))%nat ->
  SubscribeMessage_size m <= maxRemainingLength ->
  subscribe_encode_header m = set_remlen (subscribe_header m) (SubscribeMessage_size m).
Proof.
  intros Hl H. unfold subscribe_encode_header.
  pose proof (SubscribeMessage_size_spec m Hl) as Hs.
  pose proof (len_nonneg (subscribe_pairs_bytes (subscribe_topics m) (qos m))).
  unfold maxRemainingLength in H.
  rewrite to_int32_small by lia.
  rewrite SetRemainingLength_ok by (unfold maxRemainingLength; lia). reflexivity.
Qed.

(** X12: the round trip of SUBSCRIBE.  A message with as many QoS bytes as
    topics, topics of at most 65535 bytes each, a 16-bit packet identifier and
    a body of at most 268,435,455 bytes is encoded without error; when it has
    at least one topic, [SubscribeMessage.Decode] on a new message reads the
    packet identifier, the topics and the QoS bytes, in their order, back from
    the bytes written, consuming exactly them; when it has no topic, the four
    bytes written are rejected by [SubscribeMessage.Decode] on a new
    message. *)
Theorem SubscribeMessage_round_trip (m : SubscribeMessage) (rest : list byte) :
  mtype (subscribe_header m) = SUBSCRIBE -> flags (subscribe_header m) = x02 ->
  0 <= subscribe_packetId m < 65536 ->
  length (subscribe_topics m) = length (qos m) ->
  topics_fit (subscribe_topics m) = true ->
  SubscribeMessage_size m <= maxRemainingLength ->
  exists bytes,
    SubscribeMessage_Encode m
    = mkEncoded (Some bytes) (len bytes) None
        (mkSubscribe (mkFixedHeader bytes (SubscribeMessage_size m) SUBSCRIBE x02)
           (subscribe_packetId m) (subscribe_topics m) (qos m)) /\
    (subscribe_topics m <> [] ->
     SubscribeMessage_Decode NewSubscribeMessage (bytes ++ rest)
     = mkDecoded (len bytes) None
         (mkSubscribe (mkFixedHeader [] (SubscribeMessage_size m) SUBSCRIBE x02)
            (subscribe_packetId m) (subscribe_topics m) (qos m)) rest) /\
    (subscribe_topics m = [] ->
     len bytes = 4 /\
     d_err (SubscribeMessage_Decode NewSubscribeMessage (bytes ++ rest))
     = Some ErrSubscribeEmpty).
Proof.
  intros Hm Hf Hid Hl Hfit Hsize.
  assert (Hle : (length (subscribe_topics m) <= length (qos m))%nat) by lia.
  pose proof (SubscribeMessage_size_spec m Hle) as Hs.
  pose proof (subscribe_encode_header_in_range m Hle Hsize) as Hh.
  set (body := uint16_bytes (subscribe_packetId m)
               ++ subscribe_pairs_bytes (subscribe_topics m) (qos m)).
  assert (Hbody : len body = SubscribeMessage_size m).
  { subst body. rewrite len_app, len_uint16_bytes. lia. }
  exists (frame SUBSCRIBE x02 body).
  assert (Hbytes : header_bytes (subscribe_encode_header m) ++ body = frame SUBSCRIBE x02 body).
  { rewrite Hh. unfold header_bytes, frame. hdr_simpl. rewrite Hm, Hf, Hbody. reflexivity. }
  assert (Hdec : forall this0, mtype (subscribe_header this0) = SUBSCRIBE ->
            subscribe_topics this0 ++ subscribe_topics m <> [] ->
            SubscribeMessage_Decode this0 (frame SUBSCRIBE x02 body ++ rest)
            = mkDecoded (len (frame SUBSCRIBE x02 body)) None
                (mkSubscribe (mkFixedHeader [] (SubscribeMessage_size m) SUBSCRIBE x02)
                   (subscribe_packetId m) (subscribe_topics this0 ++ subscribe_topics m)
                   (qos this0 ++ qos m)) rest).
  { intros this0 Ht0 Hne. subst body. unfold uint16_bytes in *. cbn [app] in *.
    rewrite (SubscribeMessage_Decode_pairs this0 _ _ (subscribe_topics m) (qos m) rest
               Ht0 Hl Hfit Hne) by (rewrite <- Hs; exact Hsize).
    cbv zeta. rewrite uint16_bytes_value by assumption.
    rewrite len_frame, Hbody. reflexivity. }
  split; [| split].
  - rewrite SubscribeMessage_Encode_ok;
      [| rewrite Hm; reflexivity | rewrite Hh; hdr_simpl; assumption | assumption | assumption].
    cbv zeta. fold body. rewrite Hbytes, Hh. hdr_simpl. rewrite Hm, Hf. reflexivity.
  - intros Hne. apply (Hdec NewSubscribeMessage eq_refl). exact Hne.
  - intros He. split.
    + subst body. rewrite He. destruct (qos m); [reflexivity | rewrite He in Hl; discriminate Hl].
    + subst body. rewrite He in *. destruct (qos m); [| discriminate Hl].
      reflexivity.
Qed.

Lemma SubscribeMessage_round_trip_witness :
  let m := mkSubscribe (subscribe_header NewSubscribeMessage) 7 [[x61; x2f; x62]; [x63]]
             [x01; x02] in
  exists bytes,
    SubscribeMessage_Encode m
    = mkEncoded (Some bytes) (len bytes) None
        (mkSubscribe (mkFixedHeader bytes (SubscribeMessage_size m) SUBSCRIBE x02)
           7 [[x61; x2f; x62]; [x63]] [x01; x02]) /\
    SubscribeMessage_Decode NewSubscribeMessage (bytes ++ [xff])
    = mkDecoded (len bytes) None
        (mkSubscribe (mkFixedHeader [] (SubscribeMessage_size m) SUBSCRIBE x02)
           7 [[x61; x2f; x62]; [x63]] [x01; x02]) [xff].
Proof.
  intros m.
  destruct (SubscribeMessage_round_trip m [xff]) as (bytes & He & Hd & _).
  - reflexivity.
  - reflexivity.
  - cbn. lia.
  - reflexivity.
  - reflexivity.
  - vm_compute. discriminate.
  - exists bytes. split; [exact He |]. apply Hd. discriminate.
Defined.

(** The decoding loop of UNSUBSCRIBE on a buffer made of topics. *)
Lemma UnsubscribeMessage_Decode_loop_topics (ts : list (list byte)) :
  forall (k : nat) (total : Z) (h : fixedHeader) (id : Z) (ts0 : list (list byte)),
    topics_fit ts = true ->
    (length (unsubscribe_topics_bytes ts) <= k)%nat ->
    UnsubscribeMessage_Decode_loop k total
      (mkUnsubscribe (set_buf h (unsubscribe_topics_bytes ts)) id ts0)
    = Some (total + len (unsubscribe_topics_bytes ts), None,
            mkUnsubscribe (set_buf h []) id (ts0 ++ ts)).
Proof.
  induction ts as [| t ts IH]; intros k total h id ts0 Hfit Hk.
  - change (unsubscribe_topics_bytes []) with (@nil byte).
    rewrite app_nil_r. change (len (@nil byte)) with 0. rewrite Z.add_0_r.
    destruct k; reflexivity.
  - apply topics_fit_cons in Hfit. destruct Hfit as [Ht Hfit].
    rewrite unsubscribe_topics_bytes_cons in *.
    destruct k as [| k].
    { rewrite !length_app in Hk. unfold lp in Hk. cbn in Hk. lia. }
    cbn [UnsubscribeMessage_Decode_loop]. unsub_simpl.
    assert (Hpos : (0 <? len (lp t ++ unsubscribe_topics_bytes ts)) = true).
    { apply Z.ltb_lt. rewrite len_app, len_lp. pose proof (len_nonneg t).
      pose proof (len_nonneg (unsubscribe_topics_bytes ts)). lia. }
    rewrite Hpos, readLPBytes_lp by assumption. unsub_simpl.
    specialize (IH k (total + (2 + len t)) h id (ts0 ++ [t])).
    unfold set_buf in IH. cbn [buf remlen mtype flags] in IH.
    rewrite IH.
    + rewrite <- !app_assoc. cbn [app]. rewrite !len_app, len_lp.
      f_equal. f_equal. f_equal. lia.
    + exact Hfit.
    + rewrite !length_app in Hk. unfold lp in Hk. cbn [length app uint16_bytes] in Hk. lia.
Qed.

(** What [UnsubscribeMessage.Decode] returns on a packet whose payload is made
    of topics. *)
Lemma UnsubscribeMessage_Decode_topics (this : UnsubscribeMessage) (hi lo : byte)
  (ts : list (list byte)) (rest : list byte) :
  mtype (unsubscribe_header this) = UNSUBSCRIBE ->
  topics_fit ts = true ->
  2 + len (unsubscribe_topics_bytes ts) <= maxRemainingLength ->
  let body := hi :: lo :: unsubscribe_topics_bytes ts in
  UnsubscribeMessage_Decode this (frame UNSUBSCRIBE x02 body ++ rest)
  = if len (unsubscribe_topics this ++ ts) =? 0
    then mkDecoded 0 (Some ErrUnsubscribeEmpty)
           (mkUnsubscribe (mkFixedHeader [] (len body) UNSUBSCRIBE x02)
              (b2z hi * 256 + b2z lo) (unsubscribe_topics this ++ ts)) rest
    else mkDecoded (1 + len (varint_bytes (len body)) + len body) None
           (mkUnsubscribe (mkFixedHeader [] (len body) UNSUBSCRIBE x02)
              (b2z hi * 256 + b2z lo) (unsubscribe_topics this ++ ts)) rest.
Proof.
  intros Hm Hfit Hlen body. unfold UnsubscribeMessage_Decode.
  assert (Hb : len body = 2 + len (unsubscribe_topics_bytes ts))
    by (subst body; rewrite !len_cons; lia).
  rewrite (fixedHeader_Decode_frame (unsubscribe_header this) UNSUBSCRIBE x02 body rest Hm
             eq_refl eq_refl (fun _ => eq_refl) (fun H => ltac:(discriminate H))
             ltac:(lia)).
  cbn [d_err d_msg d_n d_src]. unsub_simpl. subst body. cbn [readUint16]. unsub_simpl.
  pose proof (UnsubscribeMessage_Decode_loop_topics ts
                (length (unsubscribe_topics_bytes ts))
                (0 + (1 + len (varint_bytes (len (hi :: lo :: unsubscribe_topics_bytes ts)))) + 2)
                (mkFixedHeader [] (len (hi :: lo :: unsubscribe_topics_bytes ts)) UNSUBSCRIBE x02)
                (b2z hi * 256 + b2z lo) (unsubscribe_topics this)
                Hfit (Nat.le_refl _)) as Hloop.
  unfold set_buf in Hloop. cbn [buf remlen mtype flags] in Hloop.
  rewrite Hloop. unsub_simpl.
  destruct (len (unsubscribe_topics this ++ ts) =? 0); [reflexivity |].
  f_equal. rewrite Hb. lia.
Qed.

Lemma unsubscribe_encode_header_in_range (m : UnsubscribeMessage) :
  UnsubscribeMessage_size m <= maxRemainingLength ->
  unsubscribe_encode_header m = set_remlen (unsubscribe_header m) (UnsubscribeMessage_size m).
Proof.
  intros H. unfold unsubscribe_encode_header.
  pose proof (UnsubscribeMessage_size_spec m) as Hs.
  pose proof (len_nonneg (unsubscribe_topics_bytes (unsubscribe_topics m))).
  unfold maxRemainingLength in H.
  rewrite to_int32_small by lia.
  rewrite SetRemainingLength_ok by (unfold maxRemainingLength; lia). reflexivity.
Qed.

(** X13: the round trip of UNSUBSCRIBE.  A message with topics of at most
    65535 bytes each, a 16-bit packet identifier and a body of at most
    268,435,455 bytes is encoded without error; when it has at least one
    topic, [UnsubscribeMessage.Decode] on a new message reads the packet
    identifier and the topics, in their order, back from the bytes written,
    consuming exactly them; when it has no topic, the four bytes written are
    rejected by [UnsubscribeMessage.Decode] on a new message. *)
Theorem UnsubscribeMessage_round_trip (m : UnsubscribeMessage) (rest : list byte) :
  mtype (unsubscribe_header m) = UNSUBSCRIBE -> flags (unsubscribe_header m) = x02 ->
  0 <= unsubscribe_packetId m < 65536 ->
  topics_fit (unsubscribe_topics m) = true ->
  UnsubscribeMessage_size m <= maxRemainingLength ->
  exists bytes,
    UnsubscribeMessage_Encode m
    = mkEncoded (Some bytes) (len bytes) None
        (mkUnsubscribe (mkFixedHeader bytes (UnsubscribeMessage_size m) UNSUBSCRIBE x02)
           (unsubscribe_packetId m) (unsubscribe_topics m)) /\
    (unsubscribe_topics m <> [] ->
     UnsubscribeMessage_Decode NewUnsubscribeMessage (bytes ++ rest)
     = mkDecoded (len bytes) None
         (mkUnsubscribe (mkFixedHeader [] (UnsubscribeMessage_size m) UNSUBSCRIBE x02)
            (unsubscribe_packetId m) (unsubscribe_topics m)) rest) /\
    (unsubscribe_topics m = [] ->
     len bytes = 4 /\
     d_err (UnsubscribeMessage_Decode NewUnsubscribeMessage (bytes ++ rest))
     = Some ErrUnsubscribeEmpty).
Proof.
  intros Hm Hf Hid Hfit Hsize.
  pose proof (UnsubscribeMessage_size_spec m) as Hs.
  pose proof (unsubscribe_encode_header_in_range m Hsize) as Hh.
  set (body := uint16_bytes (unsubscribe_packetId m)
               ++ unsubscribe_topics_bytes (unsubscribe_topics m)).
  assert (Hbody : len body = UnsubscribeMessage_size m).
  { subst body. rewrite len_app, len_uint16_bytes. lia. }
  exists (frame UNSUBSCRIBE x02 body).
  assert (Hbytes : header_bytes (unsubscribe_encode_header m) ++ body
                   = frame UNSUBSCRIBE x02 body).
  { rewrite Hh. unfold header_bytes, frame. hdr_simpl. rewrite Hm, Hf, Hbody. reflexivity. }
  split; [| split].
  - rewrite UnsubscribeMessage_Encode_ok;
      [| rewrite Hm; reflexivity | rewrite Hh; hdr_simpl; assumption | assumption].
    cbv zeta. fold body. rewrite Hbytes, Hh. hdr_simpl. rewrite Hm, Hf. reflexivity.
  - intros Hne. subst body. unfold uint16_bytes in *. cbn [app] in *.
    rewrite (UnsubscribeMessage_Decode_topics NewUnsubscribeMessage _ _ (unsubscribe_topics m)
               rest eq_refl Hfit) by (rewrite <- Hs; exact Hsize).
    cbv zeta. rewrite uint16_bytes_value by assumption.
    change (unsubscribe_topics NewUnsubscribeMessage ++ unsubscribe_topics m)
      with (unsubscribe_topics m).
    destruct (Z.eqb_spec (len (unsubscribe_topics m)) 0) as [E | _].
    { apply len_zero_nil in E. contradiction. }
    rewrite len_frame, Hbody. reflexivity.
  - intros He. subst body. rewrite He. split; reflexivity.
Qed.

Lemma UnsubscribeMessage_round_trip_witness :
  let m := mkUnsubscribe (unsubscribe_header NewUnsubscribeMessage) 7 [[x61; x2f; x62]; [x63]] in
  exists bytes,
    UnsubscribeMessage_Encode m
    = mkEncoded (Some bytes) (len bytes) None
        (mkUnsubscribe (mkFixedHeader bytes (UnsubscribeMessage_size m) UNSUBSCRIBE x02)
           7 [[x61; x2f; x62]; [x63]]) /\
    UnsubscribeMessage_Decode NewUnsubscribeMessage (bytes ++ [xff])
    = mkDecoded (len bytes) None
        (mkUnsubscribe (mkFixedHeader [] (UnsubscribeMessage_size m) UNSUBSCRIBE x02)
           7 [[x61; x2f; x62]; [x63]]) [xff].
Proof.
  intros m.
  destruct (UnsubscribeMessage_round_trip m [xff]) as (bytes & He & Hd & _).
  - reflexivity.
  - reflexivity.
  - cbn. lia.
  - reflexivity.
  - vm_compute. discriminate.
  - exists bytes. split; [exact He |]. apply Hd. discriminate.
Defined.

(** * SUBACK *)

(** What [SubackMessage.Decode] returns on a SUBACK packet with a packet
    identifier. *)
Lemma SubackMessage_Decode_codes (this : SubackMessage) (hi lo : byte) (codes rest : list byte) :
  mtype (suback_header this) = SUBACK ->
  2 + len codes <= maxRemainingLength ->
  let body := hi :: lo :: codes in
  SubackMessage_Decode this (frame SUBACK x00 body ++ rest)
  = mkDecoded (1 + len (varint_bytes (len body)) + len body)
      (if existsb bad_return_code codes then Some ErrSubackDecodeCode else None)
      (mkSuback (mkFixedHeader [] (len body) SUBACK x00) (b2z hi * 256 + b2z lo) codes) rest.
Proof.
  intros Hm Hlen body. unfold SubackMessage_Decode.
  assert (Hb : len body = 2 + len codes) by (subst body; rewrite !len_cons; lia).
  rewrite (fixedHeader_Decode_frame (suback_header this) SUBACK x00 body rest Hm
             eq_refl eq_refl (fun _ => eq_refl) (fun H => ltac:(discriminate H))
             ltac:(lia)).
  cbn [d_err d_msg d_n d_src suback_header suback_packetId returnCodes]. hdr_simpl.
  subst body. cbn [readUint16].
  cbn [suback_header suback_packetId returnCodes]. hdr_simpl.
  unfold Next. rewrite firstn_len, skipn_len.
  cbn [suback_header suback_packetId returnCodes]. hdr_simpl.
  replace (0 + (1 + len (varint_bytes (len (hi :: lo :: codes)))) + 2 + len codes)
    with (1 + len (varint_bytes (len (hi :: lo :: codes))) + len (hi :: lo :: codes))
    by (rewrite Hb; lia).
  destruct (existsb bad_return_code codes); reflexivity.
Qed.

(** X14: the round trip of SUBACK.  A message whose return codes are all among
    0, 1, 2 and 0x80, with a 16-bit packet identifier and at most 268,435,453
    return codes, is encoded without error, and [SubackMessage.Decode] reads
    the packet identifier and the return codes back from the bytes written;
    the codes read replace those of the receiver.  A message with another
    return code is refused by [SubackMessage.Encode] before anything is
    written, and a packet with another return code is rejected by
    [SubackMessage.Decode], which has stored the codes in the receiver by
    then. *)
Theorem SubackMessage_round_trip :
  (forall (m this : SubackMessage) (rest : list byte),
      mtype (suback_header m) = SUBACK -> flags (suback_header m) = x00 ->
      0 <= suback_packetId m < 65536 ->
      existsb bad_return_code (returnCodes m) = false ->
      2 + len (returnCodes m) <= maxRemainingLength ->
      mtype (suback_header this) = SUBACK ->
      exists bytes,
        SubackMessage_Encode m
        = mkEncoded (Some bytes) (len bytes) None
            (mkSuback (mkFixedHeader bytes (2 + len (returnCodes m)) SUBACK x00)
               (suback_packetId m) (returnCodes m)) /\
        SubackMessage_Decode this (bytes ++ rest)
        = mkDecoded (len bytes) None
            (mkSuback (mkFixedHeader [] (2 + len (returnCodes m)) SUBACK x00)
               (suback_packetId m) (returnCodes m)) rest) /\
  (forall m : SubackMessage,
      existsb bad_return_code (returnCodes m) = true ->
      SubackMessage_Encode m = mkEncoded None 0 (Some ErrSubackEncodeCode) m) /\
  (forall (this : SubackMessage) (hi lo : byte) (codes rest : list byte),
      mtype (suback_header this) = SUBACK ->
      2 + len codes <= maxRemainingLength ->
      existsb bad_return_code codes = true ->
      let r := SubackMessage_Decode this (frame SUBACK x00 (hi :: lo :: codes) ++ rest) in
      d_err r = Some ErrSubackDecodeCode /\ returnCodes (d_msg r) = codes).
Proof.
  split; [| split].
  - intros m this rest Hm Hf Hid Hok Hlen Hthis.
    set (body := uint16_bytes (suback_packetId m) ++ returnCodes m).
    assert (Hbody : len body = 2 + len (returnCodes m)).
    { subst body. rewrite len_app, len_uint16_bytes. reflexivity. }
    exists (frame SUBACK x00 body). split.
    + unfold SubackMessage_Encode. rewrite Hok.
      pose proof (len_nonneg (returnCodes m)). unfold maxRemainingLength in Hlen.
      rewrite !to_int32_small by (rewrite ?to_int32_small; lia).
      rewrite SetRemainingLength_ok by (unfold maxRemainingLength; lia). cbn [snd].
      rewrite fixedHeader_Encode_ok;
        [| hdr_simpl; unfold maxRemainingLength; lia | hdr_simpl; rewrite Hm; reflexivity].
      cbn [e_err e_msg e_n e_reader suback_header suback_packetId returnCodes]. hdr_simpl.
      rewrite writeUint16_bytes. unfold header_bytes. hdr_simpl. rewrite Hm, Hf.
      rewrite len_frame, Hbody. unfold frame. rewrite Hbody. subst body.
      cbn [app]. rewrite <- !app_assoc. f_equal. lia.
    + subst body. unfold uint16_bytes in *. cbn [app] in *.
      rewrite (SubackMessage_Decode_codes this _ _ (returnCodes m) rest Hthis Hlen).
      cbv zeta. rewrite Hok, uint16_bytes_value, len_frame, Hbody by assumption.
      reflexivity.
  - intros m Hbad. unfold SubackMessage_Encode. rewrite Hbad. reflexivity.
  - intros this hi lo codes rest Hm Hlen Hbad r. subst r.
    rewrite (SubackMessage_Decode_codes this hi lo codes rest Hm Hlen). cbv zeta.
    rewrite Hbad. split; reflexivity.
Qed.

Lemma SubackMessage_round_trip_witness :
  let m := mkSuback (suback_header NewSubackMessage) 7 [x00; x01; x02; x80] in
  exists bytes,
    SubackMessage_Encode m
    = mkEncoded (Some bytes) (len bytes) None
        (mkSuback (mkFixedHeader bytes (2 + len (returnCodes m)) SUBACK x00) 7
           [x00; x01; x02; x80]) /\
    SubackMessage_Decode NewSubackMessage (bytes ++ [xff])
    = mkDecoded (len bytes) None
        (mkSuback (mkFixedHeader [] (2 + len (returnCodes m)) SUBACK x00) 7
           [x00; x01; x02; x80]) [xff].
Proof.
  intros m.
  refine (proj1 SubackMessage_round_trip m NewSubackMessage [xff] _ _ _ _ _ _).
  - reflexivity.
  - reflexivity.
  - cbn. lia.
  - reflexivity.
  - vm_compute. discriminate.
  - reflexivity.
Defined.

(** The only errors of [fixedHeader.Encode]. *)
Lemma fixedHeader_Encode_errors (h : fixedHeader) :
  In (e_err (fixedHeader_Encode h))
     [None; Some ErrHeaderEncodeRemlen; Some ErrHeaderEncodeType].
Proof.
  unfold fixedHeader_Encode.
  destruct (Z.ltb_spec maxRemainingLength (remlen h)) as [H | H].
  { right. left. reflexivity. }
  destruct (Valid (mtype h)); cbn [negb].
  - rewrite writeVarint32_varint_bytes by (unfold resetBuf; hdr_simpl; exact H).
    left. reflexivity.
  - right. right. left. reflexivity.
Qed.

Lemma SubackMessage_AddReturnCodes_spec (ret : list byte) :
  forall m : SubackMessage,
    (existsb bad_return_code ret = false ->
     SubackMessage_AddReturnCodes m ret
     = (None, mkSuback (suback_header m) (suback_packetId m) (returnCodes m ++ ret))) /\
    (existsb bad_return_code ret = true ->
     exists pre c post,
       ret = pre ++ c :: post /\ bad_return_code c = true /\
       existsb bad_return_code pre = false /\
       SubackMessage_AddReturnCodes m ret
       = (Some ErrSubackAddCode,
          mkSuback (suback_header m) (suback_packetId m) (returnCodes m ++ pre))).
Proof.
  induction ret as [| c ret IH]; intros m.
  - split; [| discriminate]. intros _. cbn [SubackMessage_AddReturnCodes].
    rewrite app_nil_r. destruct m; reflexivity.
  - cbn [SubackMessage_AddReturnCodes existsb].
    destruct (bad_return_code c) eqn:Ec; cbn [orb].
    + split; [discriminate |]. intros _. exists [], c, ret.
      rewrite app_nil_r. repeat split; try assumption. destruct m; reflexivity.
    + destruct (IH (mkSuback (suback_header m) (suback_packetId m) (returnCodes m ++ [c])))
        as [IH1 IH2].
      cbn [suback_header suback_packetId returnCodes] in IH1, IH2.
      rewrite <- app_assoc in IH1. cbn [app] in IH1.
      split; [exact IH1 |].
      intros H. destruct (IH2 H) as (pre & c' & post & Hr & Hc & Hpre & Heq).
      exists (c :: pre), c', post.
      split; [cbn [app]; rewrite <- Hr; reflexivity |].
      split; [assumption |].
      split; [cbn [existsb]; rewrite Ec, Hpre; reflexivity |].
      rewrite Heq, <- app_assoc. reflexivity.
Qed.

(** X15: [SubackMessage.AddReturnCodes] appends the codes it is given one at a
    time and stops at the first that is not 0, 1, 2 or 0x80: with valid codes
    only, all are appended; otherwise an error is returned and the codes
    before the first invalid one have been appended.  In both cases no invalid
    code enters the list, so a message built from [NewSubackMessage] with it
    is never refused by [SubackMessage.Encode] for its return codes. *)
Theorem SubackMessage_AddReturnCodes_valid (m : SubackMessage) (ret : list byte) :
  let r := SubackMessage_AddReturnCodes m ret in
  (existsb bad_return_code ret = false ->
   r = (None, mkSuback (suback_header m) (suback_packetId m) (returnCodes m ++ ret))) /\
  (existsb bad_return_code ret = true ->
   exists pre c post,
     ret = pre ++ c :: post /\ bad_return_code c = true /\
     existsb bad_return_code pre = false /\
     r = (Some ErrSubackAddCode,
          mkSuback (suback_header m) (suback_packetId m) (returnCodes m ++ pre))) /\
  (existsb bad_return_code (returnCodes m) = false ->
   existsb bad_return_code (returnCodes (snd r)) = false /\
   e_err (SubackMessage_Encode (snd r)) <> Some ErrSubackEncodeCode).
Proof.
  intros r. subst r.
  destruct (SubackMessage_AddReturnCodes_spec ret m) as [H1 H2].
  split; [exact H1 |]. split; [exact H2 |].
  intros Hm.
  assert (Hinv : existsb bad_return_code
                   (returnCodes (snd (SubackMessage_AddReturnCodes m ret))) = false).
  { destruct (existsb bad_return_code ret) eqn:E.
    - destruct (H2 eq_refl) as (pre & c & post & _ & _ & Hpre & Heq).
      rewrite Heq. cbn [snd returnCodes]. rewrite existsb_app, Hm, Hpre. reflexivity.
    - rewrite (H1 eq_refl). cbn [snd returnCodes]. rewrite existsb_app, Hm, E. reflexivity. }
  split; [exact Hinv |].
  unfold SubackMessage_Encode. rewrite Hinv.
  match goal with
  | |- context [fixedHeader_Encode ?h] =>
      pose proof (fixedHeader_Encode_errors h) as Hfe;
      destruct (fixedHeader_Encode h) as [rd n err hm]
  end.
  cbn [e_err] in *. destruct err as [e |]; cbn [e_err]; [| discriminate].
  intros Hc. injection Hc as ->.
  destruct Hfe as [Hfe | [Hfe | [Hfe | []]]]; discriminate Hfe.
Qed.

Lemma SubackMessage_AddReturnCodes_valid_witness :
  exists pre c post,
    [x01; x03; x02] = pre ++ c :: post /\ bad_return_code c = true /\
    existsb bad_return_code pre = false /\
    SubackMessage_AddReturnCodes NewSubackMessage [x01; x03; x02]
    = (Some ErrSubackAddCode,
       mkSuback (suback_header NewSubackMessage) (suback_packetId NewSubackMessage)
         (returnCodes NewSubackMessage ++ pre)).
Proof.
  refine (proj1 (proj2 (SubackMessage_AddReturnCodes_valid NewSubackMessage [x01; x03; x02])) _).
  reflexivity.
Defined.

(** * The topic lists of SUBSCRIBE and UNSUBSCRIBE *)

Lemma find_topic_shift (ts : list (list byte)) (topic : list byte) :
  forall i : nat, find_topic ts topic (S i) = option_map S (find_topic ts topic i).
Proof.
  induction ts as [| t ts IH]; intros i; cbn [find_topic option_map].
  - reflexivity.
  - destruct (bytes_eqb t topic); [reflexivity | apply IH].
Qed.

Lemma find_topic_cons (t : list byte) (ts : list (list byte)) (topic : list byte) :
  find_topic (t :: ts) topic 0
  = if bytes_eqb t topic then Some O else option_map S (find_topic ts topic 0).
Proof.
  cbn [find_topic]. rewrite find_topic_shift. reflexivity.
Qed.

Lemma bytes_eqb_neq (a b : list byte) : a <> b -> bytes_eqb a b = false.
Proof.
  intros H. destruct (bytes_eqb a b) eqn:E; [| reflexivity].
  apply bytes_eqb_eq in E. contradiction.
Qed.

Lemma topic_exists_In (ts : list (list byte)) (topic : list byte) :
  existsb (fun t => bytes_eqb t topic) ts = true <-> In topic ts.
Proof.
  rewrite existsb_exists. split.
  - intros (t & Hin & He). apply bytes_eqb_eq in He. subst t. exact Hin.
  - intros Hin. exists topic. split; [exact Hin | apply bytes_eqb_refl].
Qed.

Lemma find_topic_None (ts : list (list byte)) (topic : list byte) :
  find_topic ts topic 0 = None <-> existsb (fun t => bytes_eqb t topic) ts = false.
Proof.
  induction ts as [| t ts IH].
  - cbn. tauto.
  - rewrite find_topic_cons. cbn [existsb].
    destruct (bytes_eqb t topic); cbn [orb].
    + split; discriminate.
    + rewrite <- IH. destruct (find_topic ts topic 0); cbn [option_map]; split;
        congruence.
Qed.

(** The index [find_topic] returns is the one of the first occurrence. *)
Lemma find_topic_Some (ts : list (list byte)) (topic : list byte) :
  forall i : nat,
    find_topic ts topic 0 = Some i ->
    exists pre post,
      ts = pre ++ topic :: post /\ ~ In topic pre /\ length pre = i.
Proof.
  induction ts as [| t ts IH]; intros i H.
  - discriminate H.
  - rewrite find_topic_cons in H.
    destruct (bytes_eqb t topic) eqn:E.
    + apply bytes_eqb_eq in E. subst t. injection H as <-.
      exists [], ts. repeat split. intros [].
    + destruct (find_topic ts topic 0) as [j |]; [| discriminate H].
      cbn [option_map] in H. injection H as <-.
      destruct (IH j eq_refl) as (pre & post & Hts & Hnin & Hlen).
      exists (t :: pre), post. subst ts. repeat split.
      * intros [Ht | Hin]; [| contradiction].
        subst t. rewrite bytes_eqb_refl in E. discriminate E.
      * cbn [length]. lia.
Qed.

Lemma remove_nth_middle {A} (pre post : list A) (x : A) :
  remove_nth (pre ++ x :: post) (length pre) = pre ++ post.
Proof.
  unfold remove_nth.
  rewrite firstn_app, Nat.sub_diag, firstn_all. cbn [firstn]. rewrite app_nil_r.
  replace (S (length pre)) with (length (pre ++ [x])) by (rewrite length_app; cbn; lia).
  replace (pre ++ x :: post) with ((pre ++ [x]) ++ post) by (rewrite <- app_assoc; reflexivity).
  rewrite skipn_app, Nat.sub_diag, skipn_all. reflexivity.
Qed.

Lemma set_nth_middle {A} (pre post : list A) (x v : A) :
  set_nth (pre ++ x :: post) (length pre) v = Some (pre ++ v :: post).
Proof.
  induction pre as [| a pre IH]; cbn [app length set_nth].
  - reflexivity.
  - rewrite IH. reflexivity.
Qed.

Lemma split_at_length {A} (qs : list A) (n : nat) :
  (n < length qs)%nat ->
  exists qpre q qpost, qs = qpre ++ q :: qpost /\ length qpre = n.
Proof.
  revert qs. induction n as [| n IH]; intros qs H.
  - destruct qs as [| q qs]; [cbn in H; lia |]. exists [], q, qs. split; reflexivity.
  - destruct qs as [| a qs]; [cbn in H; lia |].
    destruct (IH qs) as (qpre & q & qpost & Hq & Hl); [cbn in H; lia |].
    exists (a :: qpre), q, qpost. subst qs. split; [reflexivity | cbn; lia].
Qed.

(** [TopicQos] goes through the two lists in step. *)
Lemma SubscribeMessage_TopicQos_cons (h : fixedHeader) (id : Z) (t : list byte) (q : byte)
  (ts : list (list byte)) (qs : list byte) (topic : list byte) :
  SubscribeMessage_TopicQos (mkSubscribe h id (t :: ts) (q :: qs)) topic
  = if bytes_eqb t topic then Some q
    else SubscribeMessage_TopicQos (mkSubscribe h id ts qs) topic.
Proof.
  unfold SubscribeMessage_TopicQos. cbn [subscribe_topics qos].
  rewrite find_topic_cons. destruct (bytes_eqb t topic); [reflexivity |].
  destruct (find_topic ts topic 0); reflexivity.
Qed.

Lemma SubscribeMessage_TopicQos_here (h : fixedHeader) (id : Z) (topic : list byte) (q : byte)
  (post : list (list byte)) (qpost : list byte) (pre : list (list byte)) :
  forall qpre : list byte,
    length qpre = length pre -> ~ In topic pre ->
    SubscribeMessage_TopicQos (mkSubscribe h id (pre ++ topic :: post) (qpre ++ q :: qpost)) topic
    = Some q.
Proof.
  induction pre as [| t pre IH]; intros qpre Hl Hnin.
  - destruct qpre; [| discriminate Hl]. cbn [app].
    rewrite SubscribeMessage_TopicQos_cons, bytes_eqb_refl. reflexivity.
  - destruct qpre as [| q0 qpre]; [discriminate Hl |]. cbn [app].
    rewrite SubscribeMessage_TopicQos_cons.
    rewrite bytes_eqb_neq by (intros E; apply Hnin; left; exact E).
    apply IH; [cbn in Hl; lia | intros Hin; apply Hnin; right; exact Hin].
Qed.

(** The QoS of the other topics depends neither on the QoS stored for [topic]
    nor on whether [topic] is in the list. *)
Lemma SubscribeMessage_TopicQos_other (h : fixedHeader) (id : Z) (topic t' : list byte)
  (q0 q : byte) (post : list (list byte)) (qpost : list byte) (pre : list (list byte)) :
  forall qpre : list byte,
    length qpre = length pre -> t' <> topic ->
    let old := SubscribeMessage_TopicQos
                 (mkSubscribe h id (pre ++ topic :: post) (qpre ++ q0 :: qpost)) t' in
    SubscribeMessage_TopicQos (mkSubscribe h id (pre ++ topic :: post) (qpre ++ q :: qpost)) t'
    = old /\
    SubscribeMessage_TopicQos (mkSubscribe h id (pre ++ post) (qpre ++ qpost)) t' = old.
Proof.
  induction pre as [| t pre IH]; intros qpre Hl Hne old; subst old.
  - destruct qpre; [| discriminate Hl]. cbn [app].
    rewrite !SubscribeMessage_TopicQos_cons.
    rewrite bytes_eqb_neq by congruence. split; reflexivity.
  - destruct qpre as [| q1 qpre]; [discriminate Hl |]. cbn [app].
    rewrite !SubscribeMessage_TopicQos_cons.
    destruct (bytes_eqb t t'); [split; reflexivity |].
    apply IH; [cbn in Hl; lia | exact Hne].
Qed.

Lemma SubscribeMessage_TopicQos_snoc (h : fixedHeader) (id : Z) (topic t' : list byte) (q : byte)
  (ts : list (list byte)) :
  forall qs : list byte,
    length ts = length qs ->
    SubscribeMessage_TopicQos (mkSubscribe h id (ts ++ [topic]) (qs ++ [q])) t'
    = if existsb (fun t => bytes_eqb t t') ts
      then SubscribeMessage_TopicQos (mkSubscribe h id ts qs) t'
      else if bytes_eqb topic t' then Some q else Some QosFailure.
Proof.
  induction ts as [| t ts IH]; intros qs Hl.
  - destruct qs; [| discriminate Hl]. cbn [app existsb].
    rewrite SubscribeMessage_TopicQos_cons. reflexivity.
  - destruct qs as [| q0 qs]; [discriminate Hl |]. cbn [app existsb].
    rewrite !SubscribeMessage_TopicQos_cons.
    destruct (bytes_eqb t t'); cbn [orb]; [reflexivity |].
    apply IH. cbn in Hl. lia.
Qed.

Lemma SubscribeMessage_TopicQos_absent (m : SubscribeMessage) (topic : list byte) :
  SubscribeMessage_TopicExists m topic = false ->
  SubscribeMessage_TopicQos m topic = Some QosFailure.
Proof.
  unfold SubscribeMessage_TopicExists, SubscribeMessage_TopicQos. intros H.
  apply find_topic_None in H. rewrite H. reflexivity.
Qed.

(** X16: [SubscribeMessage.AddTopic] on a message with as many QoS bytes as
    topics.  An invalid QoS is refused and the message is left as it is.
    With a valid QoS the call succeeds: a topic that is in the list keeps its
    place and has its QoS replaced, a new topic is appended with its QoS; the
    two lists keep the same length, no topic is duplicated, [TopicQos] of the
    topic is the QoS given and [TopicQos] of every other topic is what it
    was. *)
Theorem SubscribeMessage_AddTopic_spec (m : SubscribeMessage) (topic : list byte) (q : byte) :
  length (subscribe_topics m) = length (qos m) ->
  (ValidQos q = false -> SubscribeMessage_AddTopic m topic q = (Some ErrSubscribeQos, m)) /\
  (ValidQos q = true ->
   exists ts' qs',
     let m' := mkSubscribe (subscribe_header m) (subscribe_packetId m) ts' qs' in
     SubscribeMessage_AddTopic m topic q = (None, m') /\
     length ts' = length qs' /\
     ts' = (if SubscribeMessage_TopicExists m topic
            then subscribe_topics m else subscribe_topics m ++ [topic]) /\
     (NoDup (subscribe_topics m) -> NoDup ts') /\
     SubscribeMessage_TopicExists m' topic = true /\
     SubscribeMessage_TopicQos m' topic = Some q /\
     forall t' : list byte,
       t' <> topic -> SubscribeMessage_TopicQos m' t' = SubscribeMessage_TopicQos m t').
Proof.
  intros Hl. destruct m as [h id ts qs]. cbn [subscribe_topics qos subscribe_header
                                               subscribe_packetId] in *.
  unfold SubscribeMessage_AddTopic. cbn [subscribe_topics qos subscribe_header
                                          subscribe_packetId].
  split.
  - intros Hq. rewrite Hq. reflexivity.
  - intros Hq. rewrite Hq. cbn [negb].
    unfold SubscribeMessage_TopicExists at 1. cbn [subscribe_topics].
    destruct (find_topic ts topic 0) as [i |] eqn:Ef.
    + destruct (find_topic_Some ts topic i Ef) as (pre & post & Hts & Hnin & Hlen).
      assert (Hex : existsb (fun t => bytes_eqb t topic) ts = true).
      { destruct (existsb (fun t => bytes_eqb t topic) ts) eqn:E; [reflexivity |].
        apply find_topic_None in E. congruence. }
      destruct (split_at_length qs i) as (qpre & q0 & qpost & Hqs & Hql).
      { rewrite <- Hl, Hts, length_app. cbn [length]. lia. }
      rewrite Hex. subst qs. rewrite <- Hql, set_nth_middle.
      exists ts, (qpre ++ q :: qpost). cbv zeta.
      split; [reflexivity |]. split.
      { rewrite Hl, !length_app. reflexivity. }
      split; [reflexivity |]. split; [auto |]. split.
      { unfold SubscribeMessage_TopicExists. exact Hex. }
      subst ts. split.
      * apply SubscribeMessage_TopicQos_here; [lia | exact Hnin].
      * intros t' Hne.
        apply (SubscribeMessage_TopicQos_other h id topic t' q0 q post qpost pre qpre); [lia | exact Hne].
    + assert (Hex : existsb (fun t => bytes_eqb t topic) ts = false)
        by (apply find_topic_None; exact Ef).
      rewrite Hex. exists (ts ++ [topic]), (qs ++ [q]). cbv zeta.
      split; [reflexivity |]. split.
      { rewrite !length_app, Hl. reflexivity. }
      split; [reflexivity |]. split.
      { intros Hnd. apply NoDup_app; [exact Hnd | repeat constructor; intros [] |].
        intros a Ha [<- | []].
        apply topic_exists_In in Ha. congruence. }
      split.
      { unfold SubscribeMessage_TopicExists. cbn [subscribe_topics].
        rewrite existsb_app. cbn [existsb]. rewrite bytes_eqb_refl, orb_true_r. reflexivity. }
      split.
      * rewrite SubscribeMessage_TopicQos_snoc by exact Hl.
        rewrite Hex, bytes_eqb_refl. reflexivity.
      * intros t' Hne. rewrite SubscribeMessage_TopicQos_snoc by exact Hl.
        destruct (existsb (fun t => bytes_eqb t t') ts) eqn:E; [reflexivity |].
        rewrite bytes_eqb_neq by congruence. symmetry.
        apply SubscribeMessage_TopicQos_absent. exact E.
Qed.

Lemma SubscribeMessage_AddTopic_spec_witness :
  let m := mkSubscribe (subscribe_header NewSubscribeMessage) 1 [[x61]; [x62]] [x00; x01] in
  exists ts' qs',
    let m' := mkSubscribe (subscribe_header m) (subscribe_packetId m) ts' qs' in
    SubscribeMessage_AddTopic m [x61] x02 = (None, m') /\
    length ts' = length qs' /\
    ts' = (if SubscribeMessage_TopicExists m [x61]
           then subscribe_topics m else subscribe_topics m ++ [[x61]]) /\
    (NoDup (subscribe_topics m) -> NoDup ts') /\
    SubscribeMessage_TopicExists m' [x61] = true /\
    SubscribeMessage_TopicQos m' [x61] = Some x02 /\
    forall t' : list byte,
      t' <> [x61] -> SubscribeMessage_TopicQos m' t' = SubscribeMessage_TopicQos m t'.
Proof.
  intros m.
  refine (proj2 (SubscribeMessage_AddTopic_spec m [x61] x02 _) _); reflexivity.
Defined.

(** X17: [SubscribeMessage.RemoveTopic] on a message with as many QoS bytes
    as topics never panics.  A topic that is not in the list leaves the message
    as it is; otherwise the first occurrence of the topic and the QoS at its
    index are taken out, the two lists keep the same length and [TopicQos] of
    every other topic is what it was; when the list has no duplicate, the
    topic is no longer in it and its [TopicQos] is [QosFailure]. *)
Theorem SubscribeMessage_RemoveTopic_spec (m : SubscribeMessage) (topic : list byte) :
  length (subscribe_topics m) = length (qos m) ->
  exists ts' qs',
    let m' := mkSubscribe (subscribe_header m) (subscribe_packetId m) ts' qs' in
    SubscribeMessage_RemoveTopic m topic = Some m' /\
    length ts' = length qs' /\
    (SubscribeMessage_TopicExists m topic = false ->
     ts' = subscribe_topics m /\ qs' = qos m) /\
    (SubscribeMessage_TopicExists m topic = true ->
     exists pre post,
       subscribe_topics m = pre ++ topic :: post /\ ~ In topic pre /\ ts' = pre ++ post) /\
    (NoDup (subscribe_topics m) ->
     NoDup ts' /\ SubscribeMessage_TopicExists m' topic = false /\
     SubscribeMessage_TopicQos m' topic = Some QosFailure) /\
    forall t' : list byte,
      t' <> topic -> SubscribeMessage_TopicQos m' t' = SubscribeMessage_TopicQos m t'.
Proof.
  intros Hl. destruct m as [h id ts qs].
  cbn [subscribe_topics qos subscribe_header subscribe_packetId] in *.
  unfold SubscribeMessage_RemoveTopic. cbn [subscribe_topics qos subscribe_header
                                             subscribe_packetId].
  unfold SubscribeMessage_TopicExists at 1 2. cbn [subscribe_topics].
  destruct (find_topic ts topic 0) as [i |] eqn:Ef.
  - destruct (find_topic_Some ts topic i Ef) as (pre & post & Hts & Hnin & Hlen).
    assert (Hex : existsb (fun t => bytes_eqb t topic) ts = true).
    { destruct (existsb (fun t => bytes_eqb t topic) ts) eqn:E; [reflexivity |].
      apply find_topic_None in E. congruence. }
    destruct (split_at_length qs i) as (qpre & q0 & qpost & Hqs & Hql).
    { rewrite <- Hl, Hts, length_app. cbn [length]. lia. }
    assert (Hi : (S i <=? length qs)%nat = true).
    { apply Nat.leb_le. rewrite Hqs, length_app. cbn [length]. lia. }
    rewrite Hi, Hex. subst ts qs i.
    rewrite remove_nth_middle. rewrite <- Hql. rewrite remove_nth_middle.
    exists (pre ++ post), (qpre ++ qpost). cbv zeta.
    split; [reflexivity |]. split.
    { rewrite !length_app in *. cbn [length] in Hl. lia. }
    split; [discriminate |]. split.
    { intros _. exists pre, post. auto. }
    split.
    + intros Hnd. pose proof (NoDup_remove _ _ _ Hnd) as [Hnd' Hnin'].
      assert (Hex' : SubscribeMessage_TopicExists
                       (mkSubscribe h id (pre ++ post) (qpre ++ qpost)) topic = false).
      { unfold SubscribeMessage_TopicExists. cbn [subscribe_topics].
        destruct (existsb (fun t => bytes_eqb t topic) (pre ++ post)) eqn:E; [| reflexivity].
        apply topic_exists_In in E. contradiction. }
      split; [exact Hnd' |]. split; [exact Hex' |].
      apply SubscribeMessage_TopicQos_absent. exact Hex'.
    + intros t' Hne.
      apply (SubscribeMessage_TopicQos_other h id topic t' q0 q0 post qpost pre qpre); [lia | exact Hne].
  - assert (Hex : existsb (fun t => bytes_eqb t topic) ts = false)
      by (apply find_topic_None; exact Ef).
    rewrite Hex. exists ts, qs. cbv zeta.
    split; [reflexivity |]. split; [exact Hl |]. split; [auto |]. split; [discriminate |].
    split.
    + intros Hnd. split; [exact Hnd |]. split; [exact Hex |].
      apply SubscribeMessage_TopicQos_absent. exact Hex.
    + reflexivity.
Qed.

Lemma SubscribeMessage_RemoveTopic_spec_witness :
  let m := mkSubscribe (subscribe_header NewSubscribeMessage) 1 [[x61]; [x62]] [x00; x01] in
  exists ts' qs',
    let m' := mkSubscribe (subscribe_header m) (subscribe_packetId m) ts' qs' in
    SubscribeMessage_RemoveTopic m [x61] = Some m' /\
    length ts' = length qs' /\
    (SubscribeMessage_TopicExists m [x61] = false ->
     ts' = subscribe_topics m /\ qs' = qos m) /\
    (SubscribeMessage_TopicExists m [x61] = true ->
     exists pre post,
       subscribe_topics m = pre ++ [x61] :: post /\ ~ In [x61] pre /\ ts' = pre ++ post) /\
    (NoDup (subscribe_topics m) ->
     NoDup ts' /\ SubscribeMessage_TopicExists m' [x61] = false /\
     SubscribeMessage_TopicQos m' [x61] = Some QosFailure) /\
    forall t' : list byte,
      t' <> [x61] -> SubscribeMessage_TopicQos m' t' = SubscribeMessage_TopicQos m t'.
Proof.
  intros m.
  refine (SubscribeMessage_RemoveTopic_spec m [x61] _). reflexivity.
Defined.

(** X18: the topic list of UNSUBSCRIBE.  [AddTopic] appends a topic that is
    not in the list and leaves the message as it is otherwise, so that adding
    a topic twice is adding it once; [RemoveTopic] takes out the first
    occurrence of a topic and leaves the message as it is when there is none;
    neither changes whether another topic is in the list; both keep a list
    without duplicates free of duplicates, and from such a list [RemoveTopic]
    removes the topic altogether. *)
Theorem UnsubscribeMessage_topics_spec (m : UnsubscribeMessage) (topic : list byte) :
  let a := UnsubscribeMessage_AddTopic m topic in
  let r := UnsubscribeMessage_RemoveTopic m topic in
  UnsubscribeMessage_TopicExists a topic = true /\
  UnsubscribeMessage_AddTopic a topic = a /\
  (UnsubscribeMessage_TopicExists m topic = true -> a = m) /\
  (UnsubscribeMessage_TopicExists m topic = false ->
   unsubscribe_topics a = unsubscribe_topics m ++ [topic] /\ r = m) /\
  (UnsubscribeMessage_TopicExists m topic = true ->
   exists pre post,
     unsubscribe_topics m = pre ++ topic :: post /\ ~ In topic pre /\
     unsubscribe_topics r = pre ++ post) /\
  (forall t' : list byte,
      t' <> topic ->
      UnsubscribeMessage_TopicExists a t' = UnsubscribeMessage_TopicExists m t' /\
      UnsubscribeMessage_TopicExists r t' = UnsubscribeMessage_TopicExists m t') /\
  (NoDup (unsubscribe_topics m) ->
   NoDup (unsubscribe_topics a) /\ NoDup (unsubscribe_topics r) /\
   UnsubscribeMessage_TopicExists r topic = false).
Proof.
  intros a r. subst a r. destruct m as [h id ts].
  unfold UnsubscribeMessage_AddTopic, UnsubscribeMessage_RemoveTopic,
    UnsubscribeMessage_TopicExists.
  cbn [unsubscribe_topics unsubscribe_header unsubscribe_packetId].
  destruct (existsb (fun t => bytes_eqb t topic) ts) eqn:Hex.
  - (* the topic is in the list *)
    cbn [unsubscribe_topics unsubscribe_header unsubscribe_packetId]. rewrite Hex.
    destruct (find_topic ts topic 0) as [i |] eqn:Ef;
      [| apply find_topic_None in Ef; congruence].
    destruct (find_topic_Some ts topic i Ef) as (pre & post & Hts & Hnin & Hlen).
    subst ts i. cbn [unsubscribe_topics]. rewrite remove_nth_middle.
    split; [reflexivity |]. split; [reflexivity |]. split; [reflexivity |].
    split; [discriminate |]. split.
    { intros _. exists pre, post. auto. }
    split.
    + intros t' Hne. split; [reflexivity |].
      rewrite !existsb_app. cbn [existsb].
      rewrite (bytes_eqb_neq topic t') by congruence. reflexivity.
    + intros Hnd. pose proof (NoDup_remove _ _ _ Hnd) as [Hnd' Hnin'].
      split; [exact Hnd |]. split; [exact Hnd' |].
      destruct (existsb (fun t => bytes_eqb t topic) (pre ++ post)) eqn:E; [| reflexivity].
      apply topic_exists_In in E. contradiction.
  - (* the topic is not in the list *)
    cbn [unsubscribe_topics unsubscribe_header unsubscribe_packetId].
    assert (Ef : find_topic ts topic 0 = None) by (apply find_topic_None; exact Hex).
    rewrite Ef.
    assert (Hex' : existsb (fun t => bytes_eqb t topic) (ts ++ [topic]) = true).
    { rewrite existsb_app. cbn [existsb]. rewrite bytes_eqb_refl, orb_true_r. reflexivity. }
    rewrite Hex'.
    split; [reflexivity |]. split; [reflexivity |]. split; [discriminate |].
    split; [auto |]. split; [discriminate |]. split.
    + intros t' Hne. split; [| reflexivity].
      rewrite existsb_app. cbn [existsb].
      rewrite (bytes_eqb_neq topic t') by congruence. rewrite !orb_false_r. reflexivity.
    + intros Hnd. split; [| split; [exact Hnd | exact Hex]].
      apply NoDup_app; [exact Hnd | repeat constructor; intros [] |].
      intros x Hx [<- | []]. apply topic_exists_In in Hx. congruence.
Qed.

Lemma UnsubscribeMessage_topics_spec_witness :
  let m := mkUnsubscribe (unsubscribe_header NewUnsubscribeMessage) 1 [[x61]; [x62]] in
  NoDup (unsubscribe_topics (UnsubscribeMessage_AddTopic m [x62])) /\
  NoDup (unsubscribe_topics (UnsubscribeMessage_RemoveTopic m [x62])) /\
  UnsubscribeMessage_TopicExists (UnsubscribeMessage_RemoveTopic m [x62]) [x62] = false.
Proof.
  intros m.
  refine (proj2 (proj2 (proj2 (proj2 (proj2 (proj2
            (UnsubscribeMessage_topics_spec m [x62])))))) _).
  repeat constructor; cbn; intuition discriminate.
Defined.

(** * CONNECT *)

Lemma lp_nonempty (s rest : list byte) : (0 <? len (lp s ++ rest)) = true.
Proof.
  apply Z.ltb_lt. rewrite len_app, len_lp.
  pose proof (len_nonneg s). pose proof (len_nonneg rest). lia.
Qed.

(** The last part of [ConnectMessage.decodeMessage] on a buffer that holds the
    will topic and message when the will flag is set, the user name when its
    flag is set and it is not empty, and likewise the password. *)
Lemma ConnectMessage_decodeMessage_optional_fields
  (h : fixedHeader) (cf ver : byte) (ka : Z) (name cid wt0 wm0 un0 pw0 : list byte)
  (wt wm un pw : list byte) (total : Z) :
  len wt <= maxLPString -> len wm <= maxLPString ->
  len un <= maxLPString -> len pw <= maxLPString ->
  let wu := flag_bit cf 7 && (0 <? len un) in
  let wp := flag_bit cf 6 && (0 <? len pw) in
  flag_bit cf 7 && negb (0 <? len un) && wp = false ->
  ConnectMessage_decodeMessage_optional total
    (mkConnect (set_buf h ((if flag_bit cf 2 then lp wt ++ lp wm else [])
                           ++ (if wu then lp un else []) ++ (if wp then lp pw else [])))
       cf ver ka name cid wt0 wm0 un0 pw0)
  = (total + (if flag_bit cf 2 then 2 + len wt + (2 + len wm) else 0)
     + (if wu then 2 + len un else 0) + (if wp then 2 + len pw else 0),
     None,
     mkConnect (set_buf h []) cf ver ka name cid
       (if flag_bit cf 2 then wt else wt0) (if flag_bit cf 2 then wm else wm0)
       (if wu then un else un0) (if wp then pw else pw0)).
Proof.
  intros Hwt Hwm Hun Hpw wu wp Hamb. subst wu wp.
  unfold ConnectMessage_decodeMessage_optional. conn_simpl. fold_flags cf.
  destruct (flag_bit cf 2), (flag_bit cf 7), (0 <? len un) eqn:Eu,
    (flag_bit cf 6), (0 <? len pw) eqn:Ep;
    cbn [andb negb] in Hamb; try discriminate Hamb; cbn [andb app];
    rewrite <- ?app_assoc, ?app_nil_r;
    repeat first
      [ rewrite lp_nonempty; cbn [andb]
      | rewrite readLPBytes_lp by assumption; conn_simpl; fold_flags cf
      | match goal with
        | |- context [0 <? len (lp ?s)] =>
            rewrite <- (app_nil_r (lp s)) at 1; rewrite lp_nonempty; cbn [andb]
        | |- context [readLPBytes (lp ?s)] =>
            rewrite <- (app_nil_r (lp s)) at 1
        end
      | progress change (0 <? len (@nil byte)) with false
      | progress cbn [andb] ];
    f_equal; f_equal; lia.
Qed.

Lemma SupportedVersions_len (v : byte) (verstr : list byte) :
  SupportedVersions v = Some verstr -> len verstr <= 6.
Proof.
  destruct v; cbn [SupportedVersions]; intros H; try discriminate H;
    injection H as <-; vm_compute; discriminate.
Qed.

Lemma ConnectMessage_size_body (m : ConnectMessage) (verstr : list byte) :
  ConnectMessage_size m verstr = len (connect_body m verstr).
Proof.
  unfold ConnectMessage_size, connect_body.
  rewrite !len_app, !len_lp, len_uint16_bytes, !len_cons. change (len (@nil byte)) with 0.
  destruct (WillFlag m), (UsernameFlag m && (0 <? len (username m))),
    (PasswordFlag m && (0 <? len (password m)));
    rewrite ?len_app, ?len_lp; change (len (@nil byte)) with 0; lia.
Qed.

Lemma len_connect_body_bound (m : ConnectMessage) (verstr : list byte) :
  len verstr <= 6 -> connect_strings_fit m ->
  0 <= len (connect_body m verstr) <= 327697.
Proof.
  intros Hv (Hc & Hwt & Hwm & Hun & Hpw). split; [apply len_nonneg |].
  rewrite <- ConnectMessage_size_body. unfold ConnectMessage_size, maxLPString in *.
  pose proof (len_nonneg verstr). pose proof (len_nonneg (clientId m)).
  pose proof (len_nonneg (willTopic m)). pose proof (len_nonneg (willMessage m)).
  pose proof (len_nonneg (username m)). pose proof (len_nonneg (password m)).
  destruct (WillFlag m), (UsernameFlag m && (0 <? len (username m))),
    (PasswordFlag m && (0 <? len (password m))); lia.
Qed.

(** What [ConnectMessage.encodeMessage] appends to the buffer. *)
Lemma ConnectMessage_encodeMessage_ok (m : ConnectMessage) (verstr : list byte) :
  SupportedVersions (version m) = Some verstr -> connect_strings_fit m ->
  ConnectMessage_encodeMessage m
  = (len (connect_body m verstr), None,
     connect_set_buf m (buf (connect_header m) ++ connect_body m verstr)).
Proof.
  intros Hv (Hc & Hwt & Hwm & Hun & Hpw).
  pose proof (SupportedVersions_len _ _ Hv) as Hvl.
  destruct m as [h cf ver ka pn cid wt wm un pw].
  unfold ConnectMessage_encodeMessage, ConnectMessage_encodeMessage_optional, connect_body.
  cbn [version connectFlags keepAlive clientId willTopic willMessage username password
       connect_header] in *.
  rewrite Hv. conn_simpl. fold_flags cf.
  rewrite writeLPBytes_lp by (unfold maxLPString; lia). conn_simpl. fold_flags cf.
  rewrite writeUint16_bytes.
  rewrite writeLPBytes_lp by assumption. conn_simpl. fold_flags cf.
  destruct (flag_bit cf 2), (flag_bit cf 7), (0 <? len un) eqn:Eu,
    (flag_bit cf 6), (0 <? len pw) eqn:Ep; cbn [andb];
    repeat (rewrite writeLPBytes_lp by assumption; conn_simpl; fold_flags cf);
    rewrite ?Eu, ?Ep; cbn [andb];
    repeat (rewrite writeLPBytes_lp by assumption; conn_simpl; fold_flags cf);
    rewrite ?Eu, ?Ep; cbn [andb];
    rewrite ?len_app, ?len_lp, ?len_uint16_bytes, ?len_cons, ?len_app, ?len_lp;
    change (len (@nil byte)) with 0;
    rewrite <- ?app_assoc; cbn [app]; rewrite ?app_nil_r;
    do 2 f_equal; lia.
Qed.

(** What [ConnectMessage.Encode] returns when it succeeds. *)
Lemma ConnectMessage_Encode_ok (m : ConnectMessage) (verstr : list byte) :
  mtype (connect_header m) = CONNECT ->
  SupportedVersions (version m) = Some verstr -> connect_strings_fit m ->
  let body := connect_body m verstr in
  let bytes := frame CONNECT (flags (connect_header m)) body in
  ConnectMessage_Encode m
  = mkEncoded (Some bytes) (len bytes) None
      (connect_set_header m (mkFixedHeader bytes (len body) CONNECT (flags (connect_header m)))).
Proof.
  intros Hm Hv Hfit body bytes.
  pose proof (SupportedVersions_len _ _ Hv) as Hvl.
  pose proof (len_connect_body_bound m verstr Hvl Hfit) as Hb. fold body in Hb.
  unfold ConnectMessage_Encode. rewrite Hm. change (CONNECT =? CONNECT) with true.
  cbn [negb]. rewrite Hv, ConnectMessage_size_body. fold body.
  rewrite to_int32_small by lia.
  rewrite SetRemainingLength_ok by (unfold maxRemainingLength; lia).
  destruct m as [[hb hr ht hf] cf ver ka pn cid wt wm un pw].
  cbn [connect_header mtype flags] in *. subst ht. conn_simpl.
  rewrite fixedHeader_Encode_ok;
    [| cbn [remlen]; unfold maxRemainingLength; lia | reflexivity].
  cbn [e_err e_msg e_n e_reader].
  match goal with
  | |- context [ConnectMessage_encodeMessage ?x] =>
      rewrite (ConnectMessage_encodeMessage_ok x verstr Hv Hfit)
  end.
  conn_simpl. unfold header_bytes. conn_simpl.
  change (connect_body _ verstr) with body.
  subst bytes. unfold frame. cbn [app].
  rewrite len_cons, len_app. f_equal. lia.
Qed.

(** What [ConnectMessage.Decode] returns on the packet whose body is
    [connect_body m verstr]. *)
Lemma ConnectMessage_Decode_body (m this : ConnectMessage) (verstr rest : list byte) :
  SupportedVersions (version m) = Some verstr ->
  connect_strings_fit m ->
  0 <= keepAlive m < 65536 ->
  connect_flags_wellformed (connectFlags m) = true ->
  UsernameFlag m && negb (PasswordFlag m) = false ->
  (clientId m = [] -> CleanSession m = true) ->
  ValidClientId (clientId m) = true ->
  UsernameFlag m && negb (0 <? len (username m))
  && (PasswordFlag m && (0 <? len (password m))) = false ->
  mtype (connect_header this) = CONNECT ->
  ConnectMessage_Decode this (frame CONNECT x00 (connect_body m verstr) ++ rest)
  = mkDecoded (len (frame CONNECT x00 (connect_body m verstr))) None
      (mkConnect (mkFixedHeader [] (len (connect_body m verstr)) CONNECT x00)
         (connectFlags m) (version m) (keepAlive m) verstr (clientId m)
         (if WillFlag m then willTopic m else willTopic this)
         (if WillFlag m then willMessage m else willMessage this)
         (if UsernameFlag m && (0 <? len (username m)) then username m else username this)
         (if PasswordFlag m && (0 <? len (password m)) then password m else password this))
      rest.
Proof.
  intros Hv Hfit Hka Hwf Hup Hcs Hcid Hamb Hthis.
  pose proof (SupportedVersions_len _ _ Hv) as Hvl.
  pose proof (len_connect_body_bound m verstr Hvl Hfit) as Hb.
  rewrite ConnectMessage_Decode_frame; [| assumption | unfold maxRemainingLength; lia].
  cbv zeta. rewrite connect_struct. cbn [buf].
  destruct Hfit as (Hc & Hwt & Hwm & Hun & Hpw).
  destruct m as [h cf ver ka pn cid wt wm un pw].
  unfold connect_body in *.
  cbn [version connectFlags keepAlive clientId willTopic willMessage username password
       connect_header] in *.
  unfold WillFlag, UsernameFlag, PasswordFlag, CleanSession in *.
  cbn [connectFlags] in *. fold_flags cf.
  fold (flag_bit cf 1) in Hcs. fold (flag_bit cf 7) in Hup, Hamb.
  fold (flag_bit cf 6) in Hup, Hamb.
  unfold uint16_bytes in *. cbn [app] in *.
  rewrite ConnectMessage_decodeMessage_fields by (unfold maxLPString in *; lia).
  cbv zeta.
  assert (Hpa : protocol_accepted ver verstr = true).
  { unfold protocol_accepted. rewrite Hv. apply bytes_eqb_refl. }
  rewrite Hpa, Hup. cbn [negb].
  unfold connect_flags_wellformed in Hwf.
  apply andb_prop in Hwf. destruct Hwf as [Hwf Hw3]. apply andb_prop in Hwf.
  destruct Hwf as [Hw1 Hw2]. rewrite Hw1. cbn [negb].
  destruct (b2z QosExactlyOnce <? b2z (flags_will_qos cf)); [discriminate Hw2 |].
  destruct (negb (flag_bit cf 2)
            && (flag_bit cf 5 || negb (byte_eqb (flags_will_qos cf) QosAtMostOnce)));
    [discriminate Hw3 |].
  assert (Hid1 : (len cid =? 0) && negb (flag_bit cf 1) = false).
  { destruct (Z.eqb_spec (len cid) 0) as [E | _]; [| reflexivity].
    apply len_zero_nil in E. rewrite (Hcs E). reflexivity. }
  rewrite Hid1, Hcid, andb_false_r.
  rewrite ConnectMessage_decodeMessage_optional_fields by assumption.
  cbn [fst snd]. rewrite uint16_bytes_value by assumption.
  rewrite len_frame. f_equal.
  rewrite !len_app, !len_lp, !len_cons, !len_app, !len_lp.
  destruct (flag_bit cf 2), (flag_bit cf 7 && (0 <? len un)),
    (flag_bit cf 6 && (0 <? len pw));
    rewrite ?len_app, ?len_lp; change (len (@nil byte)) with 0; lia.
Qed.

(** X20: the round trip of CONNECT.  Take a message of a registered version
    whose byte strings have at most 65535 bytes each, whose connect flags pass
    the checks of the decoder (reserved bit, will QoS, will flag, user name
    with password), whose client identifier is alphanumeric, and empty only
    with a clean session, and which does not have at once the user-name flag
    with an empty user name and a password to write.  It is encoded without
    error, and [ConnectMessage.Decode] on a new message reads back from the
    bytes written the version, the connect flags, the keep-alive timer and the
    client identifier; the protocol name of the result is the one registered
    for the version; the will topic and message, the user name and the
    password are read back when they were written, and are empty
    otherwise. *)
Theorem ConnectMessage_round_trip (m : ConnectMessage) (verstr rest : list byte) :
  mtype (connect_header m) = CONNECT -> flags (connect_header m) = x00 ->
  SupportedVersions (version m) = Some verstr ->
  connect_strings_fit m ->
  0 <= keepAlive m < 65536 ->
  connect_flags_wellformed (connectFlags m) = true ->
  UsernameFlag m && negb (PasswordFlag m) = false ->
  (clientId m = [] -> CleanSession m = true) ->
  ValidClientId (clientId m) = true ->
  UsernameFlag m && negb (0 <? len (username m))
  && (PasswordFlag m && (0 <? len (password m))) = false ->
  exists bytes,
    ConnectMessage_Encode m
    = mkEncoded (Some bytes) (len bytes) None
        (connect_set_header m
           (mkFixedHeader bytes (len (connect_body m verstr)) CONNECT x00)) /\
    ConnectMessage_Decode NewConnectMessage (bytes ++ rest)
    = mkDecoded (len bytes) None
        (mkConnect (mkFixedHeader [] (len (connect_body m verstr)) CONNECT x00)
           (connectFlags m) (version m) (keepAlive m) verstr (clientId m)
           (if WillFlag m then willTopic m else [])
           (if WillFlag m then willMessage m else [])
           (if UsernameFlag m && (0 <? len (username m)) then username m else [])
           (if PasswordFlag m && (0 <? len (password m)) then password m else []))
        rest.
Proof.
  intros Hm Hf Hv Hfit Hka Hwf Hup Hcs Hcid Hamb.
  exists (frame CONNECT x00 (connect_body m verstr)). split.
  - rewrite (ConnectMessage_Encode_ok m verstr Hm Hv Hfit). cbv zeta. rewrite Hf. reflexivity.
  - exact (ConnectMessage_Decode_body m NewConnectMessage verstr rest Hv Hfit Hka Hwf Hup Hcs
             Hcid Hamb eq_refl).
Qed.

Lemma ConnectMessage_round_trip_witness :
  let m := SetPassword
             (SetUsername
                (SetKeepAlive
                   (snd (SetClientId
                           (SetCleanSession (snd (SetVersion NewConnectMessage x04)) true)
                           [x61; x62; x63])) 10) [x75]) [x70] in
  exists bytes,
    ConnectMessage_Encode m
    = mkEncoded (Some bytes) (len bytes) None
        (connect_set_header m
           (mkFixedHeader bytes (len (connect_body m str_MQTT)) CONNECT x00)) /\
    ConnectMessage_Decode NewConnectMessage (bytes ++ [])
    = mkDecoded (len bytes) None
        (mkConnect (mkFixedHeader [] (len (connect_body m str_MQTT)) CONNECT x00)
           xc2 x04 10 str_MQTT [x61; x62; x63] [] [] [x75] [x70]) [].
Proof.
  intros m.
  refine (ConnectMessage_round_trip m str_MQTT [] _ _ _ _ _ _ _ _ _ _).
  - reflexivity.
  - reflexivity.
  - reflexivity.
  - unfold connect_strings_fit. vm_compute. repeat split; discriminate.
  - vm_compute. split; [discriminate | reflexivity].
  - reflexivity.
  - reflexivity.
  - intros H. discriminate H.
  - reflexivity.
  - reflexivity.
Defined.

(** X21: two messages that [ConnectMessage.Encode] accepts and that do not
    come back.  A message with the user-name flag and without the password
    flag, such as [SetUsername] alone builds, is encoded without error and the
    bytes written are rejected by [ConnectMessage.Decode].  A message with
    both flags, an empty user name and a password is encoded with the password
    as only credential, and [ConnectMessage.Decode] on a new message reads
    this password as the user name and ends with an empty password. *)
Theorem ConnectMessage_credentials_not_round_trip (m this : ConnectMessage)
  (verstr rest : list byte) :
  mtype (connect_header m) = CONNECT -> flags (connect_header m) = x00 ->
  SupportedVersions (version m) = Some verstr ->
  connect_strings_fit m ->
  0 <= keepAlive m < 65536 ->
  connect_flags_wellformed (connectFlags m) = true ->
  (clientId m = [] -> CleanSession m = true) ->
  ValidClientId (clientId m) = true ->
  mtype (connect_header this) = CONNECT ->
  UsernameFlag m = true ->
  exists bytes,
    e_reader (ConnectMessage_Encode m) = Some bytes /\
    e_err (ConnectMessage_Encode m) = None /\
    (PasswordFlag m = false ->
     d_err (ConnectMessage_Decode this (bytes ++ rest)) = Some ErrConnectUsernameNoPassword) /\
    (PasswordFlag m = true -> username m = [] -> password m <> [] ->
     let r := ConnectMessage_Decode NewConnectMessage (bytes ++ rest) in
     d_err r = None /\ username (d_msg r) = password m /\
     password (d_msg r) = []).
Proof.
  intros Hm Hf Hv Hfit Hka Hwf Hcs Hcid Hthis Hu.
  pose proof (SupportedVersions_len _ _ Hv) as Hvl.
  pose proof (len_connect_body_bound m verstr Hvl Hfit) as Hb.
  exists (frame CONNECT x00 (connect_body m verstr)).
  rewrite (ConnectMessage_Encode_ok m verstr Hm Hv Hfit). cbv zeta. rewrite Hf.
  split; [reflexivity |]. split; [reflexivity |].
  assert (Hgen : forall x : ConnectMessage,
             mtype (connect_header x) = CONNECT ->
             (PasswordFlag m = false ->
              d_err (ConnectMessage_Decode x (frame CONNECT x00 (connect_body m verstr) ++ rest))
              = Some ErrConnectUsernameNoPassword) /\
             (PasswordFlag m = true -> username m = [] -> password m <> [] ->
              d_err (ConnectMessage_Decode x (frame CONNECT x00 (connect_body m verstr) ++ rest))
              = None /\
              username (d_msg (ConnectMessage_Decode x
                                 (frame CONNECT x00 (connect_body m verstr) ++ rest)))
              = password m /\
              password (d_msg (ConnectMessage_Decode x
                                 (frame CONNECT x00 (connect_body m verstr) ++ rest)))
              = password x));
    [| split;
       [ exact (proj1 (Hgen this Hthis))
       | intros Hp Hun0 Hpw0; exact (proj2 (Hgen NewConnectMessage eq_refl) Hp Hun0 Hpw0) ]].
  clear this Hthis. intros this Hthis.
  rewrite ConnectMessage_Decode_frame; [| assumption | unfold maxRemainingLength; lia].
  cbv zeta. rewrite connect_struct. cbn [buf d_err d_msg].
  destruct Hfit as (Hc & Hwt & Hwm & Hun & Hpw).
  destruct m as [h cf ver ka pn cid wt wm un pw].
  unfold connect_body in *.
  cbn [version connectFlags keepAlive clientId willTopic willMessage username password
       connect_header] in *.
  unfold WillFlag, UsernameFlag, PasswordFlag, CleanSession in *.
  cbn [connectFlags] in *. fold_flags cf.
  fold (flag_bit cf 1) in Hcs. fold (flag_bit cf 7) in Hu.
  unfold uint16_bytes in *. cbn [app] in *.
  rewrite ConnectMessage_decodeMessage_fields by (unfold maxLPString in *; lia).
  cbv zeta.
  assert (Hpa : protocol_accepted ver verstr = true).
  { unfold protocol_accepted. rewrite Hv. apply bytes_eqb_refl. }
  rewrite Hpa, Hu. cbn [negb andb].
  unfold connect_flags_wellformed in Hwf.
  apply andb_prop in Hwf. destruct Hwf as [Hwf Hw3]. apply andb_prop in Hwf.
  destruct Hwf as [Hw1 Hw2]. rewrite Hw1. cbn [negb].
  destruct (b2z QosExactlyOnce <? b2z (flags_will_qos cf)); [discriminate Hw2 |].
  destruct (negb (flag_bit cf 2)
            && (flag_bit cf 5 || negb (byte_eqb (flags_will_qos cf) QosAtMostOnce)));
    [discriminate Hw3 |].
  split.
  - intros Hp. fold (flag_bit cf 6) in Hp. rewrite Hp. reflexivity.
  - intros Hp Hun0 Hpw0. fold (flag_bit cf 6) in Hp. rewrite Hp. cbn [negb].
    assert (Hid1 : (len cid =? 0) && negb (flag_bit cf 1) = false).
    { destruct (Z.eqb_spec (len cid) 0) as [E | _]; [| reflexivity].
      apply len_zero_nil in E. rewrite (Hcs E). reflexivity. }
    rewrite Hid1, Hcid, andb_false_r. subst un.
    change (0 <? len (@nil byte)) with false. cbn [andb app].
    assert (Hpos : (0 <? len pw) = true).
    { apply Z.ltb_lt. pose proof (len_nonneg pw).
      assert (len pw <> 0) by (intros E; apply Hpw0, len_zero_nil, E). lia. }
    rewrite Hpos.
    pose proof (ConnectMessage_decodeMessage_optional_fields
                  (mkFixedHeader
                     (lp verstr ++ ver :: cf :: z2b (Z.shiftr ka 8) :: z2b ka :: lp cid
                      ++ (if flag_bit cf 2 then lp wt ++ lp wm else []) ++ lp pw)
                     (len (lp verstr ++ ver :: cf :: z2b (Z.shiftr ka 8) :: z2b ka :: lp cid
                           ++ (if flag_bit cf 2 then lp wt ++ lp wm else []) ++ lp pw))
                     CONNECT x00)
                  cf ver (b2z (z2b (Z.shiftr ka 8)) * 256 + b2z (z2b ka)) verstr cid
                  (willTopic this) (willMessage this) (username this) (password this)
                  wt wm pw []
                  (0 + (2 + len verstr) + 1 + 1 + 2 + (2 + len cid))
                  Hwt Hwm Hpw ltac:(vm_compute; discriminate)) as Hopt.
    cbv zeta in Hopt. rewrite Hu, Hp, Hpos in Hopt.
    change (0 <? len (@nil byte)) with false in Hopt.
    cbn [andb negb] in Hopt. rewrite app_nil_r in Hopt.
    rewrite (Hopt eq_refl). cbn [fst snd username password]. auto.
Qed.

Lemma ConnectMessage_credentials_not_round_trip_witness :
  (let m := SetUsername
              (snd (SetClientId (snd (SetVersion NewConnectMessage x04)) [x61])) [x75] in
   exists bytes,
     e_reader (ConnectMessage_Encode m) = Some bytes /\
     e_err (ConnectMessage_Encode m) = None /\
     d_err (ConnectMessage_Decode NewConnectMessage (bytes ++ []))
     = Some ErrConnectUsernameNoPassword) /\
  (let m := SetUsernameFlag
              (SetPassword
                 (snd (SetClientId (snd (SetVersion NewConnectMessage x04)) [x61])) [x70])
              true in
   exists bytes,
     e_reader (ConnectMessage_Encode m) = Some bytes /\
     e_err (ConnectMessage_Encode m) = None /\
     d_err (ConnectMessage_Decode NewConnectMessage (bytes ++ [])) = None /\
     username (d_msg (ConnectMessage_Decode NewConnectMessage (bytes ++ []))) = [x70] /\
     password (d_msg (ConnectMessage_Decode NewConnectMessage (bytes ++ []))) = []).
Proof.
  split.
  - intros m.
    destruct (ConnectMessage_credentials_not_round_trip m NewConnectMessage str_MQTT [])
      as (bytes & H1 & H2 & H3 & _).
    + reflexivity.
    + reflexivity.
    + reflexivity.
    + unfold connect_strings_fit. vm_compute. repeat split; discriminate.
    + vm_compute. split; [discriminate | reflexivity].
    + reflexivity.
    + intros H. discriminate H.
    + reflexivity.
    + reflexivity.
    + reflexivity.
    + exists bytes. split; [exact H1 |]. split; [exact H2 |]. apply H3. reflexivity.
  - intros m.
    destruct (ConnectMessage_credentials_not_round_trip m NewConnectMessage str_MQTT [])
      as (bytes & H1 & H2 & _ & H4).
    + reflexivity.
    + reflexivity.
    + reflexivity.
    + unfold connect_strings_fit. vm_compute. repeat split; discriminate.
    + vm_compute. split; [discriminate | reflexivity].
    + reflexivity.
    + intros H. discriminate H.
    + reflexivity.
    + reflexivity.
    + reflexivity.
    + exists bytes. split; [exact H1 |]. split; [exact H2 |].
      apply H4; [reflexivity | reflexivity | discriminate].
Defined.

(** * The mutators of CONNECT *)

Lemma connect_flag_bits (cf : byte) :
  let view c := (flag_bit c 1, flag_bit c 2, flags_will_qos c, flag_bit c 5, flag_bit c 6,
                 flag_bit c 7, band c x01) in
  let '(cs, wf, wq, wr, pf, uf, rb) := view cf in
  view (bor cf x02) = (true, wf, wq, wr, pf, uf, rb) /\
  view (band cf xfd) = (false, wf, wq, wr, pf, uf, rb) /\
  view (bor cf x04) = (cs, true, wq, wr, pf, uf, rb) /\
  view (band cf xfb) = (cs, false, wq, wr, pf, uf, rb) /\
  view (bor cf x20) = (cs, wf, wq, true, pf, uf, rb) /\
  view (band cf xdf) = (cs, wf, wq, false, pf, uf, rb) /\
  view (bor cf x40) = (cs, wf, wq, wr, true, uf, rb) /\
  view (band cf xbf) = (cs, wf, wq, wr, false, uf, rb) /\
  view (bor cf x80) = (cs, wf, wq, wr, pf, true, rb) /\
  view (band cf x7f) = (cs, wf, wq, wr, pf, false, rb) /\
  view (bor (band cf xe7) (bshl x00 3)) = (cs, wf, x00, wr, pf, uf, rb) /\
  view (bor (band cf xe7) (bshl x01 3)) = (cs, wf, x01, wr, pf, uf, rb) /\
  view (bor (band cf xe7) (bshl x02 3)) = (cs, wf, x02, wr, pf, uf, rb).
Proof.
  destruct cf; vm_compute; repeat split.
Qed.

(** X22: the mutators of the connect flags act on their own bits.  Each of
    [SetCleanSession], [SetWillFlag], [SetWillRetain], [SetPasswordFlag] and
    [SetUsernameFlag] makes its accessor return the value set and leaves what
    the five other accessors return, and the reserved bit 0, as they were;
    [SetWillQos] does the same for the QoS values 0, 1 and 2 and refuses every
    other value, leaving the message as it is.  Only the connect-flags byte of
    the message is changed. *)
Theorem ConnectMessage_flag_mutators (m : ConnectMessage) :
  let cs := CleanSession m in
  let wf := WillFlag m in
  let wq := WillQos m in
  let wr := WillRetain m in
  let pf := PasswordFlag m in
  let uf := UsernameFlag m in
  let rb := band (connectFlags m) x01 in
  let only_flags (x : ConnectMessage) := x = connect_set_flags m (connectFlags x) in
  (forall v : bool,
      connect_flags_view (SetCleanSession m v) = (v, wf, wq, wr, pf, uf, rb) /\
      only_flags (SetCleanSession m v)) /\
  (forall v : bool,
      connect_flags_view (SetWillFlag m v) = (cs, v, wq, wr, pf, uf, rb) /\
      only_flags (SetWillFlag m v)) /\
  (forall v : bool,
      connect_flags_view (SetWillRetain m v) = (cs, wf, wq, v, pf, uf, rb) /\
      only_flags (SetWillRetain m v)) /\
  (forall v : bool,
      connect_flags_view (SetPasswordFlag m v) = (cs, wf, wq, wr, v, uf, rb) /\
      only_flags (SetPasswordFlag m v)) /\
  (forall v : bool,
      connect_flags_view (SetUsernameFlag m v) = (cs, wf, wq, wr, pf, v, rb) /\
      only_flags (SetUsernameFlag m v)) /\
  (forall q : byte,
      ValidQos q = true ->
      exists m', SetWillQos m q = (None, m') /\
        connect_flags_view m' = (cs, wf, q, wr, pf, uf, rb) /\ only_flags m') /\
  (forall q : byte,
      ValidQos q = false -> SetWillQos m q = (Some ErrConnectSetWillQos, m)).
Proof.
  destruct m as [h cf ver ka pn cid wt wm un pw].
  pose proof (connect_flag_bits cf) as H. cbv zeta in H.
  unfold connect_flags_view, SetCleanSession, SetWillFlag, SetWillRetain, SetPasswordFlag,
    SetUsernameFlag, SetWillQos, CleanSession, WillFlag, WillQos, WillRetain, PasswordFlag,
    UsernameFlag, connect_set_flags.
  cbn [connectFlags connect_header version keepAlive protoName clientId willTopic willMessage
       username password].
  fold_flags cf.
  destruct H as (H1 & H2 & H3 & H4 & H5 & H6 & H7 & H8 & H9 & H10 & Hq0 & Hq1 & Hq2).
  unfold flag_bit, flags_will_qos in *.
  repeat split; try (destruct v; cbn [connectFlags]; assumption).
  - intros q Hq. apply ValidQos_spec in Hq.
    assert (E : negb (byte_eqb q QosAtMostOnce) && negb (byte_eqb q QosAtLeastOnce)
                && negb (byte_eqb q QosExactlyOnce) = false)
      by (destruct Hq as [-> | [-> | ->]]; reflexivity).
    rewrite E. eexists. split; [reflexivity |]. cbn [connectFlags].
    split; [| reflexivity].
    destruct Hq as [-> | [-> | ->]]; assumption.
  - intros q Hq.
    assert (E : negb (byte_eqb q QosAtMostOnce) && negb (byte_eqb q QosAtLeastOnce)
                && negb (byte_eqb q QosExactlyOnce) = true).
    { unfold ValidQos in Hq.
      destruct (byte_eqb q QosAtMostOnce), (byte_eqb q QosAtLeastOnce),
        (byte_eqb q QosExactlyOnce); try discriminate Hq; reflexivity. }
    rewrite E. reflexivity.
Qed.

Lemma ConnectMessage_flag_mutators_witness :
  exists m', SetWillQos (SetWillFlag NewConnectMessage true) x01 = (None, m') /\
    connect_flags_view m' = (false, true, x01, false, false, false, x00).
Proof.
  destruct (proj1 (proj2 (proj2 (proj2 (proj2 (proj2
              (ConnectMessage_flag_mutators (SetWillFlag NewConnectMessage true)))))))
              x01 eq_refl) as (m' & H1 & H2 & _).
  exists m'. split; [exact H1 | exact H2].
Defined.

(** X23: the mutators of the byte strings of CONNECT keep the flags in step.
    [SetUsername] and [SetPassword] store the string and set their flag when
    it is not empty and clear it when it is empty.  [SetWillTopic] and
    [SetWillMessage] store the string, set the will flag when it is not empty,
    clear the flag when it is empty and the other will string is empty too, and
    leave the flag as it is otherwise.  [SetClientId] stores an identifier made
    of alphanumeric characters, the empty one included, and refuses every
    other one.  What the accessors of the other flags return is never
    changed. *)
Theorem ConnectMessage_string_mutators (m : ConnectMessage) (v : list byte) :
  let cs := CleanSession m in
  let wf := WillFlag m in
  let wq := WillQos m in
  let wr := WillRetain m in
  let pf := PasswordFlag m in
  let uf := UsernameFlag m in
  let rb := band (connectFlags m) x01 in
  (username (SetUsername m v) = v /\
   connect_flags_view (SetUsername m v) = (cs, wf, wq, wr, pf, 0 <? len v, rb)) /\
  (password (SetPassword m v) = v /\
   connect_flags_view (SetPassword m v) = (cs, wf, wq, wr, 0 <? len v, uf, rb)) /\
  (willTopic (SetWillTopic m v) = v /\
   connect_flags_view (SetWillTopic m v)
   = (cs, if 0 <? len v then true else if len (willMessage m) =? 0 then false else wf,
      wq, wr, pf, uf, rb)) /\
  (willMessage (SetWillMessage m v) = v /\
   connect_flags_view (SetWillMessage m v)
   = (cs, if 0 <? len v then true else if len (willTopic m) =? 0 then false else wf,
      wq, wr, pf, uf, rb)) /\
  (ValidClientId v = true -> SetClientId m v = (None, connect_set_clientId m v)) /\
  (ValidClientId v = false -> SetClientId m v = (Some ErrConnackIdentifierRejected, m)).
Proof.
  destruct m as [h cf ver ka pn cid wt wm un pw].
  pose proof (connect_flag_bits cf) as H. cbv zeta in H.
  unfold connect_flags_view, SetUsername, SetPassword, SetWillTopic, SetWillMessage,
    SetClientId, SetCleanSession, SetWillFlag, SetWillRetain, SetPasswordFlag,
    SetUsernameFlag, CleanSession, WillFlag, WillQos, WillRetain, PasswordFlag,
    UsernameFlag, connect_set_flags, connect_set_username, connect_set_password,
    connect_set_willTopic, connect_set_willMessage.
  cbn [connectFlags connect_header version keepAlive protoName clientId willTopic willMessage
       username password].
  fold_flags cf.
  destruct H as (H1 & H2 & H3 & H4 & H5 & H6 & H7 & H8 & H9 & H10 & _).
  unfold flag_bit, flags_will_qos in *.
  repeat split.
  - destruct (0 <? len v); reflexivity.
  - destruct (0 <? len v); cbn [connectFlags]; assumption.
  - destruct (0 <? len v); reflexivity.
  - destruct (0 <? len v); cbn [connectFlags]; assumption.
  - destruct (0 <? len v); [reflexivity |]. destruct (len wm =? 0); reflexivity.
  - destruct (0 <? len v); [cbn [connectFlags]; assumption |].
    destruct (len wm =? 0); cbn [connectFlags]; [assumption | reflexivity].
  - destruct (0 <? len v); [reflexivity |]. destruct (len wt =? 0); reflexivity.
  - destruct (0 <? len v); [cbn [connectFlags]; assumption |].
    destruct (len wt =? 0); cbn [connectFlags]; [assumption | reflexivity].
  - intros Hv. rewrite Hv, andb_false_r. reflexivity.
  - intros Hv. rewrite Hv. destruct v as [| c v]; [discriminate Hv |].
    rewrite len_cons. pose proof (len_nonneg v).
    destruct (Z.ltb_spec 0 (1 + len v)); [reflexivity | lia].
Qed.

Lemma ConnectMessage_string_mutators_witness :
  SetClientId NewConnectMessage [x61; x2d]
  = (Some ErrConnackIdentifierRejected, NewConnectMessage).
Proof.
  refine (proj2 (proj2 (proj2 (proj2 (proj2
            (ConnectMessage_string_mutators NewConnectMessage [x61; x2d]))))) _).
  reflexivity.
Defined.

(** * What [fixedHeader.Decode] accepts *)

Ltac varint_found :=
  split; [reflexivity |];
  split; [repeat constructor; assumption |];
  split; [assumption |];
  match goal with Hs : forall l : list byte, _ |- _ => apply Hs; cbn; lia end.

(** [readVarint32] succeeds only on a source with a byte without continuation
    bit among its first four. *)
Lemma readVarint32_accepts (dst : option (list byte)) (src : list byte) :
  vr_err (readVarint32 dst src) = None ->
  exists pre b rest,
    src = pre ++ b :: rest /\
    Forall (fun c => continuation c = true) pre /\ continuation b = false /\ len pre <= 3.
Proof.
  intros H.
  assert (Hsmall : forall l : list byte, (length l <= 3)%nat -> len l <= 3)
    by (intros l Hl; unfold len; lia).
  destruct src as [| b0 src].
  { rewrite (readVarint32_eof dst []) in H; [discriminate H | constructor | apply Hsmall; cbn; lia]. }
  destruct (continuation b0) eqn:E0; [| exists [], b0, src; varint_found].
  destruct src as [| b1 src].
  { rewrite (readVarint32_eof dst [b0]) in H;
      [discriminate H | repeat constructor; assumption | apply Hsmall; cbn; lia]. }
  destruct (continuation b1) eqn:E1;
    [| exists [b0], b1, src; varint_found].
  destruct src as [| b2 src].
  { rewrite (readVarint32_eof dst [b0; b1]) in H;
      [discriminate H | repeat constructor; assumption | apply Hsmall; cbn; lia]. }
  destruct (continuation b2) eqn:E2;
    [| exists [b0; b1], b2, src; varint_found].
  destruct src as [| b3 src].
  { rewrite (readVarint32_eof dst [b0; b1; b2]) in H;
      [discriminate H | repeat constructor; assumption | apply Hsmall; cbn; lia]. }
  destruct (continuation b3) eqn:E3;
    [| exists [b0; b1; b2], b3, src; varint_found].
  destruct (readVarint32_four_continuations b0 b1 b2 b3 src dst E0 E1 E2 E3) as (He & _).
  rewrite He in H. discriminate H.
Qed.

Lemma len_firstn_le {A} (n : nat) (l : list A) : len (firstn n l) <= Z.of_nat n.
Proof.
  unfold len. rewrite length_firstn. lia.
Qed.

(** [fixedHeader.Decode] on a first byte that passes its checks, a remaining
    length in any of its encodings and a body of that length. *)
Lemma fixedHeader_Decode_wire (h : fixedHeader) (b : byte) (pre : list byte) (lb : byte)
  (body rest : list byte) :
  first_byte_accepted (mtype h) b ->
  Forall (fun c => continuation c = true) pre -> continuation lb = false -> len pre <= 3 ->
  varint_value (pre ++ [lb]) = len body ->
  fixedHeader_Decode h (b :: (pre ++ [lb]) ++ body ++ rest)
  = mkDecoded (1 + (len pre + 1)) None
      (mkFixedHeader body (len body) (mtype h) (flags_nibble b)) rest.
Proof.
  intros Hb Hpre Hlb Hl3 Hv.
  rewrite (fixedHeader_Decode_after_first_byte h b _ Hb).
  rewrite <- app_assoc. cbn [app].
  rewrite (readVarint32_stops (Some []) pre lb (body ++ rest) Hpre Hlb Hl3).
  cbv zeta. cbn [vr_err vr_value vr_count vr_dst vr_src app].
  rewrite Hv, firstn_len_app, skipn_len_app, Z.ltb_irrefl.
  assert (Hlen : len (pre ++ [lb]) = len pre + 1).
  { rewrite len_app, len_cons. change (len (@nil byte)) with 0. lia. }
  rewrite <- Hlen, skipn_len. cbn [app buf]. rewrite Z.eqb_refl. reflexivity.
Qed.

(** The outcome of [fixedHeader.Decode] when no error is returned. *)
Lemma fixedHeader_Decode_inv (h : fixedHeader) (src : list byte) :
  let r := fixedHeader_Decode h src in
  (d_err r = None ->
   exists b pre lb body,
     src = b :: (pre ++ [lb]) ++ body ++ d_src r /\
     first_byte_accepted (mtype h) b /\
     Forall (fun c => continuation c = true) pre /\ continuation lb = false /\
     len pre <= 3 /\
     varint_value (pre ++ [lb]) = len body /\ len body <= maxRemainingLength /\
     d_n r = 1 + (len pre + 1) /\
     d_msg r = mkFixedHeader body (len body) (mtype h) (flags_nibble b)) /\
  d_err r <> Some ErrHeaderDecodeSize.
Proof.
  intros r. subst r.
  destruct src as [| b src].
  { rewrite fixedHeader_Decode_nil. cbn [d_err]. split; [discriminate | discriminate]. }
  destruct h as [hb hr hm hf]. cbn [mtype]. rewrite fixedHeader_Decode_cons.
  destruct (Valid (type_nibble b)) eqn:Hv; cbn [negb];
    [| cbn [d_err]; split; discriminate].
  destruct (Z.eqb_spec (type_nibble b) hm) as [Ht | Ht]; cbn [negb];
    [| cbn [d_err]; split; discriminate].
  destruct (negb (hm =? PUBLISH)
            && negb (byte_eqb (flags_nibble b) (DefaultFlags hm))) eqn:Hf;
    [cbn [d_err]; split; discriminate |].
  destruct ((hm =? PUBLISH) && negb (ValidQos (flags_qos (flags_nibble b)))) eqn:Hq;
    [cbn [d_err]; split; discriminate |].
  assert (Hfb : first_byte_accepted hm b).
  { unfold first_byte_accepted. repeat split; try assumption.
    - intros Hp. apply Z.eqb_neq in Hp. rewrite Hp in Hf. cbn [negb andb] in Hf.
      apply negb_false_iff, byte_eqb_eq in Hf. exact Hf.
    - intros Hp. rewrite Hp in Hq. change (PUBLISH =? PUBLISH) with true in Hq.
      cbn [andb] in Hq. apply negb_false_iff in Hq. exact Hq. }
  cbv zeta.
  destruct (vr_err (readVarint32 (Some []) src)) as [e |] eqn:He.
  { cbn [d_err]. split; [discriminate |].
    destruct (readVarint32_err (Some []) src) as [H | [H | H]]; rewrite H in He;
      [discriminate He | |]; injection He as <-; discriminate. }
  destruct (readVarint32_accepts (Some []) src He) as (pre & lb & rest & Hsrc & Hpre & Hlb & Hl3).
  pose proof (readVarint32_stops (Some []) pre lb rest Hpre Hlb Hl3) as Hr.
  rewrite <- Hsrc in Hr. rewrite Hr. cbn [vr_value vr_count vr_dst vr_src app buf].
  set (v := varint_value (pre ++ [lb])).
  assert (Hvb : 0 <= v < 128 ^ len (pre ++ [lb])) by apply varint_value_bound.
  assert (Hlen : len (pre ++ [lb]) = len pre + 1).
  { rewrite len_app, len_cons. change (len (@nil byte)) with 0. lia. }
  rewrite <- Hlen. rewrite skipn_len. cbn [app].
  pose proof (len_firstn_le (Z.to_nat v) rest) as Hle. rewrite Z2Nat.id in Hle by lia.
  destruct (Z.ltb_spec (len (firstn (Z.to_nat v) rest)) v) as [Hlt | Hge].
  { cbn [d_err]. split; discriminate. }
  assert (Heq : len (firstn (Z.to_nat v) rest) = v) by lia.
  rewrite Heq, Z.eqb_refl. cbn [negb d_err d_n d_msg d_src]. split; [| discriminate].
  intros _. exists b, pre, lb, (firstn (Z.to_nat v) rest).
  pose proof (len_nonneg pre).
  assert (Hpow : 128 ^ len (pre ++ [lb]) <= 128 ^ 4) by (apply Z.pow_le_mono_r; lia).
  change (128 ^ 4) with 268435456 in Hpow.
  split; [rewrite firstn_skipn, <- app_assoc; cbn [app]; rewrite Hsrc; reflexivity |].
  split; [exact Hfb |].
  split; [exact Hpre |]. split; [exact Hlb |]. split; [exact Hl3 |].
  split; [fold v; lia |].
  split; [unfold maxRemainingLength; lia |].
  split; [rewrite Hlen; reflexivity |].
  rewrite Heq. reflexivity.
Qed.

(** X24: the inputs [fixedHeader.Decode] accepts.  When it returns no error,
    the source starts with a first byte passing the checks of type and flags,
    a remaining length of one to four bytes, all with the continuation bit but
    the last (the shortest encoding or not), and as many body bytes as this
    length says.  Conversely, on every source of this form it returns no
    error, counts the header bytes, holds the body in the buffer and leaves
    the rest in the source.  The test made after the copy, that the remaining
    length is the length of the buffer, never fails. *)
Theorem fixedHeader_Decode_accepts (h : fixedHeader) :
  (forall src : list byte,
      d_err (fixedHeader_Decode h src) = None ->
      exists b pre lb body rest,
        src = b :: (pre ++ [lb]) ++ body ++ rest /\
        first_byte_accepted (mtype h) b /\
        Forall (fun c => continuation c = true) pre /\ continuation lb = false /\
        len pre <= 3 /\ varint_value (pre ++ [lb]) = len body) /\
  (forall (b : byte) (pre : list byte) (lb : byte) (body rest : list byte),
      first_byte_accepted (mtype h) b ->
      Forall (fun c => continuation c = true) pre -> continuation lb = false ->
      len pre <= 3 -> varint_value (pre ++ [lb]) = len body ->
      fixedHeader_Decode h (b :: (pre ++ [lb]) ++ body ++ rest)
      = mkDecoded (1 + (len pre + 1)) None
          (mkFixedHeader body (len body) (mtype h) (flags_nibble b)) rest) /\
  (forall src : list byte,
      d_err (fixedHeader_Decode h src) <> Some ErrHeaderDecodeSize).
Proof.
  split; [| split].
  - intros src H.
    destruct (proj1 (fixedHeader_Decode_inv h src) H)
      as (b & pre & lb & body & Hsrc & Hb & Hpre & Hlb & Hl3 & Hv & _).
    exists b, pre, lb, body, (d_src (fixedHeader_Decode h src)).
    repeat (split; [assumption |]). assumption.
  - intros b pre lb body rest. apply fixedHeader_Decode_wire.
  - intros src. exact (proj2 (fixedHeader_Decode_inv h src)).
Qed.

Lemma fixedHeader_Decode_accepts_witness :
  fixedHeader_Decode (mkFixedHeader [] 0 PUBACK x00) [x40; x82; x00; x00; x07; xff]
  = mkDecoded 3 None (mkFixedHeader [x00; x07] 2 PUBACK x00) [xff] /\
  exists b pre lb body rest,
    [x40; x82; x00; x00; x07; xff] = b :: (pre ++ [lb]) ++ body ++ rest /\
    first_byte_accepted PUBACK b /\
    Forall (fun c => continuation c = true) pre /\ continuation lb = false /\
    len pre <= 3 /\ varint_value (pre ++ [lb]) = len body.
Proof.
  pose proof (proj1 (proj2 (fixedHeader_Decode_accepts (mkFixedHeader [] 0 PUBACK x00)))
                x40 [x82] x00 [x00; x07] [xff]) as Hd.
  assert (H : fixedHeader_Decode (mkFixedHeader [] 0 PUBACK x00)
                [x40; x82; x00; x00; x07; xff]
              = mkDecoded 3 None (mkFixedHeader [x00; x07] 2 PUBACK x00) [xff]).
  { apply Hd.
    - unfold first_byte_accepted. repeat split.
    - repeat constructor.
    - reflexivity.
    - vm_compute. discriminate.
    - reflexivity. }
  split; [exact H |].
  apply (proj1 (fixedHeader_Decode_accepts (mkFixedHeader [] 0 PUBACK x00))).
  rewrite H. reflexivity.
Defined.

(** * What [SubscribeMessage.Decode] and [UnsubscribeMessage.Decode] accept *)

Lemma readLPBytes_outcome (b : list byte) :
  (exists s rest, readLPBytes b = (s, 2 + len s, None, rest) /\ b = lp s ++ rest /\
                  len s <= maxLPString) \/
  (exists rest, readLPBytes b = ([], 2, Some ErrInsufficientBuffer, rest)).
Proof.
  destruct (readLPBytes b) as [[[s n] [e |]] rest] eqn:E.
  - right. exists rest.
    pose proof (readLPBytes_err b) as H. rewrite E in H. cbn [fst snd] in H.
    destruct H as [H | H]; [discriminate H |]. injection H as ->.
    unfold readLPBytes in E.
    destruct (readUint16 b) as [[v [e' |]] b1]; [congruence |].
    destruct (len b1 <? v); [congruence |].
    destruct (Next v b1). discriminate E.
  - left. destruct (readLPBytes_inv b s rest n E) as (Hb & Hn & Hs).
    exists s, rest. subst n. auto.
Qed.

(** The decoding loop of SUBSCRIBE on any buffer: with enough fuel a result is
    returned; topics and QoS bytes are appended to the lists of the receiver;
    without error the buffer was a list of pairs of a topic and a QoS byte and
    is consumed whole. *)
Lemma SubscribeMessage_Decode_loop_inv (k : nat) :
  forall (b : list byte) (total r : Z) (t : MessageType) (f : byte) (id : Z)
         (ts0 : list (list byte)) (qs0 : list byte),
    (length b <= k)%nat ->
    exists total' err b' ts qs,
      SubscribeMessage_Decode_loop k total (mkSubscribe (mkFixedHeader b r t f) id ts0 qs0)
      = Some (total', err, mkSubscribe (mkFixedHeader b' r t f) id (ts0 ++ ts) (qs0 ++ qs)) /\
      (err = None ->
       b' = [] /\ length ts = length qs /\ topics_fit ts = true /\
       b = subscribe_pairs_bytes ts qs /\ total' = total + len b) /\
      (err = None \/ err = Some ErrInsufficientBuffer \/ err = Some EOF) /\
      (length ts = length qs \/ length ts = S (length qs)).
Proof.
  induction k as [| k IH]; intros b total r t f id ts0 qs0 Hk.
  - destruct b; [| cbn in Hk; lia].
    exists total, None, [], [], []. rewrite !app_nil_r.
    split; [reflexivity |]. split; [| split; [left; reflexivity | left; reflexivity]].
    intros _. change (len (@nil byte)) with 0. repeat split. lia.
  - destruct b as [| c b].
    { exists total, None, [], [], []. rewrite !app_nil_r.
      split; [reflexivity |]. split; [| split; [left; reflexivity | left; reflexivity]].
      intros _. change (len (@nil byte)) with 0. repeat split. lia. }
    cbn [SubscribeMessage_Decode_loop]. sub_simpl.
    assert (Hpos : (0 <? len (c :: b)) = true).
    { apply Z.ltb_lt. rewrite len_cons. pose proof (len_nonneg b). lia. }
    rewrite Hpos.
    destruct (readLPBytes_outcome (c :: b)) as [(s & b1 & Hr & Hb & Hs) | (b1 & Hr)];
      rewrite Hr; sub_simpl.
    + destruct b1 as [| q b2]; cbn [ReadByte]; sub_simpl.
      * exists (total + (2 + len s)), (Some EOF), [], [s], [].
        rewrite app_nil_r. split; [reflexivity |].
        split; [discriminate |]. split; [right; right; reflexivity | right; reflexivity].
      * assert (Hk2 : (length b2 <= k)%nat).
        { assert (E : length (c :: b) = length (lp s ++ q :: b2)) by (rewrite Hb; reflexivity).
          rewrite length_app in E. unfold lp in E. rewrite length_app in E.
          cbn [length uint16_bytes] in E, Hk. lia. }
        destruct (IH b2 (total + (2 + len s) + 1) r t f id (ts0 ++ [s]) (qs0 ++ [q]) Hk2)
          as (total' & err & b' & ts & qs & Hl & Hok & Herr & Hlen).
        exists total', err, b', (s :: ts), (q :: qs).
        rewrite Hl, <- !app_assoc. cbn [app].
        split; [reflexivity |]. split; [| split; [exact Herr |]].
        -- intros He. destruct (Hok He) as (Hb' & Hl' & Hfit & Hb2 & Ht').
           split; [exact Hb' |]. split; [cbn [length]; lia |].
           split; [apply topics_fit_cons; auto |].
           split.
           ++ rewrite Hb, subscribe_pairs_bytes_cons, <- app_assoc. cbn [app]. rewrite Hb2.
              reflexivity.
           ++ rewrite Ht', Hb, len_app, len_lp, len_cons. lia.
        -- cbn [length]. destruct Hlen as [Hlen | Hlen]; [left | right]; lia.
    + exists (total + 2), (Some ErrInsufficientBuffer), b1, [], [].
      rewrite !app_nil_r. split; [reflexivity |].
      split; [discriminate |]. split; [right; left; reflexivity | left; reflexivity].
Qed.

(** The outcome of the decoding function of SUBSCRIBE on any source, in terms
    of the lists the receiver holds. *)
Lemma SubscribeMessage_Decode_inv (this : SubscribeMessage) (src : list byte) :
  let r := SubscribeMessage_Decode this src in
  d_err r <> Some PanicIndexOutOfRange /\
  (d_err r = None ->
   exists b pre lb hi lo ts qs,
     src = b :: (pre ++ [lb]) ++ (hi :: lo :: subscribe_pairs_bytes ts qs) ++ d_src r /\
     first_byte_accepted (mtype (subscribe_header this)) b /\
     Forall (fun c => continuation c = true) pre /\ continuation lb = false /\
     len pre <= 3 /\
     varint_value (pre ++ [lb]) = 2 + len (subscribe_pairs_bytes ts qs) /\
     length ts = length qs /\ topics_fit ts = true /\
     subscribe_topics this ++ ts <> [] /\
     d_n r = len src - len (d_src r) /\
     d_msg r
     = mkSubscribe
         (mkFixedHeader [] (2 + len (subscribe_pairs_bytes ts qs))
            (mtype (subscribe_header this)) (flags_nibble b))
         (b2z hi * 256 + b2z lo) (subscribe_topics this ++ ts) (qos this ++ qs)) /\
  (length (subscribe_topics this) = length (qos this) ->
   (d_err r = None -> length (subscribe_topics (d_msg r)) = length (qos (d_msg r))) /\
   (length (subscribe_topics (d_msg r)) = length (qos (d_msg r)) \/
    length (subscribe_topics (d_msg r)) = S (length (qos (d_msg r))))).
Proof.
  intros r. subst r. destruct this as [h id ts0 qs0].
  unfold SubscribeMessage_Decode. cbn [subscribe_header subscribe_packetId subscribe_topics qos].
  pose proof (fixedHeader_Decode_inv h src) as [Hinv _].
  pose proof (fixedHeader_Decode_errors h src) as Herrs. cbv zeta in Hinv.
  destruct (fixedHeader_Decode h src) as [n [e |] hm rest]; cbn [d_err d_msg d_n d_src] in *.
  { split; [| split; [discriminate |]].
    - intros E. injection E as ->.
      repeat (destruct Herrs as [Herrs | Herrs]; [discriminate Herrs |]). contradiction.
    - intros Hl. cbn [subscribe_topics qos]. split; [discriminate | left; exact Hl]. }
  destruct (Hinv eq_refl) as (b & pre & lb & body & Hsrc & Hb & Hpre & Hlb & Hl3 & Hv & Hmax
                              & Hn & Hm).
  subst hm. cbn [buf].
  destruct body as [| hi [| lo pairs]]; cbn [readUint16].
  { cbn [d_err d_msg subscribe_topics qos].
    split; [discriminate |]. split; [discriminate |]. intros Hl. split; [discriminate | left; exact Hl]. }
  { cbn [d_err d_msg subscribe_topics qos].
    split; [discriminate |]. split; [discriminate |]. intros Hl. split; [discriminate | left; exact Hl]. }
  sub_simpl.
  destruct (SubscribeMessage_Decode_loop_inv (length pairs) pairs (0 + n + 2)
              (len (hi :: lo :: pairs)) (mtype h) (flags_nibble b) (b2z hi * 256 + b2z lo)
              ts0 qs0 (Nat.le_refl _))
    as (total' & err & b' & ts & qs & Hloop & Hok & Herr & Hlen).
  rewrite Hloop.
  destruct err as [e |].
  - cbn [d_err d_msg subscribe_topics qos].
    split; [destruct Herr as [H | [H | H]]; congruence |]. split; [discriminate |].
    intros Hl. split; [discriminate |]. rewrite !length_app. lia.
  - destruct (Hok eq_refl) as (Hb' & Hl' & Hfit & Hpairs & Ht'). sub_simpl.
    destruct (Z.eqb_spec (len (ts0 ++ ts)) 0) as [E | E]; cbn [d_err d_msg d_n d_src subscribe_topics qos].
    + split; [discriminate |]. split; [discriminate |].
      intros Hl. split; [discriminate |]. rewrite !length_app. lia.
    + split; [discriminate |]. split.
      * intros _. exists b, pre, lb, hi, lo, ts, qs.
        subst pairs b'.
        split; [exact Hsrc |]. split; [exact Hb |].
        split; [exact Hpre |]. split; [exact Hlb |]. split; [exact Hl3 |].
        split; [rewrite Hv, !len_cons; lia |].
        split; [exact Hl' |].
        split; [exact Hfit |]. split.
        { intros E'. apply E. rewrite E'. reflexivity. }
        split.
        { rewrite Ht', Hsrc, Hn. rewrite len_cons, !len_app, !len_cons.
          change (len (@nil byte)) with 0. lia. }
        rewrite !len_cons. do 2 f_equal. lia.
      * intros Hl. rewrite !length_app. split; [intros _ |]; lia.
Qed.

(** X25: [SubscribeMessage.Decode] of any source into a new message.  Its
    loop ends on every input and no index is ever out of range.  When no error
    is returned, the source started with a SUBSCRIBE packet made of a first
    byte passing the checks of the fixed header, a remaining length of one to
    four bytes whose value is the length of the body, a packet identifier and
    at least one pair of a length-prefixed topic and a QoS byte; the message
    holds the identifier, the topics and the QoS bytes of the packet, in their
    order, its buffer is empty and the count returned is the number of bytes
    taken from the source.  Whatever the outcome, the message ends with as
    many topics as QoS bytes, or with one topic more, and this only when the
    decoding failed. *)
Theorem SubscribeMessage_Decode_accepts (src : list byte) :
  let r := SubscribeMessage_Decode NewSubscribeMessage src in
  d_err r <> Some PanicIndexOutOfRange /\
  (d_err r = None ->
   exists b pre lb hi lo ts qs,
     src = b :: (pre ++ [lb]) ++ (hi :: lo :: subscribe_pairs_bytes ts qs) ++ d_src r /\
     first_byte_accepted SUBSCRIBE b /\
     Forall (fun c => continuation c = true) pre /\ continuation lb = false /\
     len pre <= 3 /\
     varint_value (pre ++ [lb]) = 2 + len (subscribe_pairs_bytes ts qs) /\
     length ts = length qs /\ topics_fit ts = true /\ ts <> [] /\
     d_n r = len src - len (d_src r) /\
     d_msg r
     = mkSubscribe
         (mkFixedHeader [] (2 + len (subscribe_pairs_bytes ts qs)) SUBSCRIBE (flags_nibble b))
         (b2z hi * 256 + b2z lo) ts qs) /\
  (d_err r = None -> length (subscribe_topics (d_msg r)) = length (qos (d_msg r))) /\
  (length (subscribe_topics (d_msg r)) = length (qos (d_msg r)) \/
   length (subscribe_topics (d_msg r)) = S (length (qos (d_msg r)))).
Proof.
  intros r. subst r.
  destruct (SubscribeMessage_Decode_inv NewSubscribeMessage src) as (Hp & Hok & Hlen).
  cbv zeta in Hp, Hok, Hlen. destruct (Hlen eq_refl) as [Hl1 Hl2].
  split; [exact Hp |]. split; [| split; [exact Hl1 | exact Hl2]].
  intros H. destruct (Hok H) as (b & pre & lb & hi & lo & ts & qs & H1 & H2 & H3 & H4 & H5
                                 & H6 & H7 & H8 & H9 & H10 & H11).
  exists b, pre, lb, hi, lo, ts, qs.
  repeat (split; [assumption |]). exact H11.
Qed.

Lemma SubscribeMessage_Decode_accepts_witness :
  (exists b pre lb hi lo ts qs,
      [x82; x06; x00; x07; x00; x01; x61; x01; xff]
      = b :: (pre ++ [lb]) ++ (hi :: lo :: subscribe_pairs_bytes ts qs)
        ++ d_src (SubscribeMessage_Decode NewSubscribeMessage
                    [x82; x06; x00; x07; x00; x01; x61; x01; xff]) /\
      length ts = length qs /\ ts <> []) /\
  length (subscribe_topics
            (d_msg (SubscribeMessage_Decode NewSubscribeMessage
                      [x82; x05; x00; x01; x00; x01; x61])))
  = S (length (qos (d_msg (SubscribeMessage_Decode NewSubscribeMessage
                             [x82; x05; x00; x01; x00; x01; x61])))).
Proof.
  split.
  - destruct (proj1 (proj2 (SubscribeMessage_Decode_accepts
                              [x82; x06; x00; x07; x00; x01; x61; x01; xff])) eq_refl)
      as (b & pre & lb & hi & lo & ts & qs & H1 & _ & _ & _ & _ & _ & H2 & _ & H3 & _).
    exists b, pre, lb, hi, lo, ts, qs. split; [exact H1 |]. split; assumption.
  - destruct (proj2 (proj2 (proj2 (SubscribeMessage_Decode_accepts
                                     [x82; x05; x00; x01; x00; x01; x61]))))
      as [H | H].
    + vm_compute in H. discriminate H.
    + exact H.
Defined.

(** The decoding loop of UNSUBSCRIBE on any buffer. *)
Lemma UnsubscribeMessage_Decode_loop_inv (k : nat) :
  forall (b : list byte) (total r : Z) (t : MessageType) (f : byte) (id : Z)
         (ts0 : list (list byte)),
    (length b <= k)%nat ->
    exists total' err b' ts,
      UnsubscribeMessage_Decode_loop k total (mkUnsubscribe (mkFixedHeader b r t f) id ts0)
      = Some (total', err, mkUnsubscribe (mkFixedHeader b' r t f) id (ts0 ++ ts)) /\
      (err = None ->
       b' = [] /\ topics_fit ts = true /\ b = unsubscribe_topics_bytes ts /\
       total' = total + len b) /\
      (err = None \/ err = Some ErrInsufficientBuffer).
Proof.
  induction k as [| k IH]; intros b total r t f id ts0 Hk.
  - destruct b; [| cbn in Hk; lia].
    exists total, None, [], []. rewrite app_nil_r.
    split; [reflexivity |]. split; [| left; reflexivity].
    intros _. change (len (@nil byte)) with 0. repeat split. lia.
  - destruct b as [| c b].
    { exists total, None, [], []. rewrite app_nil_r.
      split; [reflexivity |]. split; [| left; reflexivity].
      intros _. change (len (@nil byte)) with 0. repeat split. lia. }
    cbn [UnsubscribeMessage_Decode_loop]. unsub_simpl.
    assert (Hpos : (0 <? len (c :: b)) = true).
    { apply Z.ltb_lt. rewrite len_cons. pose proof (len_nonneg b). lia. }
    rewrite Hpos.
    destruct (readLPBytes_outcome (c :: b)) as [(s & b1 & Hr & Hb & Hs) | (b1 & Hr)];
      rewrite Hr; unsub_simpl.
    + assert (Hk2 : (length b1 <= k)%nat).
      { assert (E : length (c :: b) = length (lp s ++ b1)) by (rewrite Hb; reflexivity).
        rewrite length_app in E. unfold lp in E. rewrite length_app in E.
        cbn [length uint16_bytes] in E, Hk. lia. }
      destruct (IH b1 (total + (2 + len s)) r t f id (ts0 ++ [s]) Hk2)
        as (total' & err & b' & ts & Hl & Hok & Herr).
      exists total', err, b', (s :: ts).
      rewrite Hl, <- !app_assoc. cbn [app].
      split; [reflexivity |]. split; [| exact Herr].
      intros He. destruct (Hok He) as (Hb' & Hfit & Hb2 & Ht').
      split; [exact Hb' |]. split; [apply topics_fit_cons; auto |].
      split.
      * rewrite Hb, unsubscribe_topics_bytes_cons, Hb2. reflexivity.
      * rewrite Ht', Hb, len_app, len_lp. lia.
    + exists (total + 2), (Some ErrInsufficientBuffer), b1, [].
      rewrite app_nil_r. split; [reflexivity |].
      split; [discriminate | right; reflexivity].
Qed.

(** The outcome of the decoding function of UNSUBSCRIBE on any source, in
    terms of the list the receiver holds. *)
Lemma UnsubscribeMessage_Decode_inv (this : UnsubscribeMessage) (src : list byte) :
  let r := UnsubscribeMessage_Decode this src in
  d_err r <> Some PanicIndexOutOfRange /\
  (d_err r = None ->
   exists b pre lb hi lo ts,
     src = b :: (pre ++ [lb]) ++ (hi :: lo :: unsubscribe_topics_bytes ts) ++ d_src r /\
     first_byte_accepted (mtype (unsubscribe_header this)) b /\
     Forall (fun c => continuation c = true) pre /\ continuation lb = false /\
     len pre <= 3 /\
     varint_value (pre ++ [lb]) = 2 + len (unsubscribe_topics_bytes ts) /\
     topics_fit ts = true /\
     unsubscribe_topics this ++ ts <> [] /\
     d_n r = len src - len (d_src r) /\
     d_msg r
     = mkUnsubscribe
         (mkFixedHeader [] (2 + len (unsubscribe_topics_bytes ts))
            (mtype (unsubscribe_header this)) (flags_nibble b))
         (b2z hi * 256 + b2z lo) (unsubscribe_topics this ++ ts)).
Proof.
  intros r. subst r. destruct this as [h id ts0].
  unfold UnsubscribeMessage_Decode.
  cbn [unsubscribe_header unsubscribe_packetId unsubscribe_topics].
  pose proof (fixedHeader_Decode_inv h src) as [Hinv _].
  pose proof (fixedHeader_Decode_errors h src) as Herrs. cbv zeta in Hinv.
  destruct (fixedHeader_Decode h src) as [n [e |] hm rest]; cbn [d_err d_msg d_n d_src] in *.
  { split; [| discriminate].
    intros E. injection E as ->.
    repeat (destruct Herrs as [Herrs | Herrs]; [discriminate Herrs |]). contradiction. }
  destruct (Hinv eq_refl) as (b & pre & lb & body & Hsrc & Hb & Hpre & Hlb & Hl3 & Hv & Hmax
                              & Hn & Hm).
  subst hm. cbn [buf].
  destruct body as [| hi [| lo tbytes]]; cbn [readUint16].
  { cbn [d_err]. split; discriminate. }
  { cbn [d_err]. split; discriminate. }
  unsub_simpl.
  destruct (UnsubscribeMessage_Decode_loop_inv (length tbytes) tbytes (0 + n + 2)
              (len (hi :: lo :: tbytes)) (mtype h) (flags_nibble b) (b2z hi * 256 + b2z lo)
              ts0 (Nat.le_refl _))
    as (total' & err & b' & ts & Hloop & Hok & Herr).
  rewrite Hloop.
  destruct err as [e |].
  - cbn [d_err]. split; [destruct Herr as [H | H]; congruence | discriminate].
  - destruct (Hok eq_refl) as (Hb' & Hfit & Htb & Ht'). unsub_simpl.
    destruct (Z.eqb_spec (len (ts0 ++ ts)) 0) as [E | E]; cbn [d_err d_msg d_n d_src].
    + split; discriminate.
    + split; [discriminate |].
      intros _. exists b, pre, lb, hi, lo, ts.
      subst tbytes b'.
      split; [exact Hsrc |]. split; [exact Hb |].
      split; [exact Hpre |]. split; [exact Hlb |]. split; [exact Hl3 |].
      split; [rewrite Hv, !len_cons; lia |].
      split; [exact Hfit |]. split.
      { intros E'. apply E. rewrite E'. reflexivity. }
      split.
      { rewrite Ht', Hsrc, Hn. rewrite len_cons, !len_app, !len_cons.
        change (len (@nil byte)) with 0. lia. }
      rewrite !len_cons. do 2 f_equal. lia.
Qed.

(** X26: [UnsubscribeMessage.Decode] of any source into a new message.  Its
    loop ends on every input.  When no error is returned, the source started
    with an UNSUBSCRIBE packet made of a first byte passing the checks of the
    fixed header, a remaining length of one to four bytes whose value is the
    length of the body, a packet identifier and at least one length-prefixed
    topic; the message holds the identifier and the topics of the packet, in
    their order, its buffer is empty and the count returned is the number of
    bytes taken from the source. *)
Theorem UnsubscribeMessage_Decode_accepts (src : list byte) :
  let r := UnsubscribeMessage_Decode NewUnsubscribeMessage src in
  d_err r <> Some PanicIndexOutOfRange /\
  (d_err r = None ->
   exists b pre lb hi lo ts,
     src = b :: (pre ++ [lb]) ++ (hi :: lo :: unsubscribe_topics_bytes ts) ++ d_src r /\
     first_byte_accepted UNSUBSCRIBE b /\
     Forall (fun c => continuation c = true) pre /\ continuation lb = false /\
     len pre <= 3 /\
     varint_value (pre ++ [lb]) = 2 + len (unsubscribe_topics_bytes ts) /\
     topics_fit ts = true /\ ts <> [] /\
     d_n r = len src - len (d_src r) /\
     d_msg r
     = mkUnsubscribe
         (mkFixedHeader [] (2 + len (unsubscribe_topics_bytes ts)) UNSUBSCRIBE (flags_nibble b))
         (b2z hi * 256 + b2z lo) ts).
Proof.
  intros r. subst r.
  destruct (UnsubscribeMessage_Decode_inv NewUnsubscribeMessage src) as (Hp & Hok).
  cbv zeta in Hp, Hok.
  split; [exact Hp |].
  intros H. destruct (Hok H) as (b & pre & lb & hi & lo & ts & H1 & H2 & H3 & H4 & H5 & H6
                                 & H7 & H8 & H9 & H10).
  exists b, pre, lb, hi, lo, ts.
  repeat (split; [assumption |]). exact H10.
Qed.

Lemma UnsubscribeMessage_Decode_accepts_witness :
  exists b pre lb hi lo ts,
    [xa2; x05; x00; x07; x00; x01; x61; xff]
    = b :: (pre ++ [lb]) ++ (hi :: lo :: unsubscribe_topics_bytes ts)
      ++ d_src (UnsubscribeMessage_Decode NewUnsubscribeMessage
                  [xa2; x05; x00; x07; x00; x01; x61; xff]) /\
    topics_fit ts = true /\ ts <> [].
Proof.
  destruct (proj2 (UnsubscribeMessage_Decode_accepts
                     [xa2; x05; x00; x07; x00; x01; x61; xff]) eq_refl)
    as (b & pre & lb & hi & lo & ts & H1 & _ & _ & _ & _ & _ & H2 & H3 & _).
  exists b, pre, lb, hi, lo, ts. split; [exact H1 |]. split; assumption.
Defined.

(** * What [PublishMessage.Decode] accepts *)



(** * The checks of [ConnectMessage.Decode] *)

(** X27: the checks of [ConnectMessage.Decode], in their order, on a CONNECT
    packet without will, user name and password.  The error returned is the
    one of the first check that fails: the protocol name is not the one
    registered for the version; the reserved bit of the connect flags is set;
    the will QoS is 3; the will QoS or the will-retain bit is set with the will
    flag unset; the client identifier is empty and the clean-session bit is
    unset; the client identifier has a character that is not alphanumeric;
    bytes are left after the client identifier.  When none fails the packet is
    decoded. *)
Theorem ConnectMessage_Decode_checks (this : ConnectMessage) (name : list byte)
  (ver cf kh kl : byte) (cid tail rest : list byte) :
  mtype (connect_header this) = CONNECT ->
  len name <= maxLPString -> len cid <= maxLPString ->
  len (lp name ++ ver :: cf :: kh :: kl :: lp cid ++ tail) <= maxRemainingLength ->
  flag_bit cf 2 = false -> flag_bit cf 6 = false -> flag_bit cf 7 = false ->
  d_err (ConnectMessage_Decode this
           (frame CONNECT x00 (lp name ++ ver :: cf :: kh :: kl :: lp cid ++ tail) ++ rest))
  = if negb (protocol_accepted ver name) then Some ErrConnackUnacceptableProtocolVersion
    else if negb (byte_eqb (band cf x01) x00) then Some ErrConnectReservedBit
    else if 2 <? b2z (flags_will_qos cf) then Some ErrConnectWillQos
    else if flag_bit cf 5 || negb (byte_eqb (flags_will_qos cf) x00)
    then Some ErrConnectWillFlag
    else if (len cid =? 0) && negb (flag_bit cf 1) then Some ErrConnackIdentifierRejected
    else if negb (ValidClientId cid) then Some ErrConnackIdentifierRejected
    else if 0 <? len tail then Some ErrConnectTrailing
    else None.
Proof.
  intros Hm Hn Hc Hlen H2 H6 H7.
  rewrite (ConnectMessage_Decode_fields this name ver cf kh kl cid tail rest Hm Hn Hc Hlen).
  cbv zeta. rewrite H2, H6, H7. cbn [negb andb].
  change (b2z QosExactlyOnce) with 2. change QosAtMostOnce with x00.
  destruct (negb (protocol_accepted ver name)); [reflexivity |].
  destruct (negb (byte_eqb (band cf x01) x00)); [reflexivity |].
  destruct (2 <? b2z (flags_will_qos cf)); [reflexivity |].
  destruct (flag_bit cf 5 || negb (byte_eqb (flags_will_qos cf) x00)); [reflexivity |].
  destruct ((len cid =? 0) && negb (flag_bit cf 1)); [reflexivity |].
  assert (Hv : (0 <? len cid) && negb (ValidClientId cid) = negb (ValidClientId cid)).
  { destruct cid as [| c cid]; [reflexivity |].
    rewrite len_cons. pose proof (len_nonneg cid).
    destruct (Z.ltb_spec 0 (1 + len cid)); [reflexivity | lia]. }
  rewrite Hv. destruct (negb (ValidClientId cid)); [reflexivity |].
  unfold ConnectMessage_decodeMessage_optional. conn_simpl. fold_flags cf.
  rewrite H2, H6, H7. cbn [andb].
  destruct (0 <? len tail); reflexivity.
Qed.

Lemma ConnectMessage_Decode_checks_witness :
  d_err (ConnectMessage_Decode NewConnectMessage
           (frame CONNECT x00 (lp str_MQTT ++ x04 :: x02 :: x00 :: x0a :: lp [x61] ++ [xff])
            ++ []))
  = Some ErrConnectTrailing.
Proof.
  refine (ConnectMessage_Decode_checks NewConnectMessage str_MQTT x04 x02 x00 x0a [x61] [xff] []
            _ _ _ _ _ _ _); try reflexivity; vm_compute; discriminate.
Defined.

(** * Decoding a packet and encoding it again *)

(** X29: decoding a PUBACK or CONNACK packet into a new message and encoding
    that message gives the packet back.  This holds for every PUBACK packet of
    four bytes and for every CONNACK packet whose flags byte is 0 or 1 and
    whose return code is at most 5: [Decode] returns no error, counts the four
    bytes of the packet and leaves the bytes that follow unread, and [Encode]
    on the decoded message returns no error and the four bytes of the packet.
    These two messages hold what they decode as numbers, not as byte
    strings. *)
Theorem decode_then_encode :
  (forall (hi lo : byte) (rest : list byte),
      let b := [x40; x02; hi; lo] in
      let r := PubackMessage_Decode NewPubackMessage (b ++ rest) in
      d_err r = None /\ d_n r = len b /\ d_src r = rest /\
      e_err (PubackMessage_Encode (d_msg r)) = None /\
      e_reader (PubackMessage_Encode (d_msg r)) = Some b) /\
  (forall (sp : bool) (rc : byte) (rest : list byte),
      b2z rc <= 5 ->
      let b := [x20; x02; if sp then x01 else x00; rc] in
      let r := ConnackMessage_Decode NewConnackMessage (b ++ rest) in
      d_err r = None /\ d_n r = len b /\ d_src r = rest /\
      e_err (ConnackMessage_Encode (d_msg r)) = None /\
      e_reader (ConnackMessage_Encode (d_msg r)) = Some b).
Proof.
  split.
  - intros hi lo rest. cbv zeta.
    pose proof (PubackMessage_Decode_frame NewPubackMessage PUBACK hi lo [] rest eq_refl eq_refl
                  ltac:(discriminate) ltac:(vm_compute; discriminate)) as Hd.
    change (frame PUBACK (DefaultFlags PUBACK) [hi; lo]) with [x40; x02; hi; lo] in Hd.
    rewrite Hd. cbn [d_err d_n d_src d_msg].
    split; [reflexivity |]. split; [reflexivity |]. split; [reflexivity |].
    rewrite PubackMessage_Encode_ok by reflexivity. cbv zeta. cbn [e_err e_reader].
    cbn [puback_header puback_packetId mtype flags].
    rewrite uint16_bytes_of_bytes. split; reflexivity.
  - intros sp rc rest Hrc. cbv zeta.
    change ([x20; x02; if sp then x01 else x00; rc] ++ rest)
      with (frame CONNACK x00 [if sp then x01 else x00; rc] ++ rest).
    rewrite ConnackMessage_Decode_frame by reflexivity.
    assert (Hack : negb (byte_eqb (band (if sp then x01 else x00) xfe) x00) = false)
      by (destruct sp; reflexivity).
    rewrite Hack. destruct (Z.ltb_spec 5 (b2z rc)) as [H | _]; [lia |].
    cbn [d_err d_n d_src d_msg].
    split; [reflexivity |]. split; [reflexivity |]. split; [reflexivity |].
    unfold ConnackMessage_Encode. cbn [connack_header sessionPresent returnCode].
    rewrite SetRemainingLength_ok by (unfold maxRemainingLength; lia). cbn [snd].
    rewrite fixedHeader_Encode_ok;
      [| hdr_simpl; unfold maxRemainingLength; lia | hdr_simpl; reflexivity].
    cbn [e_err e_msg e_n e_reader connack_header sessionPresent returnCode]. hdr_simpl.
    destruct (Z.ltb_spec 5 (b2z rc)) as [H | _]; [lia |].
    cbn [e_err e_reader]. destruct sp; split; reflexivity.
Qed.

Lemma decode_then_encode_witness :
  let b := [x20; x02; x01; x05] in
  let r := ConnackMessage_Decode NewConnackMessage (b ++ [xff]) in
  d_err r = None /\ d_n r = len b /\ d_src r = [xff] /\
  e_err (ConnackMessage_Encode (d_msg r)) = None /\
  e_reader (ConnackMessage_Encode (d_msg r)) = Some b.
Proof.
  refine (proj2 decode_then_encode true x05 [xff] _).
  vm_compute. discriminate.
Defined.

(** * A header built with the setters *)

(** X30: a fixed header built with [SetType] and [SetRemainingLength].
    [SetType] refuses the types 0 and 15 and no other, [SetRemainingLength]
    refuses the lengths outside 0..268,435,455 and no other, and a refusal
    leaves the header as it was.  When both accept: a type from 16 up, which
    [SetType] lets through, makes [fixedHeader.Encode] fail on the type; with a
    type from 1 to 14 [fixedHeader.Encode] succeeds and [fixedHeader.Decode]
    reads the header back from the bytes written followed by a body of the
    length set.  The flags read back are the default ones of the type whatever
    the header held before, except for PUBLISH, whose flags [SetType] leaves
    alone and which must then have four bits and a valid QoS. *)
Theorem fixedHeader_setters (h0 : fixedHeader) (t : MessageType) (r : Z)
  (body rest : list byte) :
  0 <= t < 256 ->
  let h1 := snd (SetType h0 t) in
  let h := snd (SetRemainingLength h1 r) in
  (fst (SetType h0 t) = None <-> t <> RESERVED /\ t <> RESERVED2) /\
  (fst (SetType h0 t) <> None -> h1 = h0) /\
  (fst (SetRemainingLength h1 r) = None <-> 0 <= r <= maxRemainingLength) /\
  (fst (SetRemainingLength h1 r) <> None -> h = h1) /\
  (fst (SetType h0 t) = None -> fst (SetRemainingLength h1 r) = None ->
   (16 <= t -> e_err (fixedHeader_Encode h) = Some ErrHeaderEncodeType) /\
   (t < 16 ->
    (t = PUBLISH -> b2z (flags h0) < 16 /\ ValidQos (flags_qos (flags h0)) = true) ->
    len body = r ->
    exists hb,
      fixedHeader_Encode h = mkEncoded (Some hb) (len hb) None (set_buf h hb) /\
      fixedHeader_Decode h (hb ++ body ++ rest)
      = mkDecoded (len hb) None
          (mkFixedHeader body r t (if t =? PUBLISH then flags h0 else DefaultFlags t)) rest)).
Proof.
  intros Ht h1 h.
  assert (HT : fst (SetType h0 t) = None <-> t <> RESERVED /\ t <> RESERVED2).
  { unfold SetType.
    destruct (Z.eqb_spec t RESERVED) as [E0 | E0]; cbn [orb fst].
    - split; [discriminate | tauto].
    - destruct (Z.eqb_spec t RESERVED2) as [E1 | E1]; cbn [fst].
      + split; [discriminate | tauto].
      + tauto. }
  assert (HR : forall x, fst (SetRemainingLength x r) = None <-> 0 <= r <= maxRemainingLength).
  { intros x. unfold SetRemainingLength.
    destruct (Z.ltb_spec maxRemainingLength r); cbn [orb fst].
    - split; [discriminate | lia].
    - destruct (Z.ltb_spec r 0); cbn [fst]; split; try discriminate; try lia; reflexivity. }
  split; [exact HT |]. split.
  { intros H. subst h1. unfold SetType in *.
    destruct ((t =? RESERVED) || (t =? RESERVED2)); [reflexivity |].
    contradiction H. reflexivity. }
  split; [apply HR |]. split.
  { intros H. subst h. unfold SetRemainingLength in *.
    destruct ((maxRemainingLength <? r) || (r <? 0)); [reflexivity |].
    contradiction H. reflexivity. }
  intros Hst Hsr. apply HT in Hst. destruct Hst as [Hn0 Hn15].
  apply HR in Hsr.
  assert (Hh1 : h1 = mkFixedHeader (buf h0) (remlen h0) t
                       (if t =? PUBLISH then flags h0 else DefaultFlags t)).
  { subst h1. unfold SetType.
    destruct (Z.eqb_spec t RESERVED) as [E | _]; [contradiction |].
    destruct (Z.eqb_spec t RESERVED2) as [E | _]; [contradiction |].
    cbn [orb snd negb]. destruct (t =? PUBLISH); reflexivity. }
  assert (Hh : h = mkFixedHeader (buf h0) r t
                     (if t =? PUBLISH then flags h0 else DefaultFlags t)).
  { subst h. rewrite SetRemainingLength_ok by assumption. rewrite Hh1. reflexivity. }
  split.
  - intros H16. rewrite Hh. unfold fixedHeader_Encode. cbn [remlen mtype].
    destruct (Z.ltb_spec maxRemainingLength r) as [H | _]; [lia |].
    assert (Hv : Valid t = false).
    { unfold Valid, RESERVED, RESERVED2.
      destruct (Z.ltb_spec t 15); [lia |]. apply andb_false_r. }
    rewrite Hv. reflexivity.
  - intros H16 Hpub Hlen.
    assert (Hv : Valid t = true).
    { unfold Valid, RESERVED, RESERVED2 in *.
      destruct (Z.ltb_spec 0 t); [| lia]. destruct (Z.ltb_spec t 15); [reflexivity | lia]. }
    exists (header_bytes h).
    rewrite fixedHeader_Encode_ok, len_header_bytes by (rewrite Hh; cbn [remlen mtype]; tauto).
    split; [reflexivity |].
    assert (E : header_bytes h ++ body ++ rest
                = frame t (if t =? PUBLISH then flags h0 else DefaultFlags t) body ++ rest).
    { rewrite Hh. unfold header_bytes, frame. cbn [remlen mtype flags]. rewrite Hlen.
      cbn [app]. rewrite <- app_assoc. reflexivity. }
    rewrite E.
    rewrite (fixedHeader_Decode_frame h t); [| rewrite Hh; reflexivity | exact Hv | | | | lia].
    + rewrite Hh. cbn [remlen]. rewrite Hlen. reflexivity.
    + destruct (Z.eqb_spec t PUBLISH) as [Ep | _];
        [apply (Hpub Ep) | apply DefaultFlags_small].
    + intros Hne. destruct (Z.eqb_spec t PUBLISH) as [Ep | _]; [contradiction | reflexivity].
    + intros Ep. rewrite Ep. change (PUBLISH =? PUBLISH) with true. cbv iota.
      apply (Hpub Ep).
Qed.

Lemma fixedHeader_setters_witness :
  e_err (fixedHeader_Encode (snd (SetRemainingLength (snd (SetType zeroHeader 16)) 3)))
  = Some ErrHeaderEncodeType /\
  exists hb,
    fixedHeader_Encode (snd (SetRemainingLength (snd (SetType zeroHeader SUBSCRIBE)) 3))
    = mkEncoded (Some hb) (len hb) None
        (set_buf (snd (SetRemainingLength (snd (SetType zeroHeader SUBSCRIBE)) 3)) hb) /\
    fixedHeader_Decode (snd (SetRemainingLength (snd (SetType zeroHeader SUBSCRIBE)) 3))
      (hb ++ [x01; x02; x03] ++ [x04])
    = mkDecoded (len hb) None (mkFixedHeader [x01; x02; x03] 3 SUBSCRIBE x02) [x04].
Proof.
  split.
  - refine (proj1 (proj2 (proj2 (proj2 (proj2
              (fixedHeader_setters zeroHeader 16 3 [] [] _))))
              _ _) _).
    + lia.
    + reflexivity.
    + reflexivity.
    + lia.
  - refine (proj2 (proj2 (proj2 (proj2 (proj2
              (fixedHeader_setters zeroHeader SUBSCRIBE 3 [x01; x02; x03] [x04] _))))
              _ _) _ _ _).
    + unfold SUBSCRIBE. lia.
    + reflexivity.
    + reflexivity.
    + unfold SUBSCRIBE. lia.
    + intros H. discriminate H.
    + reflexivity.
Defined.
